(** * Budget monitor: statement normalisation and risk scan

    A shallow embedding of [utils/budget.py] (amount and date parsing, sign
    normalisation) and [utils/risk.py] (income estimate, suspicious
    transaction scan) and the properties of these functions.

    Conventions of the embedding.
    - A Python [str] is a [string] holding the UTF-8 bytes of the text.  The
      character classes of the regular expressions ([\d], [\s], [\b], [re.I])
      and [str.lower]/[str.strip] are the ASCII ones; every byte of a
      non-ASCII character is an "other" character for them.
    - A Python [float] that is a number is the rational number it stands
      for, and every operation on floats rounds its exact result to the
      nearest number with a significand of 53 bits, ties to even, as IEEE 754
      binary64 does (module [Binary64]).  The exponent is not bounded:
      numbers beyond 1.8e308, which the code turns into [inf], and below
      2.2e-308, where binary64 loses precision, are outside the embedding.
    - A missing cell ([NaN], [NaT], [None]) is [None].
    - A [pd.Timestamp] is its number of nanoseconds since 1970-01-01. *)

From Stdlib Require Import ZArith QArith Qabs Qround Qpower Qreduction.
From Stdlib Require Import List String Ascii Bool Lia Psatz Morphisms.
From Stdlib Require Import Permutation Sorted.
Import ListNotations.

Local Open Scope string_scope.
Local Open Scope Z_scope.

(* ================================================================== *)
(** * Binary64 arithmetic *)
(* ================================================================== *)

(** The floats of Python and numpy are IEEE 754 binary64 numbers.  A
    number of the format is a rational [m * 2^e] with [|m| < 2^53]; the
    result of an operation is the exact result rounded to the nearest
    number of the format, and to the one with an even significand when two
    are equally near. *)
Module Binary64.
Local Open Scope Q_scope.

Definition pow2 (e : Z) : Q := 2 ^ e.

(** The integer [k] with [2^k <= x < 2^(k+1)], for a positive [x]. *)
Definition ilog2 (x : Q) : Z :=
  let k := (Z.log2 (Qnum x) - Z.log2 (Zpos (Qden x)))%Z in
  if Qle_bool (pow2 k) x then k else (k - 1)%Z.

(** The nearest integer, ties to even, of a rational that is not negative. *)
Definition rne (s : Q) : Z :=
  let f := Qfloor s in
  match Qcompare (s - inject_Z f) (1 # 2) with
  | Lt => f
  | Eq => if Z.even f then f else (f + 1)%Z
  | Gt => (f + 1)%Z
  end.

(** A positive [x] rounded to 53 significant bits. *)
Definition round_pos (x : Q) : Q :=
  let e := (ilog2 x - 52)%Z in
  inject_Z (rne (x / pow2 e)) * pow2 e.

(** The binary64 number nearest to [x], as a reduced fraction. *)
Definition round64 (x : Q) : Q :=
  let x := Qred x in
  match Qnum x with
  | Z0 => 0
  | Zpos _ => Qred (round_pos x)
  | Zneg _ => Qred (- round_pos (- x))
  end.

(** [x + y], [x - y], [x * y] and [x / y] on floats. *)
Definition fadd (x y : Q) : Q := round64 (x + y).
Definition fsub (x y : Q) : Q := round64 (x - y).
Definition fmul (x y : Q) : Q := round64 (x * y).
Definition fdiv (x y : Q) : Q := round64 (x / y).

(** [np.sqrt(x)]: the square root, rounded; [N] is [x] scaled by a power
    of 4 into [2^104, 2^106), so that its root has 53 bits before the
    point.  Of a number that is not positive the code reads the root only
    to test [> 0], which is false for 0 and for [nan] alike. *)
Definition fsqrt (x : Q) : Q :=
  let x := Qred x in
  match Qnum x with
  | Zpos _ =>
      let e := (ilog2 x / 2 - 52)%Z in
      let N := x / pow2 (2 * e) in
      let m := Z.sqrt (Qfloor N) in
      let m' :=
        match Qcompare N (inject_Z (m * m + m) + (1 # 4)) with
        | Lt => m
        | Eq => if Z.even m then m else (m + 1)%Z
        | Gt => (m + 1)%Z
        end in
      Qred (inject_Z m' * pow2 e)
  | _ => 0
  end.

(** The numbers of the format. *)
Definition F64 (x : Q) : Prop :=
  exists m e : Z, (Z.abs m < 2 ^ 53)%Z /\ x == inject_Z m * pow2 e.

End Binary64.

(* ================================================================== *)
(** * Python string primitives *)
(* ================================================================== *)

Module PyStr.

Definition code (c : ascii) : N := N_of_ascii c.

(** [\d] and [str.isdigit] on ASCII. *)
Definition is_digit (c : ascii) : bool :=
  ((48 <=? code c) && (code c <=? 57))%N.

(** [\s] and [str.isspace] on ASCII: tab, LF, VT, FF, CR, FS..US, space. *)
Definition is_space (c : ascii) : bool :=
  (((9 <=? code c) && (code c <=? 13)) ||
   ((28 <=? code c) && (code c <=? 32)))%N.

Definition is_upper (c : ascii) : bool :=
  ((65 <=? code c) && (code c <=? 90))%N.

Definition is_lower (c : ascii) : bool :=
  ((97 <=? code c) && (code c <=? 122))%N.

(** [\w] on ASCII: letters, digits and the underscore. *)
Definition is_word (c : ascii) : bool :=
  is_digit c || is_upper c || is_lower c || (code c =? 95)%N.

Definition lower_char (c : ascii) : ascii :=
  if is_upper c then ascii_of_N (code c + 32) else c.

(** [s.lower()] *)
Fixpoint lower (s : string) : string :=
  match s with
  | EmptyString => EmptyString
  | String c s' => String (lower_char c) (lower s')
  end.

(** [s.lstrip()] *)
Fixpoint lstrip (s : string) : string :=
  match s with
  | String c s' => if is_space c then lstrip s' else s
  | EmptyString => EmptyString
  end.

Fixpoint rev_onto (s acc : string) : string :=
  match s with
  | EmptyString => acc
  | String c s' => rev_onto s' (String c acc)
  end.

Definition rev (s : string) : string := rev_onto s EmptyString.

(** [s.rstrip()] *)
Definition rstrip (s : string) : string := rev (lstrip (rev s)).

(** [s.strip()] *)
Definition strip (s : string) : string := rstrip (lstrip s).

(** [s.startswith(p)]; on success the rest of [s] after [p]. *)
Fixpoint drop_prefix (p s : string) : option string :=
  match p, s with
  | EmptyString, _ => Some s
  | String a p', String b s' =>
      if Ascii.eqb a b then drop_prefix p' s' else None
  | String _ _, EmptyString => None
  end.

Definition startswith (s p : string) : bool :=
  match drop_prefix p s with Some _ => true | None => false end.

(** [s.endswith(p)] *)
Definition endswith (s p : string) : bool := startswith (rev s) (rev p).

(** [sub in s] *)
Fixpoint contains (sub s : string) : bool :=
  startswith s sub ||
  match s with
  | EmptyString => false
  | String _ s' => contains sub s'
  end.

(** [s.replace(old, new)] for a non-empty [old]: the occurrences are
    replaced from the left and do not overlap.  The recursion follows the
    string; [skip] counts the characters of an occurrence still to pass. *)
Fixpoint replace_from (old new s : string) (skip : nat) : string :=
  match s with
  | EmptyString => EmptyString
  | String c s' =>
      match skip with
      | S k => replace_from old new s' k
      | O =>
          if startswith s old
          then new ++ replace_from old new s' (String.length old - 1)
          else String c (replace_from old new s' 0)
      end
  end.

Definition replace (s old new : string) : string :=
  replace_from old new s 0.

(** [re.sub(r'[^...]', '', s)]: keep the characters of the class. *)
Fixpoint keep (p : ascii -> bool) (s : string) : string :=
  match s with
  | EmptyString => EmptyString
  | String c s' => if p c then String c (keep p s') else keep p s'
  end.

(** The longest prefix made of characters of [p], and the rest. *)
Fixpoint span (p : ascii -> bool) (s : string) : string * string :=
  match s with
  | String c s' =>
      if p c then let '(a, b) := span p s' in (String c a, b)
      else (EmptyString, s)
  | EmptyString => (EmptyString, EmptyString)
  end.

Definition digit_value (c : ascii) : Z := Z.of_N (code c) - 48.

(** [int(s)] for a string of digits, most significant first. *)
Fixpoint digits_value (s : string) (acc : Z) : Z :=
  match s with
  | EmptyString => acc
  | String c s' => digits_value s' (10 * acc + digit_value c)
  end.

(** [float(s)] on the strings that reach it in [_clean_amount], which hold
    digits, dots and minus signs only (no blank, exponent, [inf], [nan],
    [+] or [_] survives the [re.sub] before it): an optional minus sign,
    digits, an optional dot, digits, with at least one digit in all.  The
    result is the float nearest to the decimal number written.
    [None] stands for [ValueError]. *)
Definition float (s : string) : option Q :=
  let '(neg, body) :=
    match s with
    | String "-" s' => (true, s')
    | _ => (false, s)
    end in
  let '(ip, rest) := span is_digit body in
  let '(fp, rest') :=
    match rest with
    | String "." r => span is_digit r
    | _ => (EmptyString, rest)
    end in
  match rest' with
  | EmptyString =>
      if (String.length ip + String.length fp =? 0)%nat then None
      else
        let m := digits_value (ip ++ fp) 0 in
        let q := (inject_Z m / inject_Z (10 ^ Z.of_nat (String.length fp)))%Q in
        Some (Binary64.round64 (if neg then Qopp q else q))
  | String _ _ => None
  end.

End PyStr.

(* ================================================================== *)
(** * utils/budget.py: the amount parser *)
(* ================================================================== *)

(** The rupee sign U+20B9 in UTF-8. *)
Definition rupee : string :=
  String (ascii_of_N 226) (String (ascii_of_N 130) (String (ascii_of_N 185) EmptyString)).

(** The class [[\d\.\-]] whose complement [_clean_amount] deletes. *)
Definition amount_char (c : ascii) : bool :=
  PyStr.is_digit c || Ascii.eqb c "." || Ascii.eqb c "-".

(** [_clean_amount(val)]; the argument is [None] when [pd.isna(val)]. *)
Definition _clean_amount (val : option string) : option Q :=
  match val with
  | None => None
  | Some v =>
      let s := PyStr.strip v in
      if String.eqb s "" then None
      else
        let s := PyStr.replace (PyStr.replace (PyStr.replace s rupee "") rupee "") "," "" in
        let s := PyStr.keep amount_char s in
        if String.eqb s "" || String.eqb s "." || String.eqb s "-" then None
        else PyStr.float s
  end.

(** The result of a parse is the number [q]. *)
Definition parsed_as (r : option Q) (q : Q) : Prop :=
  match r with
  | Some x => (x == q)%Q
  | None => False
  end.

(* ================================================================== *)
(** * Calendar arithmetic behind [pd.Timestamp] *)
(* ================================================================== *)

Module Calendar.

(** A naive [pd.Timestamp]: nanoseconds since 1970-01-01 00:00. *)
Definition Timestamp := Z.

Definition ns_per_day : Z := 86400 * 1000000000.

(** Days since 1970-01-01 of the proleptic Gregorian date [y]-[m]-[d]. *)
Definition days_from_civil (y m d : Z) : Z :=
  let y' := if m <=? 2 then y - 1 else y in
  let era := y' / 400 in
  let yoe := y' - era * 400 in
  let mp := if 2 <? m then m - 3 else m + 9 in
  let doy := (153 * mp + 2) / 5 + d - 1 in
  let doe := yoe * 365 + yoe / 4 - yoe / 100 + doy in
  era * 146097 + doe - 719468.

(** The date (year, month, day) of a day number: inverse of the above. *)
Definition civil_from_days (z : Z) : Z * Z * Z :=
  let z' := z + 719468 in
  let era := z' / 146097 in
  let doe := z' - era * 146097 in
  let yoe := (doe - doe / 1460 + doe / 36524 - doe / 146096) / 365 in
  let doy := doe - (365 * yoe + yoe / 4 - yoe / 100) in
  let mp := (5 * doy + 2) / 153 in
  let d := doy - (153 * mp + 2) / 5 + 1 in
  let m := if mp <? 10 then mp + 3 else mp - 9 in
  let y := yoe + era * 400 in
  ((if m <=? 2 then y + 1 else y), m, d).

Definition is_leap (y : Z) : bool :=
  ((y mod 4 =? 0) && negb (y mod 100 =? 0)) || (y mod 400 =? 0).

Definition days_in_month (y m : Z) : Z :=
  if m =? 2 then (if is_leap y then 29 else 28)
  else if (m =? 4) || (m =? 6) || (m =? 9) || (m =? 11) then 30
  else 31.

(** [datetime(y, m, d)] raises [ValueError] outside these bounds. *)
Definition valid_date (y m d : Z) : bool :=
  (1 <=? y) && (y <=? 9999) && (1 <=? m) && (m <=? 12) &&
  (1 <=? d) && (d <=? days_in_month y m).

(** [pd.Timestamp(year=y, month=m, day=d)]: midnight of that day. *)
Definition timestamp (y m d : Z) : Timestamp :=
  days_from_civil y m d * ns_per_day.

Definition day_number (t : Timestamp) : Z := t / ns_per_day.
Definition time_of_day (t : Timestamp) : Z := t mod ns_per_day.

(** The calendar month of a timestamp, counted in months: the bin of
    [resample('M')]. *)
Definition month_index (t : Timestamp) : Z :=
  let '(y, m, _) := civil_from_days (day_number t) in y * 12 + (m - 1).

(** [(t2 - t1).days]: the whole days of a [Timedelta], rounded down. *)
Definition timedelta_days (t2 t1 : Timestamp) : Z := (t2 - t1) / ns_per_day.

(** [t - pd.DateOffset(months=k)]: same time of day, [k] months earlier,
    the day of the month cut down to the length of that month. *)
Definition sub_months (t : Timestamp) (k : Z) : Timestamp :=
  let '(y, m, d) := civil_from_days (day_number t) in
  let mi := y * 12 + (m - 1) - k in
  let y' := mi / 12 in
  let m' := mi mod 12 + 1 in
  let d' := Z.min d (days_in_month y' m') in
  days_from_civil y' m' d' * ns_per_day + time_of_day t.

End Calendar.

Definition Timestamp : Type := Calendar.Timestamp.

(* ================================================================== *)
(** * utils/budget.py: sign normalisation and the final table *)
(* ================================================================== *)

(** A row of the canonical table: the columns [date], [description], [type]
    and [amount] of the frame that [read_statement] returns and that the risk
    scan reads.  A cell is [None] when it is missing. *)
Record Row := mkRow {
  date : option Timestamp;
  description : option string;
  txn_type : option string;
  amount : option Q
}.

(** A row of the working frame [filtered] of [read_statement] once its
    [date], [description], [type] and [amount_raw] columns are set. *)
Record WorkRow := mkWork {
  w_date : option Timestamp;
  w_description : string;
  w_type : string;
  w_amount_raw : option string
}.

(** [str(x)] of a text cell: a missing cell prints as [nan]. *)
Definition str_cell (c : option string) : string :=
  match c with Some s => s | None => "nan" end.

(** [abs(q)] on floats. *)
Definition fabs (q : Q) : Q := Qabs q.

(** The type text names a debit: ['debit' in t or 'dr' in t]. *)
Definition debit_cue (t : string) : bool :=
  PyStr.contains "debit" t || PyStr.contains "dr" t.

(** The type text names a credit: ['credit' in t or 'cr' in t]. *)
Definition credit_cue (t : string) : bool :=
  PyStr.contains "credit" t || PyStr.contains "cr" t.

(** [raw.endswith('cr') or ' cr' in raw] *)
Definition raw_cr_cue (raw : string) : bool :=
  PyStr.endswith raw "cr" || PyStr.contains " cr" raw.

(** [raw.endswith('dr') or ' dr' in raw] *)
Definition raw_dr_cue (raw : string) : bool :=
  PyStr.endswith raw "dr" || PyStr.contains " dr" raw.

(** [normalize_amount(row)], the closure of [read_statement]; [amt] is the
    row's [amount] as [_clean_amount] left it. *)
Definition normalize_amount (row : WorkRow) (amt : option Q) : option Q :=
  match amt with
  | None => None
  | Some a =>
      let t := PyStr.lower (w_type row) in
      if debit_cue t then Some (- fabs a)%Q
      else if credit_cue t then Some (fabs a)
      else
        let raw := PyStr.lower (str_cell (w_amount_raw row)) in
        if raw_cr_cue raw then Some (fabs a)
        else if raw_dr_cue raw then Some (- fabs a)%Q
        else Some a
  end.

(** The amount column after [filtered.apply(normalize_amount, axis=1)]. *)
Definition normalized (row : WorkRow) : option Q :=
  normalize_amount row (_clean_amount (w_amount_raw row)).

(** The tail of [read_statement]: amounts parsed and sign-normalised, rows
    without an amount dropped, the four columns kept in the source order. *)
Definition finalize (filtered : list WorkRow) : list Row :=
  map (fun r => mkRow (w_date r) (Some (w_description r)) (Some (w_type r))
                      (normalized r))
      (filter (fun r => match normalized r with Some _ => true | None => false end)
              filtered).

(* ================================================================== *)
(** * A backtracking matcher for the regular expressions of the source *)
(* ================================================================== *)

Module Regex.

(** The constructs that [DATE_RE] uses.  A literal is compared without
    regard to case, as under [re.I]. *)
Inductive re : Type :=
| Eps
| Lit (s : string)
| Seq (a b : re)
| Alt (a b : re)
| Opt (a : re)
| Star (p : ascii -> bool)
| Rep (p : ascii -> bool) (lo hi : nat)
| WordB.

(** The state of a match attempt: the character before the position (for
    [\b]), the text still to read, the text matched so far (reversed). *)
Definition cont (A : Type) : Type := option ascii -> string -> string -> option A.

Definition or_else {A} (x y : option A) : option A :=
  match x with Some _ => x | None => y end.

Fixpoint m_lit {A} (l : string) (prev : option ascii) (s acc : string)
               (k : cont A) : option A :=
  match l with
  | EmptyString => k prev s acc
  | String a l' =>
      match s with
      | String c s' =>
          if Ascii.eqb (PyStr.lower_char a) (PyStr.lower_char c)
          then m_lit l' (Some c) s' (String c acc) k
          else None
      | EmptyString => None
      end
  end.

(** [p*], greedy: the longest run first, then shorter ones. *)
Fixpoint m_star {A} (p : ascii -> bool) (prev : option ascii) (s acc : string)
                (k : cont A) : option A :=
  match s with
  | String c s' =>
      if p c then or_else (m_star p (Some c) s' (String c acc) k) (k prev s acc)
      else k prev s acc
  | EmptyString => k prev s acc
  end.

(** [p{lo,hi}], greedy. *)
Fixpoint m_rep {A} (p : ascii -> bool) (lo hi : nat) (prev : option ascii)
               (s acc : string) (k : cont A) : option A :=
  let stop := match lo with O => k prev s acc | S _ => None end in
  match hi with
  | O => stop
  | S hi' =>
      match s with
      | String c s' =>
          if p c
          then or_else (m_rep p (Nat.pred lo) hi' (Some c) s' (String c acc) k) stop
          else stop
      | EmptyString => stop
      end
  end.

Definition word_at (c : option ascii) : bool :=
  match c with Some x => PyStr.is_word x | None => false end.

Definition next_char (s : string) : option ascii :=
  match s with String c _ => Some c | EmptyString => None end.

Fixpoint m {A} (r : re) (prev : option ascii) (s acc : string)
           (k : cont A) : option A :=
  match r with
  | Eps => k prev s acc
  | Lit l => m_lit l prev s acc k
  | Seq a b => m a prev s acc (fun prev' s' acc' => m b prev' s' acc' k)
  | Alt a b => or_else (m a prev s acc k) (m b prev s acc k)
  | Opt a => or_else (m a prev s acc k) (k prev s acc)
  | Star p => m_star p prev s acc k
  | Rep p lo hi => m_rep p lo hi prev s acc k
  | WordB =>
      if xorb (word_at prev) (word_at (next_char s)) then k prev s acc else None
  end.

(** A match of [r] that starts right here: the matched text. *)
Definition match_here (r : re) (prev : option ascii) (s : string) : option string :=
  m r prev s EmptyString (fun _ _ acc => Some (PyStr.rev acc)).

(** [r.search(s)]: [m.group(0)] of the leftmost match. *)
Fixpoint search_from (r : re) (prev : option ascii) (s : string) : option string :=
  or_else (match_here r prev s)
          match s with
          | String c s' => search_from r (Some c) s'
          | EmptyString => None
          end.

Definition search (r : re) (s : string) : option string := search_from r None s.

Definition seq_of (rs : list re) : re := fold_right Seq Eps rs.
Definition alt_of (rs : list re) : re :=
  match rs with
  | [] => Eps
  | r :: rs' => fold_left Alt rs' r
  end.

End Regex.

(* ================================================================== *)
(** * utils/budget.py: the date parser *)
(* ================================================================== *)

Import Regex.

(** [Name(?:rest)?] *)
Definition month_re (short rest : string) : re := Seq (Lit short) (Opt (Lit rest)).

(** [DATE_RE]: a month name, a day and a year, as in "Nov 16, 2025". *)
Definition DATE_RE : re :=
  seq_of
    [ WordB;
      alt_of
        [ month_re "Jan" "uary"; month_re "Feb" "ruary"; month_re "Mar" "ch";
          month_re "Apr" "il"; Lit "May"; month_re "Jun" "e";
          month_re "Jul" "y"; month_re "Aug" "ust";
          Seq (Lit "Sep") (Seq (Lit "t") (Opt (Lit "ember")));
          month_re "Oct" "ober"; month_re "Nov" "ember"; month_re "Dec" "ember" ];
      WordB;
      Star PyStr.is_space;
      Rep PyStr.is_digit 1 2;
      Opt (Lit ",");
      Star PyStr.is_space;
      Rep PyStr.is_digit 4 4 ].

(** ** [datetime.strptime] for the templates of [parse_date] *)

Module Strptime.

(** The items of a format: the directives [%b %B %d %m %Y], a run of blanks
    (which matches one or more blanks) and any other character. *)
Inductive item : Type :=
| Pb | PB | Pd | Pm | PY
| Blanks
| Ch (c : ascii).

(** Reads a format string into its items. *)
Fixpoint items (fmt : string) : list item :=
  match fmt with
  | EmptyString => []
  | String "%" (String "b" f) => Pb :: items f
  | String "%" (String "B" f) => PB :: items f
  | String "%" (String "d" f) => Pd :: items f
  | String "%" (String "m" f) => Pm :: items f
  | String "%" (String "Y" f) => PY :: items f
  | String c f =>
      if PyStr.is_space c
      then match items f with
           | Blanks :: rest => Blanks :: rest
           | rest => Blanks :: rest
           end
      else Ch c :: items f
  end.

Definition abbreviated : list string :=
  ["jan"; "feb"; "mar"; "apr"; "may"; "jun";
   "jul"; "aug"; "sep"; "oct"; "nov"; "dec"].

Definition full : list string :=
  ["january"; "february"; "march"; "april"; "may"; "june";
   "july"; "august"; "september"; "october"; "november"; "december"].

(** The fields read so far. *)
Record fields := mkFields { f_year : Z; f_month : Z; f_day : Z }.

(** The ways to read a value made of digits: each alternative is a list of
    character classes, tried in the order of the regular expression that
    [_strptime] builds for the directive. *)
Definition one_of (cs : string) (c : ascii) : bool :=
  PyStr.contains (String c EmptyString) cs.

Definition day_alternatives : list (list (ascii -> bool)) :=
  [ [one_of "3"; one_of "01"];
    [one_of "12"; PyStr.is_digit];
    [one_of "0"; one_of "123456789"];
    [one_of "123456789"];
    [one_of " "; one_of "123456789"] ].

Definition month_alternatives : list (list (ascii -> bool)) :=
  [ [one_of "1"; one_of "012"];
    [one_of "0"; one_of "123456789"];
    [one_of "123456789"] ].

Definition year_alternatives : list (list (ascii -> bool)) :=
  [ [PyStr.is_digit; PyStr.is_digit; PyStr.is_digit; PyStr.is_digit] ].

(** Reads one character per class; the digits read (a blank counts 0). *)
Fixpoint take_classes (cs : list (ascii -> bool)) (s : string) (acc : Z)
  : option (Z * string) :=
  match cs with
  | [] => Some (acc, s)
  | p :: cs' =>
      match s with
      | String c s' =>
          if p c
          then take_classes cs' s'
                 (if PyStr.is_digit c then 10 * acc + PyStr.digit_value c else acc)
          else None
      | EmptyString => None
      end
  end.

(** The first way to continue that leads to a match. *)
Fixpoint first_of {A B} (f : A -> option B) (l : list A) : option B :=
  match l with
  | [] => None
  | x :: l' => Regex.or_else (f x) (first_of f l')
  end.

Definition number {B} (alts : list (list (ascii -> bool))) (s : string)
                  (k : Z -> string -> option B) : option B :=
  first_of (fun cs => match take_classes cs s 0 with
                      | Some (v, s') => k v s'
                      | None => None
                      end) alts.

(** A month name of the table, without regard to case: its number. *)
Fixpoint name_from {B} (names : list string) (i : Z) (s : string)
                   (k : Z -> string -> option B) : option B :=
  match names with
  | [] => None
  | n :: names' =>
      Regex.or_else
        (match PyStr.drop_prefix n (PyStr.lower (substring 0 (String.length n) s)) with
         | Some _ => k i (substring (String.length n) (String.length s) s)
         | None => None
         end)
        (name_from names' (i + 1) s k)
  end.

(** One or more blanks, the longest run first. *)
Fixpoint blanks {B} (s : string) (k : string -> option B) : option B :=
  match s with
  | String c s' =>
      if PyStr.is_space c then Regex.or_else (blanks s' k) (k s') else None
  | EmptyString => None
  end.

(** The match of the format's regular expression at the start of [s]: the
    fields and the text left over. *)
Fixpoint run (fmt : list item) (s : string) (f : fields)
  : option (fields * string) :=
  match fmt with
  | [] => Some (f, s)
  | Pb :: fmt' =>
      name_from abbreviated 1 s
        (fun v s' => run fmt' s' (mkFields (f_year f) v (f_day f)))
  | PB :: fmt' =>
      name_from full 1 s
        (fun v s' => run fmt' s' (mkFields (f_year f) v (f_day f)))
  | Pd :: fmt' =>
      number day_alternatives s
        (fun v s' => run fmt' s' (mkFields (f_year f) (f_month f) v))
  | Pm :: fmt' =>
      number month_alternatives s
        (fun v s' => run fmt' s' (mkFields (f_year f) v (f_day f)))
  | PY :: fmt' =>
      number year_alternatives s
        (fun v s' => run fmt' s' (mkFields v (f_month f) (f_day f)))
  | Blanks :: fmt' => blanks s (fun s' => run fmt' s' f)
  | Ch c :: fmt' =>
      match s with
      | String c' s' =>
          if Ascii.eqb (PyStr.lower_char c) (PyStr.lower_char c')
          then run fmt' s' f else None
      | EmptyString => None
      end
  end.

(** [datetime.strptime(s, fmt)]: the date read, [None] for [ValueError]
    (no match, text left over, or no such day).  A field that the format
    does not set keeps its default: 1900-01-01. *)
Definition strptime (s fmt : string) : option (Z * Z * Z) :=
  match run (items fmt) s (mkFields 1900 1 1) with
  | Some (f, EmptyString) =>
      if Calendar.valid_date (f_year f) (f_month f) (f_day f)
      then Some (f_year f, f_month f, f_day f)
      else None
  | _ => None
  end.

End Strptime.

(** What a call of [pd.to_datetime(text, errors='coerce')] gives. *)
Inductive Parse : Type :=
| Parsed (t : Timestamp)
| NaT
| Raised.

(** [NaT] and a caught exception both end as a missing date. *)
Definition coerce (p : Parse) : option Timestamp :=
  match p with Parsed t => Some t | NaT => None | Raised => None end.

(** The templates of [parse_date], in the order they are tried. *)
Definition templates : list string :=
  ["%b %d, %Y"; "%B %d, %Y"; "%d %b %Y"; "%d %B %Y";
   "%d-%m-%Y"; "%d/%m/%Y"; "%Y-%m-%d"].

(** [pd.to_datetime(d)] of a [datetime]: the timestamp at midnight when
    its nanoseconds fit 64 bits, which is so from 1677-09-22 to 2262-04-11;
    [None] for [OutOfBoundsDatetime]. *)
Definition to_timestamp (y m d : Z) : option Timestamp :=
  let t := Calendar.timestamp y m d in
  if (- 2 ^ 63 <? t) && (t <? 2 ^ 63) then Some t else None.

(** The first template with which [strptime] reads [sdate] and
    [pd.to_datetime] accepts the date read; an exception of either is
    caught and the next template is tried. *)
Definition try_templates (sdate : string) : option Timestamp :=
  Strptime.first_of
    (fun fmt => match Strptime.strptime sdate fmt with
                | Some (y, m, d) => to_timestamp y m d
                | None => None
                end)
    templates.

Section DateParser.

(** The free-form parser of pandas, [pd.to_datetime(s, errors='coerce')],
    is a library function outside the repository. *)
Variable to_datetime : string -> Parse.

(** [parse_date(val)], the closure of [read_statement]; [None] is [NaT].
    Whatever is raised inside is caught, so the function always returns. *)
Definition parse_date (val : option string) : option Timestamp :=
  match val with
  | None => None
  | Some v =>
      let s := PyStr.strip v in
      match Regex.search DATE_RE s with
      | Some sdate =>
          match try_templates sdate with
          | Some t => Some t
          | None => coerce (to_datetime sdate)
          end
      | None => coerce (to_datetime s)
      end
  end.

End DateParser.

(* ================================================================== *)
(** * Numbers and sequences of the risk module *)
(* ================================================================== *)

Local Open Scope Q_scope.

Definition Qltb (x y : Q) : bool := negb (Qle_bool y x).
Definition Qleb (x y : Q) : bool := Qle_bool x y.

(** ** Sums of floats

    [Series.sum], [Series.mean] and [Series.std] add the values with
    numpy's [add.reduce], which sums a contiguous array pairwise: fewer
    than 8 values one after the other; up to 128 values in 8 running sums,
    each taking every eighth value, which are then added in pairs, and the
    values left over after the last full group of 8 one after the other;
    more than 128 values as the sum of the sums of two parts, the first of
    about half the length, cut at a multiple of 8. *)
Module Numpy.

(** [for x in l: res += x] *)
Definition add_loop (acc : Q) (l : list Q) : Q := fold_left Binary64.fadd l acc.

(** [r[j] += a[i + j]] for the 8 running sums. *)
Fixpoint zip_add (r l : list Q) : list Q :=
  match r, l with
  | x :: r', y :: l' => Binary64.fadd x y :: zip_add r' l'
  | _, _ => r
  end.

(** The loop over the full groups of 8: the running sums after it and
    the values left over. *)
Fixpoint blocks (fuel : nat) (r l : list Q) : list Q * list Q :=
  match fuel with
  | O => (r, l)
  | S fuel' =>
      if (8 <=? List.length l)%nat
      then blocks fuel' (zip_add r (firstn 8 l)) (skipn 8 l)
      else (r, l)
  end.

(** The sum of 8 to 128 values. *)
Definition block_sum (l : list Q) : Q :=
  let '(r, rest) := blocks (List.length l) (firstn 8 l) (skipn 8 l) in
  match r with
  | [r0; r1; r2; r3; r4; r5; r6; r7] =>
      add_loop (Binary64.fadd
                  (Binary64.fadd (Binary64.fadd r0 r1) (Binary64.fadd r2 r3))
                  (Binary64.fadd (Binary64.fadd r4 r5) (Binary64.fadd r6 r7)))
               rest
  | _ => 0
  end.

(** The recursion halves the list, so a list is summed before a fuel of
    its length runs out. *)
Fixpoint pairwise_sum (fuel : nat) (l : list Q) : Q :=
  let n := List.length l in
  if (n <? 8)%nat then add_loop 0 l
  else if (n <=? 128)%nat then block_sum l
  else
    match fuel with
    | O => 0
    | S fuel' =>
        let n2 := (n / 2)%nat in
        let n2 := (n2 - n2 mod 8)%nat in
        Binary64.fadd (pairwise_sum fuel' (firstn n2 l))
                      (pairwise_sum fuel' (skipn n2 l))
    end.

Definition sum (l : list Q) : Q := pairwise_sum (List.length l) l.

End Numpy.

(** [len(l)] as a float. *)
Definition count (l : list Q) : Q := inject_Z (Z.of_nat (List.length l)).

(** [l.mean()] of a series without [NaN]: the sum divided by the count. *)
Definition Series_mean (l : list Q) : Q := Binary64.fdiv (Numpy.sum l) (count l).

(** [l.std(ddof=0)] of a series without [NaN]: the root of the mean of
    the squares [(avg - x) ** 2]. *)
Definition Series_std (l : list Q) : Q :=
  let avg := Binary64.fdiv (Numpy.sum l) (count l) in
  let sqr := map (fun v => let d := Binary64.fsub avg v in Binary64.fmul d d) l in
  Binary64.fsqrt (Binary64.fdiv (Numpy.sum sqr) (count l)).

(** The sum of a group in [groupby] and [resample]: pandas adds the
    values of a group in row order and carries the rounding error of each
    addition into the next one (Kahan summation). *)
Definition kahan_step (st : Q * Q) (val : Q) : Q * Q :=
  let '(sumx, compensation) := st in
  let y := Binary64.fsub val compensation in
  let t := Binary64.fadd sumx y in
  (t, Binary64.fsub (Binary64.fsub t sumx) y).

Definition group_sum (vals : list Q) : Q := fst (fold_left kahan_step vals (0, 0)).

(** [sorted(l, key=key)] and [sort_values]: the list, stably sorted by
    increasing key.  A stable sort has one possible result, whichever
    algorithm computes it; this one inserts each element before the first
    later element with a key at least as large. *)
Section StableSort.
Context {A : Type} (key : A -> Z).

Fixpoint insert_sorted (x : A) (l : list A) : list A :=
  match l with
  | [] => [x]
  | y :: l' =>
      if (key x <=? key y)%Z then x :: y :: l'
      else y :: insert_sorted x l'
  end.

Fixpoint sorted (l : list A) : list A :=
  match l with
  | [] => []
  | x :: l' => insert_sorted x (sorted l')
  end.
End StableSort.

(** The order by key and, for equal keys, by a second measure [pos]. *)
Definition key_then_pos {A : Type} (key : A -> Z) (pos : A -> nat) (x y : A) : Prop :=
  (key x < key y)%Z \/ (key x = key y /\ (pos x < pos y)%nat).

(** [range(lo, hi + 1)] over the integers. *)
Definition zrange (lo hi : Z) : list Z :=
  map (fun i => (lo + Z.of_nat i)%Z) (seq 0 (Z.to_nat (hi - lo + 1))).

Definition zmin_list (x : Z) (l : list Z) : Z := fold_right Z.min x l.
Definition zmax_list (x : Z) (l : list Z) : Z := fold_right Z.max x l.

(* ================================================================== *)
(** * utils/risk.py: the data frame *)
(* ================================================================== *)

(** A [pd.DataFrame] as the risk module reads it: which of the four columns
    it has, how many other columns, and its rows in order (default integer
    index: the label of a row is its position).  The cell of a row under a
    column that the frame lacks is never read.  The [date] column holds
    timestamps or [NaT], the [amount] column floats or [NaN]. *)
Record DataFrame := mkFrame {
  has_date : bool;
  has_description : bool;
  has_type : bool;
  has_amount : bool;
  other_columns : nat;
  rows : list Row
}.

(** A frame with the four canonical columns, as [read_statement] returns. *)
Definition table (rs : list Row) : DataFrame := mkFrame true true true true 0 rs.

(** [df.empty]: no row, or no column. *)
Definition df_empty (df : DataFrame) : bool :=
  match rows df with
  | [] => true
  | _ :: _ =>
      negb (has_date df || has_description df || has_type df || has_amount df)
      && (other_columns df =? 0)%nat
  end.

(* ================================================================== *)
(** * utils/risk.py: [compute_monthly_income] *)
(* ================================================================== *)

(** [df.dropna(subset=['date', 'amount'])], as (date, amount) pairs. *)
Fixpoint dated_amounts (rs : list Row) : list (Timestamp * Q) :=
  match rs with
  | [] => []
  | r :: rs' =>
      match date r, amount r with
      | Some d, Some a => (d, a) :: dated_amounts rs'
      | _, _ => dated_amounts rs'
      end
  end.

(** The calendar month of a dated amount. *)
Definition entry_month (e : Timestamp * Q) : Z := Calendar.month_index (fst e).

(** The rows in the order of their dates, rows of one date in the order
    of the frame: [resample] sorts the frame by its index first. *)
Definition by_date (l : list (Timestamp * Q)) : list (Timestamp * Q) :=
  sorted (fun e : Timestamp * Q => fst e) l.

(** The amounts that fall in month [m], and their sum. *)
Definition month_amounts (l : list (Timestamp * Q)) (m : Z) : list Q :=
  map snd (filter (fun e => (entry_month e =? m)%Z) l).

Definition month_sum (l : list (Timestamp * Q)) (m : Z) : Q :=
  group_sum (month_amounts l m).

(** [l.set_index('date').resample('M')['amount'].sum()]: one bin for every
    calendar month from the earliest to the latest date, in order; a month
    without a row has the sum 0. *)
Definition resample_month_sum (l : list (Timestamp * Q)) : list Q :=
  let l := by_date l in
  match map entry_month l with
  | [] => []
  | m :: ms => map (month_sum l) (zrange (zmin_list m ms) (zmax_list m ms))
  end.

Definition is_nil {A} (l : list A) : bool :=
  match l with [] => true | _ :: _ => false end.

(** [compute_monthly_income(df)] *)
Definition compute_monthly_income (df : DataFrame) : Q :=
  if negb (has_date df) || negb (has_amount df) then 0
  else
    let df2 := dated_amounts (rows df) in
    if is_nil df2 then 0
    else
      let monthly := resample_month_sum df2 in
      let monthly_income := filter (fun s => Qltb 0 s) monthly in
      if is_nil monthly_income then
        let credits :=
          resample_month_sum (filter (fun e => Qltb 0 (snd e)) df2) in
        if is_nil credits then 0 else Series_mean credits
      else Series_mean monthly_income.

(* ================================================================== *)
(** * utils/risk.py: [detect_suspicious_transactions] *)
(* ================================================================== *)

(** The codes of the reasons; the message texts are left out. *)
Inductive Reason : Type :=
| unaffordable
| anomalous_amount
| new_payee
| freq_small_trans.

Definition Reason_eq_dec (a b : Reason) : {a = b} + {a <> b}.
Proof. decide equality. Defined.

(** How many times the code [r] is among the reasons [l]. *)
Definition occurrences (r : Reason) (l : list Reason) : nat :=
  count_occ Reason_eq_dec l r.

(** An entry of the result: the row's label, its cells, the amount as a
    float and the reasons in the order they were found. *)
Record Flag := mkFlag {
  index : nat;
  flag_row : Row;
  flag_amount : option Q;
  reasons : list Reason
}.

(** What a call of the scan gives: the flags, or [ValueError]. *)
Inductive Outcome : Type :=
| Flags (fs : list Flag)
| ValueError (msg : string).

(** [str(x).strip().lower()] of a description cell. *)
Definition payee_key (c : option string) : string :=
  PyStr.lower (PyStr.strip (str_cell c)).

(** The comparisons of a float that may be [NaN]: false on [NaN]. *)
Definition amt_lt0 (amt : option Q) : bool :=
  match amt with Some a => Qltb a 0 | None => false end.

Definition amt_abs_gt (amt : option Q) (bound : Q) : bool :=
  match amt with Some a => Qltb bound (fabs a) | None => false end.

(** [z = (amt - mean_amt) / std_amt] *)
Definition z_value (mean_amt std_amt amt : Q) : Q :=
  Binary64.fdiv (Binary64.fsub amt mean_amt) std_amt.

(** The z-score test of the scan: [std_amt > 0] and [abs(z) >= outlier_z];
    with an amount that is [NaN] so is [z], and the comparison is false. *)
Definition is_outlier (mean_amt std_amt outlier_z : Q) (amt : option Q) : bool :=
  match amt with
  | None => false
  | Some a =>
      Qltb 0 std_amt && Qleb outlier_z (fabs (z_value mean_amt std_amt a))
  end.

(** [for i in range(len(ds) - 3): if (ds[i+3] - ds[i]).days <= 7: ...] *)
Definition has_burst_window (ds : list Timestamp) : bool :=
  existsb (fun i => (Calendar.timedelta_days (nth (i + 3) ds 0%Z) (nth i ds 0%Z) <=? 7)%Z)
          (seq 0 (List.length ds - 3)).

(** The rows of the frame with the payee [desc], and their dates sorted. *)
Definition payee_rows (rs : list Row) (desc : string) : list Row :=
  filter (fun r => String.eqb (payee_key (description r)) desc) rs.

Fixpoint dropna {A} (l : list (option A)) : list A :=
  match l with
  | [] => []
  | Some x :: l' => x :: dropna l'
  | None :: l' => dropna l'
  end.

Definition dates_sorted (prs : list Row) : list Timestamp :=
  sorted (fun t : Timestamp => t) (dropna (map date prs)).

(** The frequency test of one row. *)
Definition burst (df : DataFrame) (desc : string) : bool :=
  has_date df && negb (String.eqb desc "") &&
  let prs := payee_rows (rows df) desc in
  (4 <=? List.length prs)%nat &&
  (4 <=? List.length (dates_sorted prs))%nat &&
  has_burst_window (dates_sorted prs).

(** The set [recent_payees]. *)
Definition recent_payees (df : DataFrame) (recent_payees_months : Z) : list string :=
  if has_description df && has_date df then
    let recent_df :=
      match dropna (map date (rows df)) with
      | [] => rows df
      | d :: ds =>
          let min_date :=
            Calendar.sub_months (zmax_list d ds) recent_payees_months in
          filter (fun r => match date r with
                           | Some t => (min_date <=? t)%Z
                           | None => false
                           end) (rows df)
      end in
    map (fun s => PyStr.lower (PyStr.strip s)) (dropna (map description recent_df))
  else [].

Definition in_set (s : string) (l : list string) : bool :=
  existsb (String.eqb s) l.

(** The values the scan computes once, before the loop over the rows. *)
Record Context := mkContext {
  monthly_income : Q;
  mean_amt : Q;
  std_amt : Q;
  recent : list string
}.

(** [monthly_income > 0 and amt < 0 and
    abs(amt) > unaffordable_threshold * monthly_income] *)
Definition unaffordable_check (unaffordable_threshold income : Q) (amt : option Q) : bool :=
  Qltb 0 income && amt_lt0 amt &&
  amt_abs_gt amt (Binary64.fmul unaffordable_threshold income).

(** The literal [0.2] of the source: the float nearest to two tenths. *)
Definition two_tenths : Q := Binary64.round64 (2 # 10).

Definition new_payee_check (df : DataFrame) (ctx : Context) (desc : string)
                           (amt : option Q) : bool :=
  negb (String.eqb desc "") && negb (in_set desc (recent ctx)) &&
  (amt_lt0 amt ||
   amt_abs_gt amt (if Qltb 0 (monthly_income ctx)
                   then Binary64.fmul two_tenths (monthly_income ctx) else 0)).

(** [desc] of the loop: the payee key of the row, empty when the frame has
    no description column. *)
Definition row_payee (df : DataFrame) (row : Row) : string :=
  if has_description df then payee_key (description row) else "".

Definition when (b : bool) (r : Reason) : list Reason := if b then [r] else [].

(** The body of the loop: the reasons found for one row. *)
Definition row_reasons (df : DataFrame) (ctx : Context)
                       (unaffordable_threshold outlier_z : Q) (row : Row)
  : list Reason :=
  let amt := amount row in
  let desc := row_payee df row in
  when (unaffordable_check unaffordable_threshold (monthly_income ctx) amt) unaffordable
  ++ when (is_outlier (mean_amt ctx) (std_amt ctx) outlier_z amt) anomalous_amount
  ++ when (new_payee_check df ctx desc amt) new_payee
  ++ when (burst df desc) freq_small_trans.

(** The loop: a flag for every row with a reason, in row order. *)
Fixpoint scan_rows (df : DataFrame) (ctx : Context)
                   (unaffordable_threshold outlier_z : Q)
                   (idx : nat) (rs : list Row) : list Flag :=
  match rs with
  | [] => []
  | row :: rs' =>
      let rest := scan_rows df ctx unaffordable_threshold outlier_z (S idx) rs' in
      match row_reasons df ctx unaffordable_threshold outlier_z row with
      | [] => rest
      | reasons => mkFlag idx row (amount row) reasons :: rest
      end
  end.

(** [severity_score(f)]: minus the weight of the reasons. *)
Definition weight (r : Reason) : Z :=
  match r with
  | unaffordable => 100
  | anomalous_amount => 50
  | new_payee => 20
  | freq_small_trans => 10
  end.

Definition score (f : Flag) : Z := fold_right (fun r s => (weight r + s)%Z) 0%Z (reasons f).
Definition severity_score (f : Flag) : Z := (- score f)%Z.

(** The statistics and the payee set computed before the loop: the income
    estimate, the mean of the amounts that are not [NaN], their standard
    deviation when it is positive and 0 otherwise, and [recent_payees]. *)
Definition scan_context (df : DataFrame) (recent_payees_months : Z) : Context :=
  let amounts := dropna (map amount (rows df)) in
  mkContext (compute_monthly_income df) (Series_mean amounts)
            (if Qltb 0 (Series_std amounts) then Series_std amounts else 0)
            (recent_payees df recent_payees_months).

(** [detect_suspicious_transactions(df, unaffordable_threshold, outlier_z,
    recent_payees_months)]; [df] is [None] when the argument is [None]. *)
Definition detect_suspicious_transactions
    (df : option DataFrame) (unaffordable_threshold outlier_z : Q)
    (recent_payees_months : Z) : Outcome :=
  match df with
  | None => Flags []
  | Some df =>
      if df_empty df then Flags []
      else if negb (has_amount df)
      then ValueError "DataFrame must have 'amount' column"
      else
        let amounts := dropna (map amount (rows df)) in
        if is_nil amounts then Flags []
        else
          let ctx := scan_context df recent_payees_months in
          let flags := scan_rows df ctx unaffordable_threshold outlier_z 0 (rows df) in
          Flags (sorted severity_score flags)
  end.

(** The z-score of an amount among the amounts of a frame. *)
Definition z_score (amounts : list Q) (amt : Q) : Q :=
  z_value (Series_mean amounts) (Series_std amounts) amt.

(* ================================================================== *)
(** * The statements of the specification, in its own words *)
(* ================================================================== *)

(** ** Income estimate

    The specification groups the rows that have a date and an amount into
    buckets, one for each calendar month that holds such a row, and averages
    the sums of the buckets.  The months are taken in calendar order and the
    rows of a month in the order of their dates. *)
Definition usable (df : DataFrame) : list (Timestamp * Q) :=
  if has_date df && has_amount df then dated_amounts (rows df) else [].

(** The months of the bins of [resample('M')]. *)
Definition month_range (l : list (Timestamp * Q)) : list Z :=
  match map entry_month l with
  | [] => []
  | m :: ms => zrange (zmin_list m ms) (zmax_list m ms)
  end.

(** The month [m] holds a row. *)
Definition holds_row (l : list (Timestamp * Q)) (m : Z) : bool :=
  existsb (fun e => (entry_month e =? m)%Z) l.

Definition month_keys (l : list (Timestamp * Q)) : list Z :=
  filter (holds_row l) (month_range l).

Definition bucket_sums (l : list (Timestamp * Q)) : list Q :=
  map (month_sum (by_date l)) (month_keys l).

Definition positive_months (l : list (Timestamp * Q)) : list Q :=
  filter (fun s => Qltb 0 s) (bucket_sums l).

Definition credits_only (l : list (Timestamp * Q)) : list (Timestamp * Q) :=
  filter (fun e => Qltb 0 (snd e)) l.

(** The estimate as the specification states it. *)
Definition estimate_spec (df : DataFrame) : Q :=
  let l := usable df in
  if negb (is_nil (positive_months l)) then Series_mean (positive_months l)
  else if negb (is_nil (bucket_sums (credits_only l)))
       then Series_mean (bucket_sums (credits_only l))
       else 0.

(** The sums of the strictly positive amounts in every calendar month from
    the first to the last month that holds one. *)
Definition credit_bins (l : list (Timestamp * Q)) : list Q :=
  map (month_sum (by_date (credits_only l))) (month_range (credits_only l)).

(** ** Sign invariant

    The invariant of the specification on the final table: a type that names
    a debit goes with a negative amount, one that names a credit with a
    positive amount. *)
Definition sign_invariant (final : list Row) : Prop :=
  forall row ty a,
    In row final -> txn_type row = Some ty -> amount row = Some a ->
    (debit_cue (PyStr.lower ty) = true -> a < 0) /\
    (credit_cue (PyStr.lower ty) = true -> 0 < a).

(** ** Burst frequency

    The condition of the specification for a row: four rows or more share
    its payee key, four or more of them are dated, and four consecutive
    dates of the sorted sequence lie within seven days. *)
Definition burst_window (ds : list Timestamp) : Prop :=
  exists i : nat,
    (i + 3 < List.length ds)%nat /\
    (Calendar.timedelta_days (nth (i + 3) ds 0%Z) (nth i ds 0%Z) <= 7)%Z.

Definition burst_spec (df : DataFrame) (row : Row) : Prop :=
  let prs := payee_rows (rows df) (payee_key (description row)) in
  (4 <= List.length prs)%nat /\
  (4 <= List.length (dates_sorted prs))%nat /\
  burst_window (dates_sorted prs).

(** The heuristic [r] fires on [row]. *)
Definition fires (r : Reason) (df : DataFrame) (ctx : Context)
                 (unaffordable_threshold outlier_z : Q) (row : Row) : Prop :=
  In r (row_reasons df ctx unaffordable_threshold outlier_z row).

(** The order of the result: higher score first, and among equal scores the
    row that comes first in the frame. *)
Definition before (f g : Flag) : Prop :=
  (score g < score f)%Z \/ (score f = score g /\ (index f < index g)%nat).

Local Open Scope list_scope.

(** [f] comes before [g] in the sequence [l]. *)
Definition precedes {A} (f g : A) (l : list A) : Prop :=
  exists l1 l2 l3, l = l1 ++ f :: l2 ++ g :: l3.

(* ================================================================== *)
(** * Example inputs *)
(* ================================================================== *)

Module Examples.

Definition day (y m d : Z) : option Timestamp := Some (Calendar.timestamp y m d).

Definition txn (y m d : Z) (payee : string) (a : Q) : Row :=
  mkRow (day y m d) (Some payee) (Some "") (Some a).

(** A frame with an [amount] column only. *)
Definition amounts_only (l : list Q) : DataFrame :=
  mkFrame false false false true 0
          (map (fun a => mkRow None None None (Some a)) l).

(** One month, net income 1000; debits of 600 and 400. *)
Definition salary_month : DataFrame :=
  table [ txn 2025 1 1 "salary" 2000;
          txn 2025 1 2 "rent" (-600);
          txn 2025 1 3 "food" (-400) ].

(** The series of the outlier example. *)
Definition series : list Q := [-10; -12; -9; -11; -500].

Definition outlier_series : DataFrame := amounts_only series.

(** A frame with rows and a date column but no amount column. *)
Definition no_amount_column : DataFrame :=
  mkFrame true true false false 0
          [ mkRow (day 2025 1 1) (Some "rent") None None ].

(** A frame without rows and without an amount column. *)
Definition empty_no_amount : DataFrame := mkFrame true true false false 0 [].

(** A frame whose amounts are all missing. *)
Definition all_null : DataFrame :=
  table [ mkRow (day 2025 1 1) (Some "rent") (Some "") None;
          mkRow (day 2025 1 2) (Some "food") (Some "") None ].

(** A debit of nothing, and a withdrawal by credit card. *)
Definition zero_debit : list WorkRow :=
  [ mkWork (day 2025 1 1) "bank charge" "Debit" (Some "0.00") ].

Definition credit_withdrawal : list WorkRow :=
  [ mkWork (day 2025 1 2) "atm" "Credit card withdrawal" (Some "250") ].

(** Rows of a statement with the cues in the type or in the amount. *)
Definition statement_rows : list WorkRow :=
  [ mkWork (day 2025 1 1) "rent" "DEBIT" (Some "1,200.00 Cr");
    mkWork (day 2025 1 2) "salary" "Cr" (Some "-5000");
    mkWork (day 2025 1 3) "refund" "" (Some "75.50 CR");
    mkWork (day 2025 1 4) "fee" "" (Some "12 dr");
    mkWork (day 2025 1 5) "misc" "" (Some "-3");
    mkWork (day 2025 1 6) "note" "" (Some "n/a") ].

Definition nov_16_2025 : Timestamp := Calendar.timestamp 2025 11 16.

(** A payee last seen long ago, three salaries and a large purchase. *)
Definition old_shop : Row := txn 2024 1 5 "old shop" (-5).
Definition car : Row := txn 2025 3 5 "car" (-5000).

Definition purchases : DataFrame :=
  table [ old_shop;
          txn 2025 1 1 "salary" 1000;
          txn 2025 2 1 "salary" 1000;
          txn 2025 3 1 "salary" 1000;
          car ].

(** Five visits to one shop, four of them within a week, and a sixth
    visit months later. *)
Definition shop_visits : DataFrame :=
  table [ txn 2025 1 1 "Shop" (-10);
          txn 2025 1 2 "shop " (-10);
          txn 2025 1 3 " SHOP" (-10);
          txn 2025 1 8 "shop" (-10);
          txn 2025 1 28 "shop" (-10);
          txn 2025 8 1 "shop" (-10) ].

(** Four rows of one day without a description. *)
Definition blank_payee : Row := txn 2025 1 1 "" (-10).

Definition blank_payees : DataFrame :=
  table [ blank_payee; blank_payee; txn 2025 1 1 " " (-10); blank_payee ].

(** Three months: net 800 in January, -300 in February, 1400 in March. *)
Definition three_months : DataFrame :=
  table [ txn 2025 1 5 "salary" 1000;
          txn 2025 1 9 "food" (-200);
          txn 2025 2 3 "rent" (-300);
          txn 2025 3 1 "salary" 1500;
          txn 2025 3 4 "food" (-100) ].

(** Three months, each with more debits than credits; February has no
    credit at all. *)
Definition credit_gap : DataFrame :=
  table [ txn 2025 1 5 "refund" 100;
          txn 2025 1 9 "rent" (-200);
          txn 2025 2 3 "food" (-50);
          txn 2025 3 1 "refund" 100;
          txn 2025 3 4 "rent" (-200) ].

End Examples.

(* ================================================================== *)
(** * Further definitions for the properties of the scan *)
(* ================================================================== *)

(** The flag carries the reason [r]. *)
Definition has_reason (r : Reason) (f : Flag) : bool :=
  existsb (fun x => if Reason_eq_dec x r then true else false) (reasons f).

Module MoreExamples.

(** A frame with descriptions and amounts and no date column. *)
Definition undated : DataFrame :=
  mkFrame false true false true 0
          [ mkRow None (Some "rent") None (Some (-600));
            mkRow None (Some "salary") None (Some 2000) ].

(** A frame whose dates are all missing. *)
Definition all_nat : DataFrame :=
  table [ mkRow None (Some "Rent") (Some "") (Some (-600));
          mkRow None (Some "salary") (Some "") (Some 2000) ].

End MoreExamples.

(* ================================================================== *)
(** * utils/budget.py: header row, column roles and the row mask *)
(* ================================================================== *)

(** A cell of the raw grid: text, or [None] for [NaN]. *)
Definition Cell : Type := option string.

(** [sep.join(xs)] *)
Fixpoint join (sep : string) (xs : list string) : string :=
  match xs with
  | [] => ""
  | [x] => x
  | x :: xs' => (x ++ sep ++ join sep xs')%string
  end.

Definition header_keywords : list string :=
  ["date"; "transaction"; "transaction details"; "details"; "type";
   "amount"; "amt"; "description"; "narration"].

(** [joined] of [_find_header_row]: the cells in lower case, a missing cell
    as the empty text, with one blank between them. *)
Definition joined (row : list Cell) : string :=
  join " " (map (fun x => match x with
                          | Some s => PyStr.lower s
                          | None => ""
                          end) row).

(** [hits]: the keywords found in the joined text. *)
Definition header_hits (row : list Cell) : nat :=
  List.length (filter (fun kw => PyStr.contains kw (joined row)) header_keywords).

Fixpoint find_header_from (i : nat) (grid : list (list Cell)) : option nat :=
  match grid with
  | [] => None
  | row :: rest =>
      if (2 <=? header_hits row)%nat then Some i
      else find_header_from (S i) rest
  end.

(** [_find_header_row(raw_df)]: the label of the first row with two hits. *)
Definition _find_header_row (grid : list (list Cell)) : option nat :=
  find_header_from 0 grid.

(** The row has a cell that holds "transaction details": the test of the
    last header strategy of [read_statement]. *)
Definition has_details_cell (row : list Cell) : bool :=
  existsb (fun x => match x with
                    | Some s => PyStr.contains "transaction details" (PyStr.lower s)
                    | None => false
                    end) row.

Fixpoint find_details_from (i : nat) (grid : list (list Cell)) : option nat :=
  match grid with
  | [] => None
  | row :: rest =>
      if has_details_cell row then Some i else find_details_from (S i) rest
  end.

(** The search for an explicit "Transaction Details" row that
    [read_statement] makes when [_find_header_row] found none. *)
Definition find_details_row (grid : list (list Cell)) : option nat :=
  find_details_from 0 grid.

(** A Python [dict] with text keys, in insertion order: setting a key that
    is present replaces its value and keeps its place. *)
Fixpoint dict_set (k v : string) (d : list (string * string)) : list (string * string) :=
  match d with
  | [] => [(k, v)]
  | (k', v') :: d' =>
      if String.eqb k k' then (k, v) :: d' else (k', v') :: dict_set k v d'
  end.

(** [lname = {str(c).lower(): c for c in df.columns}] *)
Definition lname (columns : list string) : list (string * string) :=
  fold_left (fun d c => dict_set (PyStr.lower c) c d) columns [].

(** [pick_col(keywords)], the closure of [read_statement]. *)
Fixpoint pick_col (keywords : list string) (d : list (string * string)) : option string :=
  match d with
  | [] => None
  | (low, orig) :: d' =>
      if existsb (fun kw => PyStr.contains kw low) keywords then Some orig
      else pick_col keywords d'
  end.

(** The last of the columns whose name in lower case is [low]. *)
Definition last_named (low : string) (columns : list string) : option string :=
  find (fun c => String.eqb (PyStr.lower c) low) (rev columns).

(** [re.search(r'[class]', s)]: some character of [s] is in the class. *)
Fixpoint any_char (p : ascii -> bool) (s : string) : bool :=
  match s with
  | EmptyString => false
  | String c s' => p c || any_char p s'
  end.

(** [has_amount_val(x)], the closure of [read_statement]. *)
Definition has_amount_val (x : Cell) : bool :=
  match x with
  | None => false
  | Some s => any_char PyStr.is_digit s
  end.

(** Every character of [s] is in the class. *)
Fixpoint all_chars (p : ascii -> bool) (s : string) : bool :=
  match s with
  | EmptyString => true
  | String c s' => p c && all_chars p s'
  end.

(** The first way to find a keyword of [pick_col] in a column name. *)
Definition key_matches (keywords : list string) (low : string) : bool :=
  existsb (fun kw => PyStr.contains kw low) keywords.

(** What [PyStr.float] reads after the sign: digits, an optional dot,
    digits. *)
Definition float_unsigned (neg : bool) (body : string) : option Q :=
  let '(ip, rest) := PyStr.span PyStr.is_digit body in
  let '(fp, rest') :=
    match rest with
    | String "." r => PyStr.span PyStr.is_digit r
    | _ => (EmptyString, rest)
    end in
  match rest' with
  | EmptyString =>
      if (String.length ip + String.length fp =? 0)%nat then None
      else
        let m := PyStr.digits_value (ip ++ fp) 0 in
        let q := (inject_Z m / inject_Z (10 ^ Z.of_nat (String.length fp)))%Q in
        Some (Binary64.round64 (if neg then Qopp q else q))
  | String _ _ => None
  end.

Module MoreExamples2.

(** A grid without a header row. *)
Definition no_header : list (list Cell) :=
  [ [Some "Statement"; None]; [Some "12"; Some "34"] ].

End MoreExamples2.

(** The cell is read as a number by [_clean_amount]. *)
Definition has_parsed (w : WorkRow) : bool :=
  match _clean_amount (w_amount_raw w) with Some _ => true | None => false end.

(** The row of the final table made from the working row [w]. *)
Definition carried (w : WorkRow) (row : Row) : Prop :=
  date row = w_date w /\
  description row = Some (w_description w) /\
  txn_type row = Some (w_type w) /\
  exists p a, _clean_amount (w_amount_raw w) = Some p /\
              amount row = Some a /\ Qabs a == Qabs p.

(** The characters that [float] accepts after the sign. *)
Definition digit_or_dot (c : ascii) : bool := PyStr.is_digit c || Ascii.eqb c ".".

(** The characters still to pass after a match of [old] are not in the
    class [p]. *)
Fixpoint passes (p : ascii -> bool) (k : nat) (s : string) : bool :=
  match k, s with
  | O, _ => true
  | S _, EmptyString => true
  | S k', String c s' => negb (p c) && passes p k' s'
  end.

(** The first letter of a month name, in either case. *)
Definition month_initial (c : ascii) : bool :=
  PyStr.contains (String (PyStr.lower_char c) EmptyString) "jfmasond".

(** A continuation of the matcher that only adds matched text in front of
    what it is given and returns the whole through [ret]. *)
Definition extends {A} (ret : string -> A) (k : Regex.cont A) : Prop :=
  forall prev s acc x,
    k prev s acc = Some x -> exists t, x = ret (PyStr.rev_onto t acc).

(** The last continuation of [Regex.match_here]. *)
Definition final_cont : Regex.cont string := fun _ _ acc => Some (PyStr.rev acc).

(** The month names of [DATE_RE]. *)
Definition MONTHS : re :=
  alt_of
    [ month_re "Jan" "uary"; month_re "Feb" "ruary"; month_re "Mar" "ch";
      month_re "Apr" "il"; Lit "May"; month_re "Jun" "e";
      month_re "Jul" "y"; month_re "Aug" "ust";
      Seq (Lit "Sep") (Seq (Lit "t") (Opt (Lit "ember")));
      month_re "Oct" "ober"; month_re "Nov" "ember"; month_re "Dec" "ember" ].

(* ================================================================== *)
(** * utils/categorize.py *)
(* ================================================================== *)

Definition CATEGORIES : list string :=
  ["Food"; "Groceries"; "Travel"; "Transport"; "Bills"; "Entertainment";
   "Shopping"; "Health"; "Subscriptions"; "Investment"; "Salary"; "Others"].

(** [any(x in d for x in words)] *)
Definition any_in (words : list string) (d : string) : bool :=
  existsb (fun x => PyStr.contains x d) words.

(** [_simple_rule(desc)] *)
Definition _simple_rule (desc : string) : option string :=
  let d := PyStr.lower desc in
  if any_in ["uber"; "ola"; "taxi"; "cab"] d then Some "Transport"
  else if any_in ["starbuck"; "cafe"; "restaurant"; "zomato"; "swiggy"] d then Some "Food"
  else if any_in ["supermarket"; "grocery"; "bigbasket"] d then Some "Groceries"
  else if any_in ["flight"; "airline"; "hotel"; "booking"] d then Some "Travel"
  else if any_in ["netflix"; "spotify"; "subscription"] d then Some "Subscriptions"
  else if any_in ["amazon"; "myntra"] d then Some "Shopping"
  else if any_in ["doctor"; "pharmacy"; "clinic"] d then Some "Health"
  else None.

(** [str(r.get("description", ""))] for a row of the frame. *)
Definition description_text (df : DataFrame) (row : Row) : string :=
  if has_description df then str_cell (description row) else "".

(** [categorize_transactions(df)]: the [category] column of the result, one
    entry for each row; the other columns are those of [df]. *)
Definition categorize_transactions (df : DataFrame) : list string :=
  map (fun row => match _simple_rule (description_text df row) with
                  | Some c => c
                  | None => "Others"
                  end) (rows df).

(* ================================================================== *)
(** * utils/auth.py and utils/logger.py *)
(* ================================================================== *)

Module Auth.

(** An entry of [users.json]: the name and the hashed password. *)
Record User := mkUser { username : string; password : string }.

(** The file [data/users.json] on the disk: the directory [data] may be
    missing, or the file in it, or the file holds the list under its key
    "users".  A file that exists is one that this module wrote: it parses
    and has the key. *)
Inductive UsersFile : Type :=
| NoDirectory
| NoFile
| File (users : list User).

(** What [st.session_state] holds under a key: nothing, [None] or a value. *)
Inductive Slot (A : Type) : Type :=
| Absent
| NoneValue
| Value (a : A).
Arguments Absent {A}.
Arguments NoneValue {A}.
Arguments Value {A} a.

(** The keys "logged_in" and "user" of [st.session_state]. *)
Record Session := mkSession { logged_in : Slot bool; user : Slot string }.

(** A call returns, or [open] raises [FileNotFoundError]. *)
Inductive Result (A : Type) : Type :=
| Returned (a : A)
| FileNotFoundError.
Arguments Returned {A} a.
Arguments FileNotFoundError {A}.

Section WithHash.

(** [hashlib.sha256(password.encode("utf-8")).hexdigest()] *)
Variable _hash_password : string -> string.

(** [_load_users()]: the users, and the file, created when it was missing;
    [open(USERS_PATH, "w")] raises when the directory is missing. *)
Definition _load_users (file : UsersFile) : Result (list User * UsersFile) :=
  match file with
  | NoDirectory => FileNotFoundError
  | NoFile => Returned ([], File [])
  | File users => Returned (users, File users)
  end.

Definition name_taken (name : string) (users : list User) : bool :=
  existsb (fun u => String.eqb (username u) name) users.

(** [signup(username, password)]: the pair returned and the file after. *)
Definition signup (name pass : string) (file : UsersFile)
  : Result ((bool * string) * UsersFile) :=
  match _load_users file with
  | FileNotFoundError => FileNotFoundError
  | Returned (users, file1) =>
      if name_taken name users
      then Returned ((false, "Username already exists."), file1)
      else Returned ((true, "User created."),
                     File (users ++ [mkUser name (_hash_password pass)]))
  end.

(** [login(username, password)]: the result, the file and the session. *)
Definition login (name pass : string) (file : UsersFile) (s : Session)
  : Result (bool * UsersFile * Session) :=
  match _load_users file with
  | FileNotFoundError => FileNotFoundError
  | Returned (users, file1) =>
      let hashed := _hash_password pass in
      if existsb (fun u => String.eqb (username u) name
                           && String.eqb (password u) hashed) users
      then Returned (true, file1, mkSession (Value true) (Value name))
      else Returned (false, file1, s)
  end.

(** The users that a call finds in the file, and the answer of [login]. *)
Definition users_of (file : UsersFile) : list User :=
  match file with File users => users | _ => [] end.

Definition answer (r : Result (bool * UsersFile * Session)) : option bool :=
  match r with
  | Returned (b, _, _) => Some b
  | FileNotFoundError => None
  end.

End WithHash.

End Auth.

Module Logger.

(** A row of the CSV file: its fields as text. *)
Definition Line : Type := list string.

Definition header : Line :=
  ["timestamp"; "index"; "date"; "description"; "amount"; "sms_sent"; "sms_info"].

(** [record.get(key, default)] on a record given as key-value pairs. *)
Fixpoint get (record : list (string * string)) (key default : string) : string :=
  match record with
  | [] => default
  | (k, v) :: rest => if String.eqb k key then v else get rest key default
  end.

(** [log_freeze_request(record)]: the log file after the call; [None] is a
    file that does not exist, [now] is [time.strftime(...)]. *)
Definition log_freeze_request (record : list (string * string)) (now : string)
                              (file : option (list Line)) : option (list Line) :=
  let line := [ now; get record "index" ""; get record "date" "";
                get record "description" ""; get record "amount" "";
                get record "sms_sent" "False"; get record "sms_info" "" ] in
  match file with
  | None => Some [header; line]
  | Some lines => Some (lines ++ [line])
  end.

(** A sequence of calls, each with its record and its time. *)
Fixpoint log_all (calls : list (list (string * string) * string))
                 (file : option (list Line)) : option (list Line) :=
  match calls with
  | [] => file
  | (record, now) :: rest => log_all rest (log_freeze_request record now file)
  end.

End Logger.

Module MoreExamples3.

(** A stand-in for the hash of passwords. *)
Definition toy_hash (p : string) : string := ("sha:" ++ PyStr.rev p)%string.

(** A users file with one account. *)
Definition one_user : Auth.UsersFile :=
  Auth.File [Auth.mkUser "asha" (toy_hash "s3cret")].

(** Two requests to log. *)
Definition two_calls : list (list (string * string) * string) :=
  [ ([("index", "4"); ("amount", "-5000.0")], "2025-03-05 10:00:00");
    ([("index", "4"); ("sms_sent", "True")], "2025-03-05 10:01:00") ]%string.

End MoreExamples3.

(* ================================================================== *)
(** * Binary64 arithmetic: rounding *)
(* ================================================================== *)

Import Binary64.

Lemma pow2_pos (e : Z) : 0 < pow2 e.
Proof. apply Qpower_0_lt. reflexivity. Qed.

Lemma pow2_add (a b : Z) : pow2 (a + b) == pow2 a * pow2 b.
Proof. apply Qpower_plus. discriminate. Qed.

Lemma pow2_le (a b : Z) : (a <= b)%Z -> pow2 a <= pow2 b.
Proof. intro H. apply Qpower_le_compat_l; [exact H|discriminate]. Qed.

Lemma pow2_lt (a b : Z) : (a < b)%Z -> pow2 a < pow2 b.
Proof. intro H. apply Qpower_lt_compat_l; [exact H|reflexivity]. Qed.

Lemma pow2_lt_inv (a b : Z) : pow2 a < pow2 b -> (a < b)%Z.
Proof. intro H. apply (Qpower_lt_compat_l_inv 2); [exact H|reflexivity]. Qed.

Lemma pow2_Z (e : Z) : (0 <= e)%Z -> pow2 e == inject_Z (2 ^ e).
Proof. intro H. symmetry. apply (Zpower_Qpower 2 e H). Qed.

Lemma pow2_sub (a b : Z) : pow2 (a - b) * pow2 b == pow2 a.
Proof. rewrite <- pow2_add. replace (a - b + b)%Z with a by ring. reflexivity. Qed.

Lemma ilog2_spec (x : Q) :
  0 < x -> pow2 (ilog2 x) <= x /\ x < pow2 (ilog2 x + 1).
Proof.
  intro Hx. destruct x as [n d].
  assert (Hn : (0 < n)%Z).
  { unfold Qlt in Hx. simpl in Hx. lia. }
  unfold ilog2. cbn [Qnum Qden].
  set (ln := Z.log2 n). set (ld := Z.log2 (Zpos d)).
  assert (Hln : (2 ^ ln <= n < 2 ^ (ln + 1))%Z).
  { unfold ln. pose proof (Z.log2_spec n Hn). rewrite <- Z.add_1_r in H. exact H. }
  assert (Hld : (2 ^ ld <= Zpos d < 2 ^ (ld + 1))%Z).
  { unfold ld. pose proof (Z.log2_spec (Zpos d) eq_refl).
    rewrite <- Z.add_1_r in H. exact H. }
  assert (Hln0 : (0 <= ln)%Z) by apply Z.log2_nonneg.
  assert (Hld0 : (0 <= ld)%Z) by apply Z.log2_nonneg.
  assert (Hx' : n # d == inject_Z n / inject_Z (Zpos d)) by apply Qmake_Qdiv.
  assert (Hd : 0 < inject_Z (Zpos d)) by reflexivity.
  assert (Hlow : pow2 (ln - ld - 1) <= n # d).
  { rewrite Hx'. apply Qle_shift_div_l; [exact Hd|].
    apply Qle_trans with (pow2 (ln - ld - 1) * pow2 (ld + 1)).
    - apply Qmult_le_l; [apply pow2_pos|].
      rewrite pow2_Z by lia. rewrite <- Zle_Qle. lia.
    - rewrite <- pow2_add. replace (ln - ld - 1 + (ld + 1))%Z with ln by ring.
      rewrite pow2_Z by lia. rewrite <- Zle_Qle. lia. }
  assert (Hhigh : n # d < pow2 (ln - ld + 1)).
  { rewrite Hx'. apply Qlt_shift_div_r; [exact Hd|].
    apply Qlt_le_trans with (pow2 (ln - ld + 1) * pow2 ld).
    - rewrite <- pow2_add. replace (ln - ld + 1 + ld)%Z with (ln + 1)%Z by ring.
      rewrite pow2_Z by lia. rewrite <- Zlt_Qlt. lia.
    - apply Qmult_le_l; [apply pow2_pos|].
      rewrite pow2_Z by lia. rewrite <- Zle_Qle. lia. }
  destruct (Qle_bool (pow2 (ln - ld)) (n # d)) eqn:E.
  - apply Qle_bool_iff in E. split; [exact E|exact Hhigh].
  - split; [exact Hlow|].
    replace (ln - ld - 1 + 1)%Z with (ln - ld)%Z by ring.
    apply Qnot_le_lt. intro H. apply Qle_bool_iff in H. congruence.
Qed.

Lemma ilog2_unique (x : Q) (k : Z) :
  pow2 k <= x -> x < pow2 (k + 1) -> ilog2 x = k.
Proof.
  intros H1 H2.
  assert (Hx : 0 < x) by (apply Qlt_le_trans with (pow2 k); [apply pow2_pos|exact H1]).
  destruct (ilog2_spec x Hx) as [H3 H4].
  assert (A : (ilog2 x < k + 1)%Z).
  { apply pow2_lt_inv. apply Qle_lt_trans with x; assumption. }
  assert (B : (k < ilog2 x + 1)%Z).
  { apply pow2_lt_inv. apply Qle_lt_trans with x; assumption. }
  lia.
Qed.

Lemma ilog2_comp (x y : Q) : 0 < x -> x == y -> ilog2 x = ilog2 y.
Proof.
  intros Hx E. destruct (ilog2_spec x Hx) as [H1 H2].
  symmetry. apply ilog2_unique; rewrite <- E; assumption.
Qed.

Lemma ilog2_mono (x y : Q) : 0 < x -> x <= y -> (ilog2 x <= ilog2 y)%Z.
Proof.
  intros Hx Hxy.
  assert (Hy : 0 < y) by (apply Qlt_le_trans with x; assumption).
  destruct (ilog2_spec x Hx) as [H1 _]. destruct (ilog2_spec y Hy) as [_ H4].
  assert (A : (ilog2 x < ilog2 y + 1)%Z).
  { apply pow2_lt_inv. apply Qle_lt_trans with x; [exact H1|].
    apply Qle_lt_trans with y; assumption. }
  lia.
Qed.

(** ** Rounding to the nearest integer *)
Lemma rne_comp (s t : Q) : s == t -> rne s = rne t.
Proof.
  intro E. unfold rne. rewrite (Qfloor_comp _ _ E).
  assert (E' : s - inject_Z (Qfloor t) == t - inject_Z (Qfloor t)) by (rewrite E; reflexivity).
  rewrite (Qcompare_comp _ _ E' (1#2) (1#2) (Qeq_refl _)). reflexivity.
Qed.

Lemma rne_floor (s : Q) : (Qfloor s <= rne s <= Qfloor s + 1)%Z.
Proof.
  unfold rne. destruct (Qcompare _ _); [destruct (Z.even _)| |]; lia.
Qed.

Lemma rne_Z (n : Z) : rne (inject_Z n) = n.
Proof.
  unfold rne. rewrite Qfloor_Z.
  assert (E : inject_Z n - inject_Z n == 0) by ring.
  rewrite (Qcompare_comp _ _ E (1#2) (1#2) (Qeq_refl _)). reflexivity.
Qed.

Lemma rne_mono (s t : Q) : s <= t -> (rne s <= rne t)%Z.
Proof.
  intro H. pose proof (Qfloor_resp_le _ _ H) as Hf.
  pose proof (rne_floor s) as Hs. pose proof (rne_floor t) as Ht.
  destruct (Z.eq_dec (Qfloor s) (Qfloor t)) as [E|NE]; [|lia].
  unfold rne in *. rewrite <- E in *.
  destruct (Qcompare (s - inject_Z (Qfloor s)) (1#2)) eqn:Cs;
  destruct (Qcompare (t - inject_Z (Qfloor s)) (1#2)) eqn:Ct;
  try (destruct (Z.even (Qfloor s))); try lia;
  rewrite <- ?Qeq_alt, <- ?Qlt_alt, <- ?Qgt_alt in Cs;
  rewrite <- ?Qeq_alt, <- ?Qlt_alt, <- ?Qgt_alt in Ct;
  exfalso; lra.
Qed.

Lemma rne_ge (s : Q) (n : Z) : inject_Z n <= s -> (n <= rne s)%Z.
Proof. intro H. rewrite <- (rne_Z n). apply rne_mono. exact H. Qed.

Lemma rne_le (s : Q) (n : Z) : s <= inject_Z n -> (rne s <= n)%Z.
Proof. intro H. rewrite <- (rne_Z n). apply rne_mono. exact H. Qed.

Lemma pow2_inv (e : Z) : / pow2 e == pow2 (- e).
Proof. symmetry. apply Qpower_opp. Qed.

Lemma div_pow2 (x : Q) (e : Z) : x / pow2 e == x * pow2 (- e).
Proof. unfold Qdiv. rewrite pow2_inv. reflexivity. Qed.

Lemma scaled_bounds (x : Q) :
  0 < x ->
  pow2 52 <= x / pow2 (ilog2 x - 52) /\ x / pow2 (ilog2 x - 52) < pow2 53.
Proof.
  intro Hx. destruct (ilog2_spec x Hx) as [H1 H2].
  set (e := (ilog2 x - 52)%Z) in *. assert (He := pow2_pos e).
  split.
  - apply Qle_shift_div_l; [exact He|]. rewrite <- pow2_add.
    replace (52 + e)%Z with (ilog2 x) by (unfold e; ring). exact H1.
  - apply Qlt_shift_div_r; [exact He|]. rewrite <- pow2_add.
    replace (53 + e)%Z with (ilog2 x + 1)%Z by (unfold e; ring). exact H2.
Qed.

Lemma rne_scaled (x : Q) :
  0 < x -> (2 ^ 52 <= rne (x / pow2 (ilog2 x - 52)) <= 2 ^ 53)%Z.
Proof.
  intro Hx. destruct (scaled_bounds x Hx) as [H1 H2]. split.
  - apply rne_ge. rewrite <- pow2_Z by lia. exact H1.
  - apply rne_le. rewrite <- pow2_Z by lia. apply Qlt_le_weak. exact H2.
Qed.

Lemma round_pos_bounds (x : Q) :
  0 < x -> pow2 (ilog2 x) <= round_pos x /\ round_pos x <= pow2 (ilog2 x + 1).
Proof.
  intro Hx. destruct (rne_scaled x Hx) as [H1 H2]. unfold round_pos.
  set (e := (ilog2 x - 52)%Z) in *. assert (He := pow2_pos e).
  set (m := rne (x / pow2 e)) in *.
  replace (ilog2 x) with (52 + e)%Z by (unfold e; ring).
  replace (52 + e + 1)%Z with (53 + e)%Z by ring.
  rewrite !pow2_add. rewrite (pow2_Z 52), (pow2_Z 53) by lia. split.
  - apply Qmult_le_compat_r; [|lra]. rewrite <- Zle_Qle. exact H1.
  - apply Qmult_le_compat_r; [|lra]. rewrite <- Zle_Qle. exact H2.
Qed.

Lemma round_pos_pos (x : Q) : 0 < x -> 0 < round_pos x.
Proof.
  intro Hx. apply Qlt_le_trans with (pow2 (ilog2 x)); [apply pow2_pos|].
  apply round_pos_bounds. exact Hx.
Qed.

Lemma round_pos_comp (x y : Q) : 0 < x -> x == y -> round_pos x == round_pos y.
Proof.
  intros Hx E. unfold round_pos. rewrite <- (ilog2_comp x y Hx E).
  rewrite (rne_comp (x / pow2 (ilog2 x - 52)) (y / pow2 (ilog2 x - 52))).
  - reflexivity.
  - unfold Qdiv. apply Qmult_comp; [exact E|reflexivity].
Qed.

Lemma round_pos_mono (x y : Q) : 0 < x -> x <= y -> round_pos x <= round_pos y.
Proof.
  intros Hx Hxy.
  assert (Hy : 0 < y) by (apply Qlt_le_trans with x; assumption).
  pose proof (ilog2_mono x y Hx Hxy) as Hl.
  destruct (Z.eq_dec (ilog2 x) (ilog2 y)) as [E|NE].
  - unfold round_pos. rewrite <- E.
    set (e := (ilog2 x - 52)%Z). assert (He := pow2_pos e).
    apply Qmult_le_compat_r; [|lra]. rewrite <- Zle_Qle. apply rne_mono.
    apply Qmult_le_compat_r; [exact Hxy|].
    apply Qlt_le_weak. apply Qinv_lt_0_compat. exact He.
  - apply Qle_trans with (pow2 (ilog2 x + 1)); [apply round_pos_bounds; exact Hx|].
    apply Qle_trans with (pow2 (ilog2 y)); [|apply round_pos_bounds; exact Hy].
    apply pow2_le. lia.
Qed.

(** ** Rounding to the format *)
Lemma round64_comp (x y : Q) : x == y -> round64 x = round64 y.
Proof. intro E. unfold round64. rewrite (Qred_complete _ _ E). reflexivity. Qed.

#[global] Instance round64_proper : Proper (Qeq ==> Qeq) round64.
Proof. intros x y E. rewrite (round64_comp x y E). reflexivity. Qed.

Lemma Qnum_pos (x : Q) : 0 < x <-> (0 < Qnum x)%Z.
Proof. unfold Qlt. simpl. rewrite Z.mul_1_r. reflexivity. Qed.

Lemma Qnum_neg (x : Q) : x < 0 <-> (Qnum x < 0)%Z.
Proof. unfold Qlt. simpl. rewrite Z.mul_1_r. reflexivity. Qed.

Lemma Qnum_zero (x : Q) : x == 0 <-> Qnum x = 0%Z.
Proof. unfold Qeq. simpl. rewrite Z.mul_1_r. reflexivity. Qed.

Lemma round64_pos_eq (x : Q) : 0 < x -> round64 x == round_pos x.
Proof.
  intro Hx. unfold round64.
  assert (Hr : 0 < Qred x) by (rewrite Qred_correct; exact Hx).
  pose proof (proj1 (Qnum_pos _) Hr) as Hn.
  destruct (Qnum (Qred x)) eqn:E; try lia.
  rewrite Qred_correct. apply round_pos_comp; [exact Hr|apply Qred_correct].
Qed.

Lemma round64_neg_eq (x : Q) : x < 0 -> round64 x == - round_pos (- x).
Proof.
  intro Hx. unfold round64.
  assert (Hr : Qred x < 0) by (rewrite Qred_correct; exact Hx).
  pose proof (proj1 (Qnum_neg _) Hr) as Hn.
  destruct (Qnum (Qred x)) eqn:E; try lia.
  rewrite Qred_correct. apply Qopp_comp. apply round_pos_comp; [lra|].
  rewrite Qred_correct. reflexivity.
Qed.

Lemma round64_zero_eq (x : Q) : x == 0 -> round64 x = 0.
Proof.
  intro Hx. unfold round64.
  assert (Hr : Qred x == 0) by (rewrite Qred_correct; exact Hx).
  rewrite (proj1 (Qnum_zero _) Hr). reflexivity.
Qed.

Lemma round64_pos (x : Q) : 0 < x -> 0 < round64 x.
Proof. intro H. rewrite (round64_pos_eq x H). apply round_pos_pos. exact H. Qed.

Lemma round64_neg (x : Q) : x < 0 -> round64 x < 0.
Proof.
  intro H. rewrite (round64_neg_eq x H).
  assert (0 < round_pos (- x)) by (apply round_pos_pos; lra). lra.
Qed.

Lemma Q_sign (x : Q) : {x < 0} + {x == 0} + {0 < x}.
Proof.
  destruct (Q_dec x 0) as [[H|H]|H]; auto.
Qed.

Lemma round64_nonneg (x : Q) : 0 <= x -> 0 <= round64 x.
Proof.
  intro H. destruct (Q_sign x) as [[Hn|Hz]|Hp].
  - lra.
  - rewrite (round64_zero_eq x Hz). apply Qle_refl.
  - apply Qlt_le_weak, round64_pos, Hp.
Qed.

Lemma round64_nonpos (x : Q) : x <= 0 -> round64 x <= 0.
Proof.
  intro H. destruct (Q_sign x) as [[Hn|Hz]|Hp].
  - apply Qlt_le_weak, round64_neg, Hn.
  - rewrite (round64_zero_eq x Hz). apply Qle_refl.
  - lra.
Qed.

Lemma round64_pos_inv (x : Q) : 0 < round64 x -> 0 < x.
Proof.
  intro H. destruct (Qlt_le_dec 0 x) as [Hp|Hn]; [exact Hp|].
  pose proof (round64_nonpos x Hn). lra.
Qed.

Lemma round64_neg_inv (x : Q) : round64 x < 0 -> x < 0.
Proof.
  intro H. destruct (Qlt_le_dec x 0) as [Hp|Hn]; [exact Hp|].
  pose proof (round64_nonneg x Hn). lra.
Qed.

Lemma round64_opp (x : Q) : round64 (- x) == - round64 x.
Proof.
  destruct (Q_sign x) as [[Hn|Hz]|Hp].
  - rewrite (round64_neg_eq x Hn), (round64_pos_eq (- x)) by lra. ring.
  - rewrite (round64_zero_eq x Hz), (round64_zero_eq (- x)) by lra. reflexivity.
  - rewrite (round64_pos_eq x Hp), (round64_neg_eq (- x)) by lra.
    apply Qopp_comp. apply round_pos_comp; [lra|ring].
Qed.

Lemma round64_mono (x y : Q) : x <= y -> round64 x <= round64 y.
Proof.
  intro H. destruct (Qlt_le_dec 0 x) as [Hx|Hx].
  - rewrite (round64_pos_eq x Hx), (round64_pos_eq y) by lra.
    apply round_pos_mono; assumption.
  - destruct (Qlt_le_dec y 0) as [Hy|Hy].
    + rewrite (round64_neg_eq x), (round64_neg_eq y Hy) by lra.
      apply Qopp_le_compat. apply round_pos_mono; lra.
    + apply Qle_trans with 0; [apply round64_nonpos|apply round64_nonneg]; assumption.
Qed.

(** ** The numbers of the format *)

Lemma F64_comp (x y : Q) : x == y -> F64 x -> F64 y.
Proof. intros E [m [e [Hm Hx]]]. exists m, e. split; [exact Hm|]. rewrite <- E. exact Hx. Qed.

Lemma F64_0 : F64 0.
Proof. exists 0%Z, 0%Z. split; [reflexivity|]. reflexivity. Qed.

Lemma F64_opp (x : Q) : F64 x -> F64 (- x).
Proof.
  intros [m [e [Hm Hx]]]. exists (- m)%Z, e. split; [lia|].
  rewrite Hx, inject_Z_opp. ring.
Qed.

Lemma F64_scale (x : Q) (k : Z) : F64 x -> F64 (x * pow2 k).
Proof.
  intros [m [e [Hm Hx]]]. exists m, (e + k)%Z. split; [exact Hm|].
  rewrite Hx, pow2_add. ring.
Qed.

Lemma round_pos_F64 (x : Q) : 0 < x -> F64 (round_pos x).
Proof.
  intro Hx. destruct (rne_scaled x Hx) as [H1 H2]. unfold round_pos.
  set (e := (ilog2 x - 52)%Z) in *. set (m := rne (x / pow2 e)) in *.
  destruct (Z.eq_dec m (2 ^ 53)) as [E|NE].
  - exists (2 ^ 52)%Z, (e + 1)%Z. split; [reflexivity|].
    rewrite E, pow2_add. change (pow2 1) with 2.
    change (inject_Z (2 ^ 53)) with (inject_Z (2 ^ 52) * 2). ring.
  - exists m, e. split; [lia|reflexivity].
Qed.

Lemma round64_F64 (x : Q) : F64 (round64 x).
Proof.
  destruct (Q_sign x) as [[Hn|Hz]|Hp].
  - apply (F64_comp (- round_pos (- x))); [symmetry; apply round64_neg_eq; exact Hn|].
    apply F64_opp, round_pos_F64. lra.
  - rewrite (round64_zero_eq x Hz). apply F64_0.
  - apply (F64_comp (round_pos x)); [symmetry; apply round64_pos_eq; exact Hp|].
    apply round_pos_F64. exact Hp.
Qed.

Lemma round_pos_id (m e : Z) :
  (0 < m < 2 ^ 53)%Z -> round_pos (inject_Z m * pow2 e) == inject_Z m * pow2 e.
Proof.
  intros [Hm0 Hm]. set (x := inject_Z m * pow2 e).
  set (lm := Z.log2 m).
  assert (Hlm : (2 ^ lm <= m < 2 ^ (lm + 1))%Z).
  { unfold lm. pose proof (Z.log2_spec m Hm0) as H. rewrite <- Z.add_1_r in H. exact H. }
  assert (Hlm0 : (0 <= lm)%Z) by apply Z.log2_nonneg.
  assert (Hlm52 : (lm < 53)%Z) by (apply Z.log2_lt_pow2; lia).
  assert (Hpe := pow2_pos e).
  assert (Hlog : ilog2 x = (lm + e)%Z).
  { apply ilog2_unique; unfold x.
    - rewrite pow2_add, (pow2_Z lm) by lia.
      apply Qmult_le_compat_r; [|lra]. rewrite <- Zle_Qle. lia.
    - replace (lm + e + 1)%Z with (lm + 1 + e)%Z by ring.
      rewrite pow2_add, (pow2_Z (lm + 1)) by lia.
      apply Qmult_lt_compat_r; [exact Hpe|]. rewrite <- Zlt_Qlt. lia. }
  unfold round_pos. rewrite Hlog.
  set (e' := (lm + e - 52)%Z). assert (Hpe' := pow2_pos e').
  assert (Hs : x / pow2 e' == inject_Z (m * 2 ^ (52 - lm))).
  { rewrite inject_Z_mult, <- (pow2_Z (52 - lm)) by lia. unfold x.
    rewrite div_pow2, <- Qmult_assoc, <- pow2_add.
    replace (e + - e')%Z with (52 - lm)%Z by (unfold e'; ring). reflexivity. }
  rewrite (rne_comp _ _ Hs), rne_Z.
  rewrite inject_Z_mult, <- (pow2_Z (52 - lm)) by lia. unfold x.
  rewrite <- Qmult_assoc, <- pow2_add.
  replace (52 - lm + e')%Z with e by (unfold e'; ring). reflexivity.
Qed.

Lemma Qmult_pos_sign (a p : Q) :
  0 < p -> (0 < a * p <-> 0 < a) /\ (a * p < 0 <-> a < 0).
Proof. intro Hp. split; split; intro H; nra. Qed.

Lemma round64_id (x : Q) : F64 x -> round64 x == x.
Proof.
  intros [m [e [Hm Hx]]]. assert (Hpe := pow2_pos e).
  assert (Hsign : forall y, y == inject_Z m * pow2 e ->
                            (0 < y <-> (0 < m)%Z) /\ (y < 0 <-> (m < 0)%Z)).
  { intros y Hy. rewrite Hy.
    destruct (Qmult_pos_sign (inject_Z m) (pow2 e) Hpe) as [A B].
    rewrite A, B. change 0 with (inject_Z 0). rewrite <- !Zlt_Qlt. tauto. }
  destruct (Q_sign x) as [[Hn|Hz]|Hp].
  - rewrite (round64_neg_eq x Hn).
    assert (Hm' : (m < 0)%Z) by (apply (Hsign x Hx); exact Hn).
    assert (E : - x == inject_Z (- m) * pow2 e) by (rewrite Hx, inject_Z_opp; ring).
    assert (Hnx : 0 < - x) by lra.
    rewrite (round_pos_comp _ _ Hnx E), round_pos_id by lia.
    rewrite <- E. ring.
  - rewrite (round64_zero_eq x Hz). symmetry. exact Hz.
  - rewrite (round64_pos_eq x Hp).
    assert (Hm' : (0 < m)%Z) by (apply (Hsign x Hx); exact Hp).
    rewrite (round_pos_comp _ _ Hp Hx), round_pos_id by lia.
    symmetry. exact Hx.
Qed.

Lemma round64_idem (x : Q) : round64 (round64 x) == round64 x.
Proof. apply round64_id, round64_F64. Qed.

(** Sterbenz: the difference of two nearby numbers is representable. *)
Lemma sterbenz (a b : Q) :
  F64 a -> F64 b -> 0 <= b -> b <= 2 * a -> a <= 2 * b -> F64 (a - b).
Proof.
  intros [ma [ea [Hma Ha]]] [mb [eb [Hmb Hb]]] Hb0 H1 H2.
  assert (Hpa := pow2_pos ea). assert (Hpb := pow2_pos eb).
  destruct (Z_le_gt_dec ea eb) as [Hle|Hgt].
  - (* exponent of a is the smaller one *)
    set (M := (ma - mb * 2 ^ (eb - ea))%Z).
    assert (E : a - b == inject_Z M * pow2 ea).
    { unfold M. rewrite Ha, Hb. unfold Zminus at 1.
      rewrite inject_Z_plus, inject_Z_opp, inject_Z_mult, <- pow2_Z by lia.
      rewrite <- (pow2_sub eb ea). ring. }
    exists M, ea. split; [|exact E].
    assert (Habs : Qabs (a - b) <= a).
    { apply Qabs_case; intro; lra. }
    assert (Hq : inject_Z (Z.abs M) * pow2 ea <= inject_Z ma * pow2 ea).
    { rewrite <- Ha. apply Qle_trans with (Qabs (a - b)); [|exact Habs].
      rewrite E, Qabs_Qmult, (Qabs_pos (pow2 ea)) by lra.
      change (Qabs (inject_Z M)) with (inject_Z (Z.abs M)). apply Qle_refl. }
    assert (Hz : (Z.abs M <= ma)%Z).
    { rewrite Zle_Qle. apply Qmult_le_r with (pow2 ea); assumption. }
    lia.
  - set (M := (ma * 2 ^ (ea - eb) - mb)%Z).
    assert (E : a - b == inject_Z M * pow2 eb).
    { unfold M. rewrite Ha, Hb. unfold Zminus at 1.
      rewrite inject_Z_plus, inject_Z_opp, inject_Z_mult, <- pow2_Z by lia.
      rewrite <- (pow2_sub ea eb). ring. }
    exists M, eb. split; [|exact E].
    assert (Habs : Qabs (a - b) <= b).
    { apply Qabs_case; intro; lra. }
    assert (Hq : inject_Z (Z.abs M) * pow2 eb <= inject_Z mb * pow2 eb).
    { rewrite <- Hb. apply Qle_trans with (Qabs (a - b)); [|exact Habs].
      rewrite E, Qabs_Qmult, (Qabs_pos (pow2 eb)) by lra.
      change (Qabs (inject_Z M)) with (inject_Z (Z.abs M)). apply Qle_refl. }
    assert (Hz : (Z.abs M <= mb)%Z).
    { rewrite Zle_Qle. apply Qmult_le_r with (pow2 eb); assumption. }
    lia.
Qed.

(* ================================================================== *)
(** * Binary64 arithmetic: the signs of sums *)
(* ================================================================== *)

Lemma blocks_S (fuel : nat) (r l : list Q) :
  Numpy.blocks (S fuel) r l =
  if (8 <=? List.length l)%nat
  then Numpy.blocks fuel (Numpy.zip_add r (firstn 8 l)) (skipn 8 l) else (r, l).
Proof. reflexivity. Qed.

Lemma pairwise_sum_O (l : list Q) :
  Numpy.pairwise_sum O l =
  if (List.length l <? 8)%nat then Numpy.add_loop 0 l
  else if (List.length l <=? 128)%nat then Numpy.block_sum l else 0.
Proof. reflexivity. Qed.

Lemma pairwise_sum_S (fuel : nat) (l : list Q) :
  Numpy.pairwise_sum (S fuel) l =
  if (List.length l <? 8)%nat then Numpy.add_loop 0 l
  else if (List.length l <=? 128)%nat then Numpy.block_sum l
  else
    let n2 := (List.length l / 2 - (List.length l / 2) mod 8)%nat in
    fadd (Numpy.pairwise_sum fuel (firstn n2 l)) (Numpy.pairwise_sum fuel (skipn n2 l)).
Proof. reflexivity. Qed.

(** Closure of the sums under a property of the summands. *)
Section Closed.
Variable P : Q -> Prop.
Hypothesis P0 : P 0.
Hypothesis Padd : forall a b, P a -> P b -> P (fadd a b).

Lemma add_loop_closed (l : list Q) :
  forall acc, P acc -> Forall P l -> P (Numpy.add_loop acc l).
Proof.
  induction l as [|x l IH]; intros acc Ha Hl; [exact Ha|].
  inversion Hl; subst. apply IH; [apply Padd|]; assumption.
Qed.

Lemma Forall_firstn_skipn {A} (Q0 : A -> Prop) (n : nat) (l : list A) :
  Forall Q0 l -> Forall Q0 (firstn n l) /\ Forall Q0 (skipn n l).
Proof.
  intro H. rewrite <- (firstn_skipn n l) in H. apply Forall_app in H. exact H.
Qed.

Lemma zip_add_closed (r : list Q) :
  forall l, Forall P r -> Forall P l -> Forall P (Numpy.zip_add r l).
Proof.
  induction r as [|x r IH]; intros l Hr Hl; [constructor|].
  destruct l as [|y l]; [exact Hr|].
  inversion Hr; inversion Hl; subst. simpl. constructor; [apply Padd|apply IH]; assumption.
Qed.

Lemma blocks_closed (fuel : nat) :
  forall r l, Forall P r -> Forall P l ->
              Forall P (fst (Numpy.blocks fuel r l)) /\ Forall P (snd (Numpy.blocks fuel r l)).
Proof.
  induction fuel as [|fuel IH]; intros r l Hr Hl; [simpl; auto|].
  rewrite blocks_S. destruct (8 <=? List.length l)%nat; [|simpl; auto].
  destruct (Forall_firstn_skipn P 8 l Hl) as [H1 H2].
  apply IH; [apply zip_add_closed|]; assumption.
Qed.

Lemma block_sum_closed (l : list Q) : Forall P l -> P (Numpy.block_sum l).
Proof.
  intro Hl. unfold Numpy.block_sum.
  destruct (Forall_firstn_skipn P 8 l Hl) as [H1 H2].
  destruct (blocks_closed (List.length l) _ _ H1 H2) as [Hr Hrest].
  destruct (Numpy.blocks (List.length l) (firstn 8 l) (skipn 8 l)) as [r rest].
  simpl in Hr, Hrest.
  destruct r as [|r0 [|r1 [|r2 [|r3 [|r4 [|r5 [|r6 [|r7 [|r8 r]]]]]]]]]; try exact P0.
  repeat match goal with H : Forall P (_ :: _) |- _ => inversion H; clear H; subst end.
  apply add_loop_closed; [|exact Hrest]. repeat apply Padd; assumption.
Qed.

Lemma pairwise_sum_closed (fuel : nat) :
  forall l, Forall P l -> P (Numpy.pairwise_sum fuel l).
Proof.
  induction fuel as [|fuel IH]; intros l Hl.
  - rewrite pairwise_sum_O.
    destruct (List.length l <? 8)%nat; [apply add_loop_closed; auto|].
    destruct (List.length l <=? 128)%nat; [apply block_sum_closed; auto|exact P0].
  - rewrite pairwise_sum_S.
    destruct (List.length l <? 8)%nat; [apply add_loop_closed; auto|].
    destruct (List.length l <=? 128)%nat; [apply block_sum_closed; auto|].
    cbv zeta.
    match goal with |- context [firstn ?n l] =>
      destruct (Forall_firstn_skipn P n l Hl) as [H1 H2] end.
    apply Padd; apply IH; assumption.
Qed.

Lemma numpy_sum_closed (l : list Q) : Forall P l -> P (Numpy.sum l).
Proof. apply pairwise_sum_closed. Qed.

End Closed.

Section Strict.
Variables P Pos : Q -> Prop.
Hypothesis P0 : P 0.
Hypothesis SP : forall a, Pos a -> P a.
Hypothesis Padd : forall a b, P a -> P b -> P (fadd a b).
Hypothesis Sl : forall a b, Pos a -> P b -> Pos (fadd a b).
Hypothesis Sr : forall a b, P a -> Pos b -> Pos (fadd a b).

Lemma add_loop_strict (l : list Q) :
  forall acc, P acc -> Forall P l -> Pos acc \/ Exists Pos l -> Pos (Numpy.add_loop acc l).
Proof.
  induction l as [|x l IH]; intros acc Ha Hl H.
  - destruct H as [H|H]; [exact H|inversion H].
  - inversion Hl; subst. simpl. apply IH; [apply Padd; assumption|assumption|].
    destruct H as [H|H]; [left; apply Sl; assumption|].
    inversion H; subst; [left; apply Sr; assumption|right; assumption].
Qed.

Lemma Exists_firstn_skipn {A} (Q0 : A -> Prop) (n : nat) (l : list A) :
  Exists Q0 l -> Exists Q0 (firstn n l) \/ Exists Q0 (skipn n l).
Proof.
  intro H. rewrite <- (firstn_skipn n l) in H. apply Exists_app in H. exact H.
Qed.

Lemma zip_add_length (r : list Q) : forall l, List.length (Numpy.zip_add r l) = List.length r.
Proof.
  induction r as [|x r IH]; intros [|y l]; simpl; auto.
Qed.

Lemma zip_add_strict (r : list Q) :
  forall l, List.length l = List.length r -> Forall P r -> Forall P l ->
            Exists Pos r \/ Exists Pos l -> Exists Pos (Numpy.zip_add r l).
Proof.
  induction r as [|x r IH]; intros [|y l] Hlen Hr Hl H; simpl in *; try discriminate.
  - destruct H as [H|H]; inversion H.
  - inversion Hr; inversion Hl; subst.
    destruct H as [H|H]; inversion H; subst.
    + left. apply Sl; assumption.
    + right. apply IH; auto.
    + left. apply Sr; assumption.
    + right. apply IH; auto.
Qed.

Lemma blocks_length (fuel : nat) :
  forall r l, List.length (fst (Numpy.blocks fuel r l)) = List.length r.
Proof.
  induction fuel as [|fuel IH]; intros r l; [reflexivity|].
  rewrite blocks_S. destruct (8 <=? List.length l)%nat; [|reflexivity].
  rewrite IH. apply zip_add_length.
Qed.

Lemma blocks_strict (fuel : nat) :
  forall r l, List.length r = 8%nat -> Forall P r -> Forall P l ->
              Exists Pos r \/ Exists Pos l ->
              Exists Pos (fst (Numpy.blocks fuel r l)) \/ Exists Pos (snd (Numpy.blocks fuel r l)).
Proof.
  induction fuel as [|fuel IH]; intros r l Hlen Hr Hl H; [exact H|].
  rewrite blocks_S. destruct (8 <=? List.length l)%nat eqn:E; [|exact H].
  apply Nat.leb_le in E.
  destruct (Forall_firstn_skipn P 8 l Hl) as [H1 H2].
  assert (Hf : List.length (firstn 8 l) = 8%nat) by (rewrite length_firstn; lia).
  apply IH.
  - rewrite zip_add_length. exact Hlen.
  - apply zip_add_closed; assumption.
  - exact H2.
  - destruct H as [H|H].
    + left. apply zip_add_strict; auto. congruence.
    + apply (Exists_firstn_skipn Pos 8) in H. destruct H as [H|H]; [|right; exact H].
      left. apply zip_add_strict; auto. congruence.
Qed.

Lemma block_sum_strict (l : list Q) :
  (8 <= List.length l)%nat -> Forall P l -> Exists Pos l -> Pos (Numpy.block_sum l).
Proof.
  intros Hlen Hl H. unfold Numpy.block_sum.
  destruct (Forall_firstn_skipn P 8 l Hl) as [H1 H2].
  assert (Hf : List.length (firstn 8 l) = 8%nat) by (rewrite length_firstn; lia).
  pose proof (blocks_length (List.length l) (firstn 8 l) (skipn 8 l)) as Hbl.
  rewrite Hf in Hbl.
  destruct (blocks_closed P Padd (List.length l) _ _ H1 H2) as [Hr Hrest].
  pose proof (blocks_strict (List.length l) _ _ Hf H1 H2
                (Exists_firstn_skipn Pos 8 l H)) as Hs.
  destruct (Numpy.blocks (List.length l) (firstn 8 l) (skipn 8 l)) as [r rest].
  cbn [fst snd] in Hr, Hrest, Hbl, Hs.
  destruct r as [|r0 [|r1 [|r2 [|r3 [|r4 [|r5 [|r6 [|r7 [|r8 r]]]]]]]]];
    try discriminate.
  repeat match goal with H : Forall P (_ :: _) |- _ => inversion H; clear H; subst end.
  apply add_loop_strict; [repeat apply Padd; assumption|exact Hrest|].
  destruct Hs as [Hs|Hs]; [left|right; exact Hs].
  repeat match goal with
         | H : Exists Pos (_ :: _) |- _ => inversion H; clear H; subst
         | H : Exists Pos [] |- _ => inversion H
         end;
    auto 12.
Qed.

Lemma pairwise_sum_strict (fuel : nat) :
  forall l, (List.length l <= fuel)%nat -> Forall P l -> Exists Pos l ->
            Pos (Numpy.pairwise_sum fuel l).
Proof.
  induction fuel as [|fuel IH]; intros l Hfuel Hl H.
  - destruct l; [inversion H|simpl in Hfuel; lia].
  - rewrite pairwise_sum_S. destruct (List.length l <? 8)%nat eqn:E8.
    + apply add_loop_strict; auto.
    + apply Nat.ltb_ge in E8.
      destruct (List.length l <=? 128)%nat eqn:E128.
      * apply block_sum_strict; assumption.
      * apply Nat.leb_gt in E128.
        cbv zeta. set (n := List.length l) in *.
        set (n2 := (n / 2 - (n / 2) mod 8)%nat).
        pose proof (Nat.div_mod_eq n 2) as Hdiv.
        assert (Hrem : (n mod 2 < 2)%nat) by (apply Nat.mod_upper_bound; lia).
        assert (Hmod : ((n / 2) mod 8 < 8)%nat) by (apply Nat.mod_upper_bound; lia).
        assert (Hn2 : (0 < n2 < n)%nat) by (unfold n2; lia).
        destruct (Forall_firstn_skipn P n2 l Hl) as [H1 H2].
        assert (L1 : (List.length (firstn n2 l) <= fuel)%nat).
        { rewrite length_firstn. fold n. lia. }
        assert (L2 : (List.length (skipn n2 l) <= fuel)%nat).
        { rewrite length_skipn. fold n. lia. }
        destruct (Exists_firstn_skipn Pos n2 l H) as [Hs|Hs].
        -- apply Sl; [apply IH; assumption|].
           apply pairwise_sum_closed; assumption.
        -- apply Sr; [|apply IH; assumption].
           apply pairwise_sum_closed; assumption.
Qed.

Lemma numpy_sum_strict (l : list Q) : Forall P l -> Exists Pos l -> Pos (Numpy.sum l).
Proof. apply pairwise_sum_strict. apply Nat.le_refl. Qed.

End Strict.

(** Signs of rounded sums. *)
Lemma fadd_nonneg (a b : Q) : 0 <= a -> 0 <= b -> 0 <= fadd a b.
Proof. intros. apply round64_nonneg. lra. Qed.

Lemma fadd_nonpos (a b : Q) : a <= 0 -> b <= 0 -> fadd a b <= 0.
Proof. intros. apply round64_nonpos. lra. Qed.

Lemma fadd_pos_l (a b : Q) : 0 < a -> 0 <= b -> 0 < fadd a b.
Proof. intros. apply round64_pos. lra. Qed.

Lemma fadd_pos_r (a b : Q) : 0 <= a -> 0 < b -> 0 < fadd a b.
Proof. intros. apply round64_pos. lra. Qed.

Lemma numpy_sum_nonneg (l : list Q) : Forall (fun x => 0 <= x) l -> 0 <= Numpy.sum l.
Proof. apply (numpy_sum_closed (fun x => 0 <= x)); [apply Qle_refl|apply fadd_nonneg]. Qed.

Lemma numpy_sum_nonpos (l : list Q) : Forall (fun x => x <= 0) l -> Numpy.sum l <= 0.
Proof. apply (numpy_sum_closed (fun x => x <= 0)); [apply Qle_refl|apply fadd_nonpos]. Qed.

Lemma numpy_sum_pos (l : list Q) :
  Forall (fun x => 0 <= x) l -> Exists (fun x => 0 < x) l -> 0 < Numpy.sum l.
Proof.
  apply (numpy_sum_strict (fun x => 0 <= x) (fun x => 0 < x)).
  - apply Qle_refl.
  - apply fadd_nonneg.
  - apply fadd_pos_l.
  - apply fadd_pos_r.
Qed.

Lemma F64_halved (x : Q) : F64 x -> F64 (x * (1 # 2)).
Proof. intro H. apply (F64_scale x (-1) H). Qed.

Lemma F64_doubled (x : Q) : F64 x -> F64 (2 * x).
Proof.
  intro H. apply (F64_comp (x * pow2 1)); [|apply F64_scale; exact H].
  change (pow2 1) with 2. ring.
Qed.

Lemma round64_le_F64 (x b : Q) : F64 b -> x <= b -> round64 x <= b.
Proof.
  intros Fb H. rewrite <- (round64_id b Fb). apply round64_mono. exact H.
Qed.

Lemma round64_ge_F64 (x b : Q) : F64 b -> b <= x -> b <= round64 x.
Proof.
  intros Fb H. rewrite <- (round64_id b Fb). apply round64_mono. exact H.
Qed.

Definition kahan_ok (st : Q * Q) : Prop :=
  0 <= fst st /\ 2 * snd st <= fst st /\ F64 (fst st) /\ F64 (snd st).

Lemma kahan_step_ok (st : Q * Q) (x : Q) :
  kahan_ok st -> 0 <= x ->
  kahan_ok (kahan_step st x) /\
  (0 < fst st \/ 0 < x -> 0 < fst (kahan_step st x)).
Proof.
  destruct st as [s c]. intros [Hs [Hc [Fs Fc]]] Hx. cbn [fst snd] in *.
  unfold kahan_step, kahan_ok, fsub, fadd. cbn [fst snd].
  set (y := round64 (x - c)). set (t := round64 (s + y)).
  set (d := round64 (t - s)).
  assert (Fy : F64 y) by apply round64_F64.
  assert (Ft : F64 t) by apply round64_F64.
  assert (Hy : - (s * (1 # 2)) <= y).
  { apply round64_ge_F64; [apply F64_opp, F64_halved, Fs|lra]. }
  assert (Ht : s * (1 # 2) <= t).
  { apply round64_ge_F64; [apply F64_halved, Fs|lra]. }
  assert (Hd : d - y <= t * (1 # 2)).
  { destruct (Qlt_le_dec y 0) as [Hneg|Hpos].
    - assert (Hts : t <= s) by (apply round64_le_F64; [exact Fs|lra]).
      assert (Fd : F64 (t - s)) by (apply sterbenz; auto; lra).
      unfold d. rewrite (round64_id _ Fd). lra.
    - assert (Hts : s <= t) by (apply round64_ge_F64; [exact Fs|lra]).
      destruct (Qlt_le_dec s y) as [Hsy|Hys].
      + assert (Hdt : d <= t) by (apply round64_le_F64; [exact Ft|lra]).
        assert (Hty : t <= 2 * y).
        { apply round64_le_F64; [apply F64_doubled, Fy|lra]. }
        lra.
      + assert (Hty : t <= 2 * s).
        { apply round64_le_F64; [apply F64_doubled, Fs|lra]. }
        assert (Fd : F64 (t - s)) by (apply sterbenz; auto; lra).
        unfold d. rewrite (round64_id _ Fd). lra. }
  split.
  - split; [lra|]. split; [|split; [exact Ft|apply round64_F64]].
    assert (Hc' : round64 (d - y) <= t * (1 # 2)).
    { apply round64_le_F64; [apply F64_halved, Ft|exact Hd]. }
    lra.
  - intros [Hps|Hpx]; [lra|].
    destruct (Qlt_le_dec 0 s) as [Hps|Hzs]; [lra|].
    assert (Hyp : 0 < y) by (apply round64_pos; lra).
    apply round64_pos. lra.
Qed.

Lemma kahan_fold_ok (vals : list Q) :
  forall st,
    kahan_ok st -> Forall (fun x => 0 <= x) vals ->
    kahan_ok (fold_left kahan_step vals st) /\
    (0 < fst st \/ Exists (fun x => 0 < x) vals ->
     0 < fst (fold_left kahan_step vals st)).
Proof.
  induction vals as [|x vals IH]; intros st Hok Hall.
  - split; [exact Hok|]. intros [H|H]; [exact H|inversion H].
  - inversion Hall; subst.
    destruct (kahan_step_ok st x Hok H1) as [Hok' Hpos].
    destruct (IH _ Hok' H2) as [Hfin Hfpos].
    split; [exact Hfin|]. intro H. apply Hfpos.
    destruct H as [H|H]; [left; apply Hpos; left; exact H|].
    inversion H; subst; [left; apply Hpos; right; assumption|right; assumption].
Qed.

Lemma kahan_start : kahan_ok (0, 0).
Proof.
  unfold kahan_ok. cbn [fst snd].
  split; [apply Qle_refl|]. split; [discriminate|]. split; apply F64_0.
Qed.

Lemma group_sum_nonneg (vals : list Q) :
  Forall (fun x => 0 <= x) vals -> 0 <= group_sum vals.
Proof. intro H. apply (kahan_fold_ok vals (0, 0) kahan_start H). Qed.

Lemma group_sum_pos (vals : list Q) :
  Forall (fun x => 0 <= x) vals -> Exists (fun x => 0 < x) vals -> 0 < group_sum vals.
Proof.
  intros H E. apply (kahan_fold_ok vals (0, 0) kahan_start H). right. exact E.
Qed.

Lemma kahan_step_opp (s c x s' c' x' : Q) :
  s' == - s -> c' == - c -> x' == - x ->
  fst (kahan_step (s', c') x') == - fst (kahan_step (s, c) x) /\
  snd (kahan_step (s', c') x') == - snd (kahan_step (s, c) x).
Proof.
  intros Hs Hc Hx. unfold kahan_step, fsub, fadd. cbn [fst snd].
  assert (Ey : round64 (x' - c') == - round64 (x - c)).
  { rewrite (round64_comp (x' - c') (- (x - c))) by (rewrite Hx, Hc; ring).
    apply round64_opp. }
  assert (Et : round64 (s' + round64 (x' - c'))
               == - round64 (s + round64 (x - c))).
  { rewrite (round64_comp _ (- (s + round64 (x - c)))) by (rewrite Hs, Ey; ring).
    apply round64_opp. }
  split; [exact Et|].
  assert (Ed : round64 (round64 (s' + round64 (x' - c')) - s')
               == - round64 (round64 (s + round64 (x - c)) - s)).
  { rewrite (round64_comp _ (- (round64 (s + round64 (x - c)) - s)))
      by (rewrite Et, Hs; ring).
    apply round64_opp. }
  rewrite (round64_comp _ (- (round64 (round64 (s + round64 (x - c)) - s)
                              - round64 (x - c)))) by (rewrite Ed, Ey; ring).
  apply round64_opp.
Qed.

Lemma kahan_fold_opp (l l' : list Q) :
  Forall2 (fun a b => b == - a) l l' ->
  forall s c s' c',
    s' == - s -> c' == - c ->
    fst (fold_left kahan_step l' (s', c')) == - fst (fold_left kahan_step l (s, c)).
Proof.
  induction 1 as [|a b l l' Hab Hall IH]; intros s c s' c' Hs Hc.
  - exact Hs.
  - cbn [fold_left].
    destruct (kahan_step_opp s c a s' c' b Hs Hc Hab) as [E1 E2].
    destruct (kahan_step (s, c) a) as [s1 c1].
    destruct (kahan_step (s', c') b) as [s1' c1'].
    apply IH; assumption.
Qed.

Lemma group_sum_nonpos (vals : list Q) :
  Forall (fun x => x <= 0) vals -> group_sum vals <= 0.
Proof.
  intro H.
  assert (H2 : Forall2 (fun a b => b == - a) (map Qopp vals) vals).
  { clear H. induction vals as [|x vals IH]; constructor; [ring|exact IH]. }
  assert (Hn : 0 <= group_sum (map Qopp vals)).
  { apply group_sum_nonneg. apply Forall_map.
    apply Forall_impl with (2 := H). intros x Hx. lra. }
  unfold group_sum in *.
  rewrite (kahan_fold_opp _ _ H2 0 0 0 0) by reflexivity. lra.
Qed.

(* ================================================================== *)
(** * Basic facts *)
(* ================================================================== *)

Lemma Qltb_lt (x y : Q) : Qltb x y = true <-> x < y.
Proof.
  unfold Qltb. rewrite negb_true_iff. split; intro H.
  - apply Qnot_le_lt. intro Hle. apply Qle_bool_iff in Hle. congruence.
  - destruct (Qle_bool y x) eqn:E; [|reflexivity].
    apply Qle_bool_iff in E. exfalso. exact (Qlt_not_le _ _ H E).
Qed.

Lemma Qleb_le (x y : Q) : Qleb x y = true <-> x <= y.
Proof. apply Qle_bool_iff. Qed.

Lemma in_when (b : bool) (r x : Reason) : In x (when b r) <-> b = true /\ x = r.
Proof.
  destruct b; simpl; split; intro H.
  - destruct H as [H|[]]. auto.
  - left. symmetry. apply H.
  - destruct H.
  - destruct H. discriminate.
Qed.

(** Each heuristic adds its own code, so a code is among the reasons of a
    row exactly when its test succeeds. *)
Section RowReasons.
Variables (df : DataFrame) (ctx : Context) (thr z : Q) (row : Row).

Lemma fires_unaffordable :
  fires unaffordable df ctx thr z row <->
  unaffordable_check thr (monthly_income ctx) (amount row) = true.
Proof.
  unfold fires, row_reasons. rewrite !in_app_iff, !in_when.
  intuition congruence.
Qed.

Lemma fires_anomalous_amount :
  fires anomalous_amount df ctx thr z row <->
  is_outlier (mean_amt ctx) (std_amt ctx) z (amount row) = true.
Proof.
  unfold fires, row_reasons. rewrite !in_app_iff, !in_when.
  intuition congruence.
Qed.

Lemma fires_new_payee :
  fires new_payee df ctx thr z row <->
  new_payee_check df ctx (row_payee df row) (amount row) = true.
Proof.
  unfold fires, row_reasons. rewrite !in_app_iff, !in_when.
  intuition congruence.
Qed.

Lemma fires_freq_small_trans :
  fires freq_small_trans df ctx thr z row <-> burst df (row_payee df row) = true.
Proof.
  unfold fires, row_reasons. rewrite !in_app_iff, !in_when.
  intuition congruence.
Qed.

(** No code is added twice. *)
Lemma row_reasons_once (r : Reason) :
  (occurrences r (row_reasons df ctx thr z row) <= 1)%nat.
Proof.
  unfold occurrences, row_reasons.
  destruct (unaffordable_check _ _ _), (is_outlier _ _ _ _),
           (new_payee_check _ _ _ _), (burst _ _), r; simpl; lia.
Qed.

End RowReasons.

(* ================================================================== *)
(** * The amount parser *)
(* ================================================================== *)

(** The dot of an abbreviation such as "Rs." is a character of the class
    that [_clean_amount] keeps, so it stays in front of the number. *)
Lemma clean_amount_keeps_abbreviation_dot :
  PyStr.keep amount_char "Rs. -500" = ".-500" /\
  PyStr.float ".-500" = None.
Proof. split; reflexivity. Qed.

(** Without the dot the same amount is read. *)
Lemma clean_amount_rs_without_dot :
  parsed_as (_clean_amount (Some "Rs -500")) (-500).
Proof. reflexivity. Qed.

(** C1: [_clean_amount] reads the rupee amount with a thousands separator
    as 1234.50 and gives no amount for the empty text and for "--"; for
    "Rs. -500" it gives no amount either, where the specification expects
    -500.0. *)
Theorem clean_amount_examples :
  parsed_as (_clean_amount (Some (rupee ++ "1,234.50")%string)) 1234.5 /\
  _clean_amount (Some "Rs. -500") = None /\
  _clean_amount (Some "") = None /\
  _clean_amount (Some "--") = None.
Proof. repeat split; vm_compute; reflexivity. Qed.

(* ================================================================== *)
(** * The scan: empty frames and missing columns *)
(* ================================================================== *)

(** C8: the scan of a frame without rows returns no flag and does not
    raise; the scan of a frame that is not empty and has no amount column
    raises [ValueError]; the scan of a frame whose amounts are all missing
    returns no flag. *)
Theorem scan_empty_missing_null :
  (forall df thr z k,
      rows df = [] ->
      detect_suspicious_transactions (Some df) thr z k = Flags []) /\
  (forall df thr z k,
      df_empty df = false -> has_amount df = false ->
      detect_suspicious_transactions (Some df) thr z k
      = ValueError "DataFrame must have 'amount' column") /\
  (forall df thr z k,
      has_amount df = true ->
      (forall r, In r (rows df) -> amount r = None) ->
      detect_suspicious_transactions (Some df) thr z k = Flags []).
Proof.
  split; [|split].
  - intros df thr z k Hrows. unfold detect_suspicious_transactions, df_empty.
    rewrite Hrows. reflexivity.
  - intros df thr z k Hne Hamt. unfold detect_suspicious_transactions.
    rewrite Hne, Hamt. reflexivity.
  - intros df thr z k Hamt Hnull. unfold detect_suspicious_transactions.
    destruct (df_empty df); [reflexivity|]. rewrite Hamt. simpl.
    assert (Hdrop : dropna (map amount (rows df)) = []).
    { induction (rows df) as [|r rs IH]; [reflexivity|].
      simpl. rewrite (Hnull r (or_introl eq_refl)).
      apply IH. intros r' Hin. apply Hnull. right. exact Hin. }
    rewrite Hdrop. reflexivity.
Qed.

Lemma scan_empty_missing_null_witness :
  detect_suspicious_transactions (Some (table [])) 0.5 3 6 = Flags [] /\
  detect_suspicious_transactions (Some Examples.no_amount_column) 0.5 3 6
  = ValueError "DataFrame must have 'amount' column" /\
  detect_suspicious_transactions (Some Examples.all_null) 0.5 3 6 = Flags [].
Proof.
  destruct scan_empty_missing_null as [Hempty [Hmissing Hnull]].
  split; [|split].
  - apply Hempty. reflexivity.
  - apply Hmissing; reflexivity.
  - apply Hnull; [reflexivity|].
    intros r Hin. simpl in Hin.
    destruct Hin as [<-|[<-|[]]]; reflexivity.
Defined.

(** C10: the scan tests the frame for emptiness before it looks for the
    amount column: every empty frame, with or without an amount column,
    gives the empty result, and [ValueError] is raised for frames that are
    not empty only. *)
Theorem emptiness_checked_first :
  (forall df thr z k,
      df_empty df = true ->
      detect_suspicious_transactions (Some df) thr z k = Flags []) /\
  (forall df thr z k msg,
      detect_suspicious_transactions df thr z k = ValueError msg ->
      exists d, df = Some d /\ df_empty d = false /\ has_amount d = false) /\
  (has_amount Examples.empty_no_amount = false /\
   detect_suspicious_transactions (Some Examples.empty_no_amount) 0.5 3 6 = Flags []).
Proof.
  split; [|split].
  - intros df thr z k He. unfold detect_suspicious_transactions.
    rewrite He. reflexivity.
  - intros [d|] thr z k msg H; [|discriminate].
    exists d. split; [reflexivity|].
    unfold detect_suspicious_transactions in H.
    destruct (df_empty d); [discriminate|].
    destruct (has_amount d); [|auto]. simpl in H.
    destruct (is_nil _); discriminate.
  - split; reflexivity.
Qed.

Lemma emptiness_checked_first_witness :
  detect_suspicious_transactions (Some Examples.empty_no_amount) 0.5 3 6 = Flags [] /\
  (exists d, Some Examples.no_amount_column = Some d /\
             df_empty d = false /\ has_amount d = false).
Proof.
  destruct emptiness_checked_first as [Hempty [Hraise _]].
  split.
  - apply Hempty. reflexivity.
  - apply (Hraise _ 0.5 3 6%Z "DataFrame must have 'amount' column").
    reflexivity.
Defined.

(* ================================================================== *)
(** * The scan: the unaffordable heuristic *)
(* ================================================================== *)

(** The product of the source is a product of floats: with the float
    nearest to 0.57 as threshold and an income of 100 it is
    56.99999999999999, so a debit of 57 is unaffordable; with the float
    nearest to 0.3 it is 30, so a debit of 30 is not, although that float
    times 100 is less than 30. *)
Lemma unaffordable_product_is_rounded :
  unaffordable_check (round64 0.57) 100 (Some (-57)) = true /\
  unaffordable_check (round64 0.3) 100 (Some (-30)) = false /\
  round64 0.3 * 100 < 30.
Proof. repeat split; vm_compute; reflexivity. Qed.

(** C4: the unaffordable heuristic fires on a row exactly when its amount
    is negative, the income estimate is positive and the size of the amount
    exceeds the threshold times the income, the product being the float
    product of the source.  With an income of 1000 and a threshold of 0.5
    the debit of 600 is flagged unaffordable and the debit of 400 is not
    flagged. *)
Theorem unaffordable_iff :
  (forall df ctx thr z row,
      fires unaffordable df ctx thr z row <->
      exists a, amount row = Some a /\
                a < 0 /\ 0 < monthly_income ctx /\
                fmul thr (monthly_income ctx) < Qabs a) /\
  (compute_monthly_income Examples.salary_month == 1000 /\
   detect_suspicious_transactions (Some Examples.salary_month) 0.5 3 6
   = Flags [ mkFlag 1 (Examples.txn 2025 1 2 "rent" (-600)) (Some (-600))
                    [unaffordable] ]).
Proof.
  split.
  - intros df ctx thr z row. rewrite fires_unaffordable.
    unfold unaffordable_check, amt_lt0, amt_abs_gt, fabs.
    destruct (amount row) as [a|].
    + rewrite !andb_true_iff, !Qltb_lt. split.
      * intros [[Hi Ha] Hb]. exists a. auto.
      * intros [a' [Ha' [H1 [H2 H3]]]]. injection Ha' as <-. auto.
    + rewrite andb_false_r. split; [discriminate|].
      intros [a [Ha _]]. discriminate.
  - split; vm_compute; reflexivity.
Qed.

(* ================================================================== *)
(** * Sign normalisation *)
(* ================================================================== *)

Lemma Qabs_zero_iff (p : Q) : Qabs p == 0 <-> p == 0.
Proof.
  split; intro H.
  - apply Qle_antisym.
    + rewrite <- H. apply Qle_Qabs.
    + assert (H' : - p <= 0) by (rewrite <- H, <- Qabs_opp; apply Qle_Qabs).
      lra.
  - rewrite H. reflexivity.
Qed.

(** The five cases of [normalize_amount], in the order they are tested. *)
Lemma normalize_amount_cases (w : WorkRow) (p : Q) :
  let t := PyStr.lower (w_type w) in
  let raw := PyStr.lower (str_cell (w_amount_raw w)) in
  normalize_amount w (Some p) =
  Some (if debit_cue t then - Qabs p
        else if credit_cue t then Qabs p
        else if raw_cr_cue raw then Qabs p
        else if raw_dr_cue raw then - Qabs p
        else p).
Proof.
  unfold normalize_amount, fabs. simpl.
  destruct (debit_cue _); [reflexivity|].
  destruct (credit_cue _); [reflexivity|].
  destruct (raw_cr_cue _); [reflexivity|].
  destruct (raw_dr_cue _); reflexivity.
Qed.

(** The rows of the final table are the rows with a parsed amount. *)
Lemma in_finalize (filtered : list WorkRow) (row : Row) :
  In row (finalize filtered) <->
  exists w p, In w filtered /\
              _clean_amount (w_amount_raw w) = Some p /\
              row = mkRow (w_date w) (Some (w_description w)) (Some (w_type w))
                          (normalize_amount w (Some p)).
Proof.
  unfold finalize. rewrite in_map_iff. split.
  - intros [w [Hrow Hin]]. apply filter_In in Hin. destruct Hin as [Hin Hsome].
    unfold normalized in *.
    destruct (_clean_amount (w_amount_raw w)) as [p|] eqn:Hp.
    + exists w, p. rewrite <- Hrow. auto.
    + simpl in Hsome. discriminate.
  - intros [w [p [Hin [Hp Hrow]]]]. exists w. split.
    + unfold normalized. rewrite Hp. symmetry. exact Hrow.
    + apply filter_In. split; [exact Hin|].
      unfold normalized. rewrite Hp, normalize_amount_cases. reflexivity.
Qed.

(** C3, as amended: every row of the final table comes from a row whose
    amount text was parsed to a number [p]; its amount is [-|p|] when the
    type names a debit, else [|p|] when the type names a credit, else [|p|]
    when the amount text ends in "cr" or holds " cr", else [-|p|] when it
    ends in "dr" or holds " dr", else [p].  So a debit type gives an amount
    that is not positive, a credit type without a debit cue an amount that
    is not negative, and both are strict when [p] is not zero. *)
Theorem sign_normalisation :
  forall filtered row,
    In row (finalize filtered) ->
    exists w p a,
      In w filtered /\
      _clean_amount (w_amount_raw w) = Some p /\
      txn_type row = Some (w_type w) /\
      amount row = Some a /\
      let t := PyStr.lower (w_type w) in
      let raw := PyStr.lower (str_cell (w_amount_raw w)) in
      a = (if debit_cue t then - Qabs p
           else if credit_cue t then Qabs p
           else if raw_cr_cue raw then Qabs p
           else if raw_dr_cue raw then - Qabs p
           else p) /\
      (debit_cue t = true -> a <= 0 /\ (~ p == 0 -> a < 0)) /\
      (debit_cue t = false -> credit_cue t = true ->
       0 <= a /\ (~ p == 0 -> 0 < a)).
Proof.
  intros filtered row Hin. apply in_finalize in Hin.
  destruct Hin as [w [p [Hin [Hp Hrow]]]].
  rewrite normalize_amount_cases in Hrow.
  eexists w, p, _. subst row. simpl.
  split; [exact Hin|]. split; [exact Hp|]. split; [reflexivity|].
  split; [reflexivity|]. split; [reflexivity|].
  assert (Hnn : 0 <= Qabs p) by apply Qabs_nonneg.
  assert (Hpos : ~ p == 0 -> 0 < Qabs p).
  { intro Hnz. apply Qle_lteq in Hnn. destruct Hnn as [Hlt|Heq]; [exact Hlt|].
    exfalso. apply Hnz. apply Qabs_zero_iff. symmetry. exact Heq. }
  split.
  - intros ->. split; [lra|]. intro Hnz. specialize (Hpos Hnz). lra.
  - intros -> ->. split; [exact Hnn|exact Hpos].
Qed.

Lemma sign_normalisation_witness :
  exists w p a,
    In w Examples.statement_rows /\
    _clean_amount (w_amount_raw w) = Some p /\
    Some "DEBIT" = Some (w_type w) /\
    Some (- Qabs 1200) = Some a /\
    let t := PyStr.lower (w_type w) in
    let raw := PyStr.lower (str_cell (w_amount_raw w)) in
    a = (if debit_cue t then - Qabs p
         else if credit_cue t then Qabs p
         else if raw_cr_cue raw then Qabs p
         else if raw_dr_cue raw then - Qabs p
         else p) /\
    (debit_cue t = true -> a <= 0 /\ (~ p == 0 -> a < 0)) /\
    (debit_cue t = false -> credit_cue t = true ->
     0 <= a /\ (~ p == 0 -> 0 < a)).
Proof.
  apply (sign_normalisation Examples.statement_rows
           (mkRow (Examples.day 2025 1 1) (Some "rent") (Some "DEBIT")
                  (Some (- Qabs 1200)))).
  vm_compute. left. reflexivity.
Defined.

(** The final table of the example statement: the type cue wins over the
    suffix of the amount text, the suffix over the parsed sign, and the row
    without a number is dropped. *)
Lemma finalize_statement_rows :
  map (fun r => option_map Qred (amount r)) (finalize Examples.statement_rows)
  = [Some (-1200); Some 5000; Some (151 # 2); Some (-12); Some (-3)].
Proof. vm_compute. reflexivity. Qed.

(** C3, counterexample: a debit of 0.00 has a debit type and an amount that
    is not negative; a "Credit card withdrawal" has a credit type ("credit")
    and, because "withdrawal" holds "dr", a negative amount. *)
Lemma sign_invariant_fails :
  ~ sign_invariant (finalize Examples.zero_debit) /\
  ~ sign_invariant (finalize Examples.credit_withdrawal).
Proof.
  split; intro H.
  - destruct (H (mkRow (Examples.day 2025 1 1) (Some "bank charge") (Some "Debit")
                       (Some (- Qabs 0))) "Debit" (- Qabs 0))
      as [Hd _]; try reflexivity.
    + vm_compute. left. reflexivity.
    + specialize (Hd eq_refl). vm_compute in Hd. discriminate.
  - destruct (H (mkRow (Examples.day 2025 1 2) (Some "atm")
                       (Some "Credit card withdrawal") (Some (- Qabs (250 # 1))))
                "Credit card withdrawal" (- Qabs (250 # 1)))
      as [_ Hc]; try reflexivity.
    + vm_compute. left. reflexivity.
    + specialize (Hc eq_refl). vm_compute in Hc. discriminate.
Qed.

(* ================================================================== *)
(** * The date parser *)
(* ================================================================== *)

(** Of the four dates of the specification, [DATE_RE] finds the first one
    only: it wants the month name before the day. *)
Lemma date_re_on_examples :
  Regex.search DATE_RE (PyStr.strip "Nov 16, 2025") = Some "Nov 16, 2025"%string /\
  Regex.search DATE_RE (PyStr.strip "16 November 2025") = None /\
  Regex.search DATE_RE (PyStr.strip "16-11-2025") = None /\
  Regex.search DATE_RE (PyStr.strip "2025-11-16") = None.
Proof. repeat split; vm_compute; reflexivity. Qed.

Lemma first_template_reads_example :
  try_templates "Nov 16, 2025" = Some Examples.nov_16_2025.
Proof. vm_compute. reflexivity. Qed.

(** A date that [strptime] reads and whose nanoseconds do not fit 64 bits
    is refused by [pd.to_datetime]; no later template reads the text. *)
Lemma out_of_bounds_date :
  Strptime.strptime "Nov 16, 2300" "%b %d, %Y" = Some (2300, 11, 16)%Z /\
  to_timestamp 2300 11 16 = None /\
  try_templates "Nov 16, 2300" = None.
Proof. repeat split; vm_compute; reflexivity. Qed.

(** X27: the way of a text through [parse_date], whatever the free-form
    parser of pandas does.  "Nov 16, 2025" holds a match of [DATE_RE] and is
    read by the first template as November 16 2025.  "16 November 2025",
    "16-11-2025" and "2025-11-16" hold no match: each is handed to the
    free-form parser and the result is what that parser finds.  In general a
    text without a match goes to the free-form parser stripped of its
    blanks; of a text with a match, the match alone is read by the first
    template that accepts it, or goes to the free-form parser when none
    does, as for a date beyond the range of [pd.Timestamp].  When the
    free-form parser finds no date or raises, the result is the missing
    date, and so it is for a missing cell. *)
Theorem parse_date_routing :
  forall to_datetime : string -> Parse,
    parse_date to_datetime (Some "Nov 16, 2025"%string) = Some Examples.nov_16_2025 /\
    parse_date to_datetime (Some "16 November 2025"%string)
    = coerce (to_datetime "16 November 2025"%string) /\
    parse_date to_datetime (Some "16-11-2025"%string)
    = coerce (to_datetime "16-11-2025"%string) /\
    parse_date to_datetime (Some "2025-11-16"%string)
    = coerce (to_datetime "2025-11-16"%string) /\
    parse_date to_datetime (Some "Nov 16, 2300"%string)
    = coerce (to_datetime "Nov 16, 2300"%string) /\
    (forall v,
        parse_date to_datetime (Some v) =
        match Regex.search DATE_RE (PyStr.strip v) with
        | None => coerce (to_datetime (PyStr.strip v))
        | Some sdate =>
            match try_templates sdate with
            | Some t => Some t
            | None => coerce (to_datetime sdate)
            end
        end) /\
    (forall v,
        parse_date to_datetime (Some v) = None <->
        exists text,
          ((Regex.search DATE_RE (PyStr.strip v) = Some text /\
            try_templates text = None)
           \/ (Regex.search DATE_RE (PyStr.strip v) = None /\ text = PyStr.strip v)) /\
          (to_datetime text = NaT \/ to_datetime text = Raised)) /\
    parse_date to_datetime None = None.
Proof.
  intro to_datetime.
  destruct date_re_on_examples as [E1 [E2 [E3 E4]]].
  assert (Hgen : forall v,
            parse_date to_datetime (Some v) =
            match Regex.search DATE_RE (PyStr.strip v) with
            | None => coerce (to_datetime (PyStr.strip v))
            | Some sdate =>
                match try_templates sdate with
                | Some t => Some t
                | None => coerce (to_datetime sdate)
                end
            end).
  { intro v. unfold parse_date.
    destruct (Regex.search DATE_RE (PyStr.strip v)); reflexivity. }
  split; [rewrite Hgen, E1, first_template_reads_example; reflexivity|].
  split; [rewrite Hgen, E2; reflexivity|].
  split; [rewrite Hgen, E3; reflexivity|].
  split; [rewrite Hgen, E4; reflexivity|].
  split; [reflexivity|].
  split; [exact Hgen|]. split; [|reflexivity].
  intro v. rewrite Hgen.
  destruct (Regex.search DATE_RE (PyStr.strip v)) as [sdate|] eqn:Hs.
  - destruct (try_templates sdate) as [t|] eqn:Ht.
    + split; [discriminate|].
      intros [text [[[H Hn]|[H _]] _]]; [|discriminate].
      injection H as <-. congruence.
    + split.
      * intro H. exists sdate. split; [left; auto|].
        destruct (to_datetime sdate); [discriminate|auto|auto].
      * intros [text [[[H _]|[H _]] Hf]]; [|discriminate].
        injection H as <-. destruct Hf as [-> | ->]; reflexivity.
  - split.
    + intro H. exists (PyStr.strip v). split; [right; auto|].
      destruct (to_datetime (PyStr.strip v)); [discriminate|auto|auto].
    + intros [text [[[H _]|[_ ->]] Hf]]; [discriminate|].
      destruct Hf as [-> | ->]; reflexivity.
Qed.

(** A month name with a day and a year but no comma is found by [DATE_RE]
    and read by none of the templates: the free-form parser gets the match,
    not the whole text. *)
Lemma parse_date_match_without_comma :
  forall to_datetime,
    parse_date to_datetime (Some "paid on Nov 16 2025 at noon"%string)
    = coerce (to_datetime "Nov 16 2025"%string).
Proof. intro to_datetime. reflexivity. Qed.

(* ================================================================== *)
(** * The scan: the anomalous amount heuristic *)
(* ================================================================== *)

Lemma in_dropna {A} (x : A) (l : list (option A)) :
  In x (dropna l) <-> In (Some x) l.
Proof.
  induction l as [|[y|] l IH]; simpl.
  - tauto.
  - rewrite IH. split; intros [H|H]; auto.
    + left. congruence.
    + left. congruence.
  - rewrite IH. split; [auto|]. intros [H|H]; [discriminate|exact H].
Qed.

(** The mean and the deviation are those of floats: the mean of three
    amounts of -0.7 is not -0.7 but the float above it, so the standard
    deviation is positive, about 1.1e-16, the z-score of each amount is -1
    and each row is an outlier for an [outlier_z] of 1.0. *)
Lemma equal_amounts_deviate :
  let a := round64 (-0.7) in
  a < Series_mean [a; a; a] /\
  0 < Series_std [a; a; a] /\
  z_score [a; a; a] a == -1 /\
  is_outlier (Series_mean [a; a; a]) (Series_std [a; a; a]) 1 (Some a) = true.
Proof. repeat split; vm_compute; reflexivity. Qed.

Lemma fires_anomalous_in_scan df k thr z row :
  fires anomalous_amount df (scan_context df k) thr z row <->
  exists a, amount row = Some a /\
            0 < Series_std (dropna (map amount (rows df))) /\
            z <= Qabs (z_score (dropna (map amount (rows df))) a).
Proof.
  rewrite fires_anomalous_amount. unfold scan_context, is_outlier, z_score, fabs.
  cbn [mean_amt std_amt].
  set (amounts := dropna (map amount (rows df))).
  destruct (amount row) as [a|].
  - destruct (Qltb 0 (Series_std amounts)) eqn:E.
    + rewrite E. cbn [andb]. rewrite Qleb_le. apply Qltb_lt in E. split.
      * intro H. exists a. auto.
      * intros [a' [Ha' [_ H]]]. injection Ha' as <-. exact H.
    + change (Qltb 0 0) with false. cbn [andb]. split; [discriminate|].
      intros [a' [_ [H _]]]. apply Qltb_lt in H. congruence.
  - split; [discriminate|]. intros [a [Ha _]]. discriminate.
Qed.

(** C2, as amended: in a scan, the anomalous amount heuristic fires on a
    row exactly when the row has an amount, the population standard
    deviation of the amounts that are not missing is positive, and the size
    of the z-score of the signed amount reaches [outlier_z]; mean, deviation
    and z-score are the floats that the source computes.  For a frame whose
    amounts are -10, -12, -9, -11 and -500 and [outlier_z] 3.0 no row is
    flagged: the z-score of -500 has a size below 3 (and below 2); with
    [outlier_z] 1.9 the row of -500 is the one row flagged. *)
Theorem anomalous_amount_iff :
  (forall df k thr z row,
      let amounts := dropna (map amount (rows df)) in
      fires anomalous_amount df (scan_context df k) thr z row <->
      exists a, amount row = Some a /\
                0 < Series_std amounts /\
                z <= Qabs (z_score amounts a)) /\
  (forall df k thr row,
      dropna (map amount (rows df)) = Examples.series ->
      In row (rows df) ->
      ~ fires anomalous_amount df (scan_context df k) thr 3 row /\
      ~ fires anomalous_amount df (scan_context df k) thr 2 row /\
      (fires anomalous_amount df (scan_context df k) thr (round64 1.9) row <->
       amount row = Some (-500))) /\
  Qabs (z_score Examples.series (-500)) < 2 /\
  detect_suspicious_transactions (Some Examples.outlier_series) 0.5 3 6 = Flags [] /\
  detect_suspicious_transactions (Some Examples.outlier_series) 0.5 (round64 1.9) 6
  = Flags [ mkFlag 4 (mkRow None None None (Some (-500))) (Some (-500))
                   [anomalous_amount] ].
Proof.
  split; [|split; [|split; [|split]]].
  - intros df k thr z row amounts. apply fires_anomalous_in_scan.
  - intros df k thr row Hseries Hin.
    rewrite !fires_anomalous_amount. unfold scan_context.
    cbn [mean_amt std_amt]. rewrite Hseries.
    destruct (amount row) as [a|] eqn:Ha.
    + assert (Hmem : In a Examples.series).
      { rewrite <- Hseries. apply in_dropna. rewrite <- Ha.
        apply in_map. exact Hin. }
      unfold Examples.series in Hmem. simpl in Hmem.
      destruct Hmem as [<-|[<-|[<-|[<-|[<-|[]]]]]];
        (split; [vm_compute; discriminate|]);
        (split; [vm_compute; discriminate|]);
        split; intro H; try reflexivity;
        try (vm_compute in H; discriminate).
    + simpl. split; [discriminate|]. split; [discriminate|].
      split; discriminate.
  - vm_compute. reflexivity.
  - vm_compute. reflexivity.
  - vm_compute. reflexivity.
Qed.

Lemma anomalous_amount_iff_witness :
  ~ fires anomalous_amount Examples.outlier_series
      (scan_context Examples.outlier_series 6) 0.5 3
      (mkRow None None None (Some (-500))) /\
  ~ fires anomalous_amount Examples.outlier_series
      (scan_context Examples.outlier_series 6) 0.5 2
      (mkRow None None None (Some (-500))) /\
  (fires anomalous_amount Examples.outlier_series
      (scan_context Examples.outlier_series 6) 0.5 (round64 1.9)
      (mkRow None None None (Some (-500))) <->
   amount (mkRow None None None (Some (-500))) = Some (-500)).
Proof.
  destruct anomalous_amount_iff as [_ [H _]].
  apply (H Examples.outlier_series 6%Z 0.5 (mkRow None None None (Some (-500)))).
  - reflexivity.
  - vm_compute. tauto.
Defined.

(** C2, counterexample: in the series -10, -12, -9, -11, -500 scanned with
    [outlier_z] 3.0 the row of -500 is not flagged as an anomalous amount,
    so the rows flagged are not exactly that row. *)
Lemma outlier_example_fails :
  ~ (forall row,
        In row (rows Examples.outlier_series) ->
        (fires anomalous_amount Examples.outlier_series
               (scan_context Examples.outlier_series 6) 0.5 3 row <->
         amount row = Some (-500))).
Proof.
  intro H.
  specialize (H (mkRow None None None (Some (-500)))).
  assert (Hin : In (mkRow None None None (Some (-500)))
                   (rows Examples.outlier_series)).
  { vm_compute. tauto. }
  apply H in Hin. destruct Hin as [_ Hfires].
  specialize (Hfires eq_refl).
  apply (proj1 (fires_anomalous_amount _ _ _ _ _)) in Hfires.
  vm_compute in Hfires. discriminate.
Qed.

(* ================================================================== *)
(** * The scan: flags, scores and order *)
(* ================================================================== *)

(** The score is the weighted number of reasons of each code. *)
Lemma score_counts (f : Flag) :
  score f =
  (100 * Z.of_nat (occurrences unaffordable (reasons f))
   + 50 * Z.of_nat (occurrences anomalous_amount (reasons f))
   + 20 * Z.of_nat (occurrences new_payee (reasons f))
   + 10 * Z.of_nat (occurrences freq_small_trans (reasons f)))%Z.
Proof.
  unfold score, occurrences.
  induction (reasons f) as [|r l IH]; [reflexivity|].
  cbn [fold_right]. rewrite IH. destruct r; simpl count_occ; cbn [weight]; lia.
Qed.

(** The flags that the loop collects: one for each row with a reason, with
    the position of the row as its label. *)
Lemma in_scan_rows df ctx thr z (rs : list Row) (i : nat) (f : Flag) :
  In f (scan_rows df ctx thr z i rs) <->
  exists j row,
    nth_error rs j = Some row /\
    row_reasons df ctx thr z row <> [] /\
    f = mkFlag (i + j) row (amount row) (row_reasons df ctx thr z row).
Proof.
  revert i. induction rs as [|r rs IH]; intro i.
  - simpl. split; [tauto|]. intros [j [row [H _]]]. destruct j; discriminate.
  - assert (Hstep : In f (scan_rows df ctx thr z i (r :: rs)) <->
              (row_reasons df ctx thr z r <> [] /\
               f = mkFlag i r (amount r) (row_reasons df ctx thr z r)) \/
              In f (scan_rows df ctx thr z (S i) rs)).
    { simpl. destruct (row_reasons df ctx thr z r) as [|a l] eqn:E.
      - split; [auto|]. intros [[H _]|H]; [congruence|exact H].
      - simpl. split.
        + intros [H|H]; [left; split; [discriminate|symmetry; exact H]|right; exact H].
        + intros [[_ H]|H]; [left; symmetry; exact H|right; exact H]. }
    rewrite Hstep, IH. split.
    + intros [[Hne Hf]|[j [row [Hn [Hne Hf]]]]].
      * exists 0%nat, r. rewrite Nat.add_0_r. auto.
      * exists (S j), row. rewrite Nat.add_succ_r. auto.
    + intros [[|j] [row [Hn [Hne Hf]]]].
      * left. simpl in Hn. injection Hn as ->.
        rewrite Nat.add_0_r in Hf. auto.
      * right. exists j, row. rewrite Nat.add_succ_r in Hf. auto.
Qed.

(** The loop collects the flags by increasing label. *)
Lemma scan_rows_increasing df ctx thr z (rs : list Row) (i : nat) :
  StronglySorted (fun f g => (index f < index g)%nat) (scan_rows df ctx thr z i rs) /\
  Forall (fun f => (i <= index f)%nat) (scan_rows df ctx thr z i rs).
Proof.
  revert i. induction rs as [|r rs IH]; intro i.
  - simpl. split; constructor.
  - destruct (IH (S i)) as [Hs Hf]. simpl.
    assert (Hf' : Forall (fun f => (i <= index f)%nat)
                    (scan_rows df ctx thr z (S i) rs)).
    { eapply Forall_impl; [|exact Hf]. simpl. intros; lia. }
    destruct (row_reasons df ctx thr z r); [split; assumption|].
    split.
    + constructor; [exact Hs|].
      eapply Forall_impl; [|exact Hf]. simpl. intros; lia.
    + constructor; [simpl; lia|exact Hf'].
Qed.

Section StableSortFacts.
Context {A : Type} (key : A -> Z).

Lemma insert_sorted_perm (x : A) (l : list A) :
  Permutation (insert_sorted key x l) (x :: l).
Proof.
  induction l as [|y l IH]; simpl; [reflexivity|].
  destruct (key x <=? key y)%Z; [reflexivity|].
  rewrite IH. apply perm_swap.
Qed.

Lemma sorted_perm (l : list A) : Permutation (sorted key l) l.
Proof.
  induction l as [|x l IH]; simpl; [reflexivity|].
  rewrite insert_sorted_perm. constructor. exact IH.
Qed.

(** A stable sort of a sequence that [pos] numbers increasingly orders it
    by key, then by [pos]. *)
Variable pos : A -> nat.

Lemma insert_sorted_stable (x : A) (l : list A) :
  StronglySorted (key_then_pos key pos) l ->
  Forall (fun y => (pos x < pos y)%nat) l ->
  StronglySorted (key_then_pos key pos) (insert_sorted key x l).
Proof.
  induction l as [|y l IH]; intros Hs Hpos; simpl.
  - constructor; constructor.
  - inversion Hs as [|? ? Hs' Hy]; subst.
    inversion Hpos as [|? ? Hxy Hpos']; subst.
    destruct (key x <=? key y)%Z eqn:E.
    + apply Z.leb_le in E. constructor; [exact Hs|].
      constructor.
      * unfold key_then_pos. lia.
      * rewrite Forall_forall in *. intros w Hw.
        specialize (Hy w Hw). specialize (Hpos' w Hw).
        unfold key_then_pos in *. lia.
    + apply Z.leb_gt in E. constructor; [apply IH; assumption|].
      rewrite Forall_forall in *. intros w Hw.
      apply (Permutation_in _ (insert_sorted_perm x l)) in Hw.
      destruct Hw as [<-|Hw].
      * unfold key_then_pos. lia.
      * apply Hy. exact Hw.
Qed.

Lemma sorted_stable (l : list A) :
  StronglySorted (fun x y => (pos x < pos y)%nat) l ->
  StronglySorted (key_then_pos key pos) (sorted key l).
Proof.
  induction l as [|x l IH]; intro Hs; simpl; [constructor|].
  inversion Hs as [|? ? Hs' Hx]; subst.
  apply insert_sorted_stable; [apply IH; exact Hs'|].
  rewrite Forall_forall in *. intros w Hw. apply Hx.
  apply (Permutation_in _ (sorted_perm l)). exact Hw.
Qed.

End StableSortFacts.

(** What the scan returns when it does not raise: nothing, or the flags of
    the loop sorted by [severity_score]. *)
Lemma detect_flags (df : option DataFrame) thr z k (fs : list Flag) :
  detect_suspicious_transactions df thr z k = Flags fs ->
  fs = [] \/
  exists d, df = Some d /\ has_amount d = true /\
            fs = sorted severity_score
                   (scan_rows d (scan_context d k) thr z 0 (rows d)).
Proof.
  unfold detect_suspicious_transactions. destruct df as [d|].
  - destruct (df_empty d); [intro H; injection H as <-; auto|].
    destruct (has_amount d) eqn:Ha; [|discriminate]. simpl.
    destruct (is_nil _); intro H; injection H as <-; [auto|].
    right. exists d. auto.
  - intro H. injection H as <-. auto.
Qed.

(** In a strongly sorted sequence the order of two elements is the order of
    the relation. *)
Lemma precedes_sorted {A} (R : A -> A -> Prop) (f g : A) (l : list A) :
  StronglySorted R l -> precedes f g l -> R f g.
Proof.
  intros Hs [l1 [l2 [l3 ->]]].
  induction l1 as [|a l1 IH].
  - simpl in Hs. inversion Hs as [|? ? _ Hf]; subst.
    rewrite Forall_forall in Hf. apply Hf.
    apply in_or_app. right. left. reflexivity.
  - apply IH. inversion Hs. assumption.
Qed.

Lemma precedes_or {A} (f g : A) (l : list A) :
  In f l -> In g l -> f <> g -> precedes f g l \/ precedes g f l.
Proof.
  intros Hf Hg Hne.
  apply in_split in Hf. destruct Hf as [l1 [l2 ->]].
  apply in_app_or in Hg. destruct Hg as [Hg|[Hg|Hg]].
  - right. apply in_split in Hg. destruct Hg as [a [b ->]].
    exists a, b, l2. rewrite <- app_assoc. reflexivity.
  - congruence.
  - left. apply in_split in Hg. destruct Hg as [a [b ->]].
    exists l1, a, b. reflexivity.
Qed.

Lemma StronglySorted_weaken {A} (R S : A -> A -> Prop) (l : list A) :
  (forall x y, R x y -> S x y) -> StronglySorted R l -> StronglySorted S l.
Proof.
  intros HRS Hs. induction Hs as [|x l Hs IH Hx]; constructor.
  - exact IH.
  - eapply Forall_impl; [|exact Hx]. intros y Hy. apply HRS. exact Hy.
Qed.

(** The flags that the scan returns are those of the loop. *)
Lemma in_detect_flags (df : option DataFrame) thr z k (fs : list Flag) (f : Flag) :
  detect_suspicious_transactions df thr z k = Flags fs ->
  In f fs ->
  exists d row,
    df = Some d /\
    nth_error (rows d) (index f) = Some row /\
    flag_row f = row /\
    reasons f = row_reasons d (scan_context d k) thr z row /\
    reasons f <> [].
Proof.
  intros Hd Hin. apply detect_flags in Hd.
  destruct Hd as [->|[d [-> [_ ->]]]]; [destruct Hin|].
  apply (Permutation_in _ (sorted_perm severity_score _)) in Hin.
  apply in_scan_rows in Hin. destruct Hin as [j [row [Hn [Hne ->]]]].
  exists d, row. simpl. auto.
Qed.

(** C6: the score of a returned flag is 100 for [unaffordable], 50 for
    [anomalous_amount], 20 for [new_payee] and 10 for [freq_small_trans],
    each times the number of reasons with that code, which is at most one;
    the flags come by decreasing score and, among equal scores, in the order
    of their rows; so a flag of score 150 comes before a flag of score 20. *)
Theorem severity_and_order :
  forall df thr z k fs,
    detect_suspicious_transactions df thr z k = Flags fs ->
    (forall f, In f fs ->
       score f =
       (100 * Z.of_nat (occurrences unaffordable (reasons f))
        + 50 * Z.of_nat (occurrences anomalous_amount (reasons f))
        + 20 * Z.of_nat (occurrences new_payee (reasons f))
        + 10 * Z.of_nat (occurrences freq_small_trans (reasons f)))%Z /\
       (forall r, (occurrences r (reasons f) <= 1)%nat)) /\
    StronglySorted before fs /\
    (forall f g, In f fs -> In g fs ->
       score f = 150%Z -> score g = 20%Z -> precedes f g fs).
Proof.
  intros df thr z k fs Hd.
  assert (Hsorted : StronglySorted before fs).
  { destruct (detect_flags _ _ _ _ _ Hd) as [->|[d [_ [_ ->]]]]; [constructor|].
    apply StronglySorted_weaken with (R := key_then_pos severity_score index).
    - unfold key_then_pos, before, severity_score. intros x y. lia.
    - apply sorted_stable. apply scan_rows_increasing. }
  split; [|split].
  - intros f Hin. split; [apply score_counts|].
    destruct (in_detect_flags _ _ _ _ _ _ Hd Hin) as [d [row [_ [_ [_ [-> _]]]]]].
    intro r. apply row_reasons_once.
  - exact Hsorted.
  - intros f g Hf Hg Sf Sg.
    destruct (precedes_or f g fs Hf Hg) as [H|H]; [congruence|exact H|].
    apply (precedes_sorted before) in H; [|exact Hsorted].
    unfold before in H. lia.
Qed.

(** The scan of the purchases, with [outlier_z] 1.5: the car, unaffordable
    and anomalous, comes before the old shop, a new payee. *)
Lemma purchases_scan :
  detect_suspicious_transactions (Some Examples.purchases) 0.5 1.5 6
  = Flags [ mkFlag 4 Examples.car (Some (-5000)) [unaffordable; anomalous_amount];
            mkFlag 0 Examples.old_shop (Some (-5)) [new_payee] ].
Proof. vm_compute. reflexivity. Qed.

Lemma severity_and_order_witness :
  let big := mkFlag 4 Examples.car (Some (-5000)) [unaffordable; anomalous_amount] in
  let small := mkFlag 0 Examples.old_shop (Some (-5)) [new_payee] in
  score big = 150%Z /\ score small = 20%Z /\
  StronglySorted before [big; small] /\
  precedes big small [big; small].
Proof.
  intros big small.
  destruct (severity_and_order (Some Examples.purchases) 0.5 1.5 6%Z [big; small])
    as [_ [Hs Hp]].
  - vm_compute. reflexivity.
  - split; [reflexivity|]. split; [reflexivity|]. split; [exact Hs|].
    apply Hp; simpl; auto.
Defined.

(* ================================================================== *)
(** * The scan: the burst frequency heuristic *)
(* ================================================================== *)

Section SortedByKey.
Context {A : Type} (key : A -> Z).

Lemma insert_sorted_ordered (x : A) (l : list A) :
  StronglySorted (fun a b => (key a <= key b)%Z) l ->
  StronglySorted (fun a b => (key a <= key b)%Z) (insert_sorted key x l).
Proof.
  induction l as [|y l IH]; intro Hs; simpl.
  - constructor; constructor.
  - inversion Hs as [|? ? Hs' Hy]; subst.
    destruct (key x <=? key y)%Z eqn:E.
    + apply Z.leb_le in E. constructor; [exact Hs|].
      constructor; [exact E|].
      eapply Forall_impl; [|exact Hy]. simpl. intros; lia.
    + apply Z.leb_gt in E. constructor; [apply IH; exact Hs'|].
      rewrite Forall_forall in *. intros w Hw.
      apply (Permutation_in _ (insert_sorted_perm key x l)) in Hw.
      destruct Hw as [<-|Hw]; [lia|apply Hy; exact Hw].
Qed.

Lemma sorted_ordered (l : list A) :
  StronglySorted (fun a b => (key a <= key b)%Z) (sorted key l).
Proof.
  induction l as [|x l IH]; simpl; [constructor|].
  apply insert_sorted_ordered. exact IH.
Qed.
End SortedByKey.

Lemma has_burst_window_iff (ds : list Timestamp) :
  has_burst_window ds = true <-> burst_window ds.
Proof.
  unfold has_burst_window, burst_window. rewrite existsb_exists. split.
  - intros [i [Hin Hle]]. apply in_seq in Hin. apply Z.leb_le in Hle.
    exists i. split; [lia|exact Hle].
  - intros [i [Hlt Hle]]. exists i. split.
    + apply in_seq. lia.
    + apply Z.leb_le. exact Hle.
Qed.

Lemma string_eqb_empty (s : string) : negb (String.eqb s "") = true <-> s <> ""%string.
Proof.
  rewrite negb_true_iff. split.
  - intros H ->. discriminate.
  - intro H. apply String.eqb_neq. exact H.
Qed.

(** The difference of two dates at midnight is a whole number of days. *)
Lemma timedelta_days_midnight (y1 m1 d1 y2 m2 d2 : Z) :
  Calendar.timedelta_days (Calendar.timestamp y2 m2 d2) (Calendar.timestamp y1 m1 d1)
  = (Calendar.days_from_civil y2 m2 d2 - Calendar.days_from_civil y1 m1 d1)%Z.
Proof.
  unfold Calendar.timedelta_days, Calendar.timestamp.
  rewrite <- Z.mul_sub_distr_r. apply Z.div_mul.
  unfold Calendar.ns_per_day. lia.
Qed.

(** C7, as amended: the burst frequency heuristic fires on a row exactly
    when the frame has a date and a description column, the payee key of
    the row (its description, trimmed and in lower case) is not empty, four
    rows or more have that key, four or more of them are dated, and among
    their sorted dates some four consecutive ones have a first and a last
    date that differ by at most 7 whole days.  It then fires on every row
    with that key, inside the window or not, and adds its reason once. *)
Theorem burst_frequency :
  (forall df ctx thr z row,
      fires freq_small_trans df ctx thr z row <->
      has_date df = true /\ has_description df = true /\
      payee_key (description row) <> ""%string /\
      burst_spec df row) /\
  (forall df ctx thr z row row',
      payee_key (description row) = payee_key (description row') ->
      (fires freq_small_trans df ctx thr z row <->
       fires freq_small_trans df ctx thr z row')) /\
  (forall df ctx thr z row,
      (occurrences freq_small_trans (row_reasons df ctx thr z row) <= 1)%nat) /\
  (forall prs,
      StronglySorted Z.le (dates_sorted prs) /\
      Permutation (dates_sorted prs) (dropna (map date prs))) /\
  (forall y1 m1 d1 y2 m2 d2,
      Calendar.timedelta_days (Calendar.timestamp y2 m2 d2)
                              (Calendar.timestamp y1 m1 d1)
      = (Calendar.days_from_civil y2 m2 d2 - Calendar.days_from_civil y1 m1 d1)%Z).
Proof.
  assert (Hiff : forall df ctx thr z row,
            fires freq_small_trans df ctx thr z row <->
            has_date df = true /\ has_description df = true /\
            payee_key (description row) <> ""%string /\
            burst_spec df row).
  { intros df ctx thr z row. rewrite fires_freq_small_trans.
    unfold burst, burst_spec, row_payee.
    destruct (has_description df).
    - rewrite !andb_true_iff, string_eqb_empty, !Nat.leb_le, has_burst_window_iff.
      tauto.
    - change (negb (""%string =? "")%string) with false.
      rewrite andb_false_r. simpl. split; [discriminate|].
      intros [_ [H _]]. discriminate. }
  split; [exact Hiff|]. split; [|split; [|split]].
  - intros df ctx thr z row row' Hkey. rewrite !Hiff.
    unfold burst_spec. rewrite Hkey. tauto.
  - intros. apply row_reasons_once.
  - intro prs. split.
    + apply (sorted_ordered (fun t : Timestamp => t)).
    + apply sorted_perm.
  - apply timedelta_days_midnight.
Qed.

(** The scan of the shop visits: the four visits of the first week, the
    visit three weeks later and the visit of August are all flagged. *)
Lemma shop_visits_scan :
  match detect_suspicious_transactions (Some Examples.shop_visits) 0.5 3 6 with
  | Flags fs =>
      map (fun f => (index f, reasons f)) fs
      = [ (0, [freq_small_trans]); (1, [freq_small_trans]); (2, [freq_small_trans]);
          (3, [freq_small_trans]); (4, [freq_small_trans]); (5, [freq_small_trans]) ]%nat
  | ValueError _ => False
  end.
Proof. vm_compute. reflexivity. Qed.

Lemma burst_frequency_witness :
  fires freq_small_trans Examples.shop_visits (scan_context Examples.shop_visits 6)
        0.5 3 (Examples.txn 2025 1 1 "Shop" (-10)) <->
  fires freq_small_trans Examples.shop_visits (scan_context Examples.shop_visits 6)
        0.5 3 (Examples.txn 2025 8 1 "shop" (-10)).
Proof.
  destruct burst_frequency as [_ [Hgroup _]].
  apply Hgroup. vm_compute. reflexivity.
Defined.

(** C7, counterexample: four rows of one day share the empty description;
    the condition of the specification holds for them and the heuristic
    does not fire. *)
Lemma burst_on_blank_payee_fails :
  ~ (fires freq_small_trans Examples.blank_payees
           (scan_context Examples.blank_payees 6) 0.5 3 Examples.blank_payee <->
     burst_spec Examples.blank_payees Examples.blank_payee).
Proof.
  intros [_ H].
  assert (Hspec : burst_spec Examples.blank_payees Examples.blank_payee).
  { unfold burst_spec.
    split; [apply Nat.leb_le; vm_compute; reflexivity|].
    split; [apply Nat.leb_le; vm_compute; reflexivity|].
    apply has_burst_window_iff. vm_compute. reflexivity. }
  apply H in Hspec. apply (proj1 (fires_freq_small_trans _ _ _ _ _)) in Hspec.
  vm_compute in Hspec. discriminate.
Qed.

(* ================================================================== *)
(** * The income estimate *)
(* ================================================================== *)

Lemma zrange_in (lo hi m : Z) : In m (zrange lo hi) <-> (lo <= m <= hi)%Z.
Proof.
  unfold zrange. rewrite in_map_iff. split.
  - intros [i [<- Hi]]. apply in_seq in Hi. lia.
  - intro H. exists (Z.to_nat (m - lo)). split; [lia|].
    apply in_seq. lia.
Qed.

Lemma zrange_nodup (lo hi : Z) : NoDup (zrange lo hi).
Proof.
  unfold zrange. apply Finite.Injective_map_NoDup.
  - intros i j H. lia.
  - apply seq_NoDup.
Qed.

Lemma zmin_max_bounds (m : Z) (ms : list Z) (x : Z) :
  In x (m :: ms) -> (zmin_list m ms <= x <= zmax_list m ms)%Z.
Proof.
  unfold zmin_list, zmax_list. revert x.
  induction ms as [|y ms IH]; simpl; intro x.
  - intros [<-|[]]. lia.
  - intros [<-|[<-|H]].
    + specialize (IH m (or_introl eq_refl)). lia.
    + lia.
    + specialize (IH x (or_intror H)). lia.
Qed.

(** The bins of the resampling are distinct months, they hold every dated
    amount, and they are as many as the months of the span. *)
Lemma month_range_covers (l : list (Timestamp * Q)) (m : Z) :
  In m (map entry_month l) -> In m (month_range l).
Proof.
  unfold month_range. destruct (map entry_month l) as [|k ks]; [tauto|].
  intro H. apply zrange_in. apply zmin_max_bounds. exact H.
Qed.

Lemma month_range_nonempty (l : list (Timestamp * Q)) :
  l <> [] -> month_range l <> [].
Proof.
  destruct l as [|e l]; [congruence|]. intros _ H.
  assert (Hin : In (entry_month e) (month_range (e :: l))).
  { apply month_range_covers. left. reflexivity. }
  rewrite H in Hin. destruct Hin.
Qed.

Lemma zmin_in (m : Z) (ms : list Z) : In (zmin_list m ms) (m :: ms).
Proof.
  unfold zmin_list. induction ms as [|y ms IH]; [left; reflexivity|].
  cbn [fold_right]. destruct (Z.min_spec y (fold_right Z.min m ms)) as [[_ E]|[_ E]];
    rewrite E.
  - right. left. reflexivity.
  - destruct IH as [H|H]; [left; exact H|right; right; exact H].
Qed.

Lemma zmax_in (m : Z) (ms : list Z) : In (zmax_list m ms) (m :: ms).
Proof.
  unfold zmax_list. induction ms as [|y ms IH]; [left; reflexivity|].
  cbn [fold_right]. destruct (Z.max_spec y (fold_right Z.max m ms)) as [[_ E]|[_ E]];
    rewrite E.
  - destruct IH as [H|H]; [left; exact H|right; right; exact H].
  - right. left. reflexivity.
Qed.

(** The bins depend on the months of the rows, not on their order. *)
Lemma month_range_perm (l l' : list (Timestamp * Q)) :
  Permutation l l' -> month_range l = month_range l'.
Proof.
  intro H. assert (Hm := Permutation_map entry_month H).
  unfold month_range.
  destruct (map entry_month l) as [|m ms] eqn:E, (map entry_month l') as [|k ks] eqn:E'.
  - reflexivity.
  - apply Permutation_nil in Hm. discriminate.
  - apply Permutation_sym, Permutation_nil in Hm. discriminate.
  - assert (A1 := zmin_max_bounds m ms _ (Permutation_in _ (Permutation_sym Hm) (zmin_in k ks))).
    assert (A2 := zmin_max_bounds k ks _ (Permutation_in _ Hm (zmin_in m ms))).
    assert (A3 := zmin_max_bounds m ms _ (Permutation_in _ (Permutation_sym Hm) (zmax_in k ks))).
    assert (A4 := zmin_max_bounds k ks _ (Permutation_in _ Hm (zmax_in m ms))).
    f_equal; lia.
Qed.

Lemma by_date_perm (l : list (Timestamp * Q)) : Permutation (by_date l) l.
Proof. apply sorted_perm. Qed.

Lemma resample_as_map (l : list (Timestamp * Q)) :
  resample_month_sum l = map (month_sum (by_date l)) (month_range l).
Proof.
  rewrite <- (month_range_perm _ _ (by_date_perm l)).
  unfold resample_month_sum, month_range.
  destruct (map entry_month (by_date l)); reflexivity.
Qed.

(** A month that holds no row has the sum 0. *)
Lemma month_amounts_outside (l : list (Timestamp * Q)) (m : Z) :
  ~ In m (map entry_month l) -> month_amounts l m = [].
Proof.
  intro H. unfold month_amounts.
  induction l as [|e l IH]; [reflexivity|]. cbn [filter].
  destruct (Z.eqb_spec (entry_month e) m) as [E|_].
  - exfalso. apply H. left. exact E.
  - apply IH. intro Hin. apply H. right. exact Hin.
Qed.

Lemma holds_row_iff (l : list (Timestamp * Q)) (m : Z) :
  holds_row l m = true <-> In m (map entry_month l).
Proof.
  unfold holds_row. rewrite existsb_exists, in_map_iff. split.
  - intros [e [He Hm]]. apply Z.eqb_eq in Hm. exists e. auto.
  - intros [e [Hm He]]. exists e. split; [exact He|]. apply Z.eqb_eq. exact Hm.
Qed.

Lemma month_sum_without_row (l : list (Timestamp * Q)) (m : Z) :
  holds_row l m = false -> month_sum (by_date l) m = 0.
Proof.
  intro H. unfold month_sum. rewrite month_amounts_outside; [reflexivity|].
  intro Hin. apply in_map_iff in Hin. destruct Hin as [e [Hm He]].
  apply (Permutation_in _ (by_date_perm l)) in He.
  assert (Ht : holds_row l m = true).
  { apply holds_row_iff. apply in_map_iff. exists e. auto. }
  congruence.
Qed.

Lemma filter_map_filter {A B} (p : B -> bool) (f : A -> B) (q : A -> bool)
      (l : list A) :
  (forall x, q x = false -> p (f x) = false) ->
  filter p (map f l) = filter p (map f (filter q l)).
Proof.
  intro H. induction l as [|x l IH]; [reflexivity|]. cbn [map filter].
  destruct (q x) eqn:E.
  - cbn [map filter]. rewrite IH. reflexivity.
  - rewrite (H x E). exact IH.
Qed.

(** The bins with a positive sum are the buckets with a positive sum, in
    the same order. *)
Lemma positive_bins (l : list (Timestamp * Q)) :
  filter (fun s => Qltb 0 s) (resample_month_sum l) = positive_months l.
Proof.
  unfold positive_months, bucket_sums, month_keys. rewrite resample_as_map.
  apply filter_map_filter. intros m Hm.
  rewrite (month_sum_without_row l m Hm). reflexivity.
Qed.

(** The estimate in terms of the rows that have a date and an amount. *)
Lemma compute_monthly_income_unfold (df : DataFrame) :
  let l := usable df in
  compute_monthly_income df =
  if is_nil l then 0
  else if is_nil (positive_months l)
       then if is_nil (credit_bins l) then 0 else Series_mean (credit_bins l)
       else Series_mean (positive_months l).
Proof.
  cbv zeta. unfold credit_bins.
  rewrite <- positive_bins, <- resample_as_map.
  unfold compute_monthly_income, usable, credits_only.
  destruct (has_date df), (has_amount df); reflexivity.
Qed.

Lemma credit_bins_nonempty (l : list (Timestamp * Q)) :
  credits_only l <> [] -> credit_bins l <> [].
Proof.
  intros H E. apply (month_range_nonempty _ H).
  unfold credit_bins in E. apply map_eq_nil in E. exact E.
Qed.

Lemma estimate_main (df : DataFrame) :
  positive_months (usable df) <> [] ->
  compute_monthly_income df = Series_mean (positive_months (usable df)).
Proof.
  intro Hpos. rewrite compute_monthly_income_unfold. cbv zeta.
  destruct (usable df) as [|e l] eqn:El; [exfalso; apply Hpos; reflexivity|].
  cbn [is_nil].
  destruct (positive_months (e :: l)); [congruence|reflexivity].
Qed.

Lemma estimate_fallback (df : DataFrame) :
  positive_months (usable df) = [] ->
  credits_only (usable df) <> [] ->
  compute_monthly_income df = Series_mean (credit_bins (usable df)).
Proof.
  intros Hpos Hc. rewrite compute_monthly_income_unfold. cbv zeta.
  assert (Hb := credit_bins_nonempty _ Hc).
  destruct (usable df) as [|e l] eqn:El; [exfalso; apply Hc; reflexivity|].
  cbn [is_nil]. rewrite Hpos. cbn [is_nil].
  destruct (credit_bins (e :: l)); [congruence|reflexivity].
Qed.

Lemma estimate_zero (df : DataFrame) :
  positive_months (usable df) = [] ->
  credits_only (usable df) = [] ->
  compute_monthly_income df = 0.
Proof.
  intros Hpos Hc. rewrite compute_monthly_income_unfold. cbv zeta.
  destruct (is_nil (usable df)); [reflexivity|].
  rewrite Hpos. unfold credit_bins. rewrite Hc. reflexivity.
Qed.

(** C5, as amended: [compute_monthly_income] takes the rows that have a
    date and an amount and sums them month by month, the rows of a month
    in the order of their dates.  When some calendar month has a positive
    sum, the estimate is the mean of the positive monthly sums, in calendar
    order.  Otherwise, when some amount is positive, it is the mean of the
    monthly sums of the positive amounts over every calendar month from the
    first to the last month that holds a positive amount, a month without
    one counting with the sum 0; this is the mean over the months that hold
    a positive amount when no month in between lacks one.  Otherwise it is
    0.  Sums and means are the floats that pandas computes.  For three
    months with the sums 800, -300 and 1400 the estimate is 1100, the mean
    of 800 and 1400. *)
Theorem income_estimate :
  (forall df,
      let l := usable df in
      (positive_months l <> [] ->
       compute_monthly_income df = Series_mean (positive_months l)) /\
      (positive_months l = [] -> credits_only l <> [] ->
       compute_monthly_income df = Series_mean (credit_bins l)) /\
      (positive_months l = [] -> credits_only l = [] ->
       compute_monthly_income df = 0) /\
      (positive_months l <> [] \/
       month_keys (credits_only l) = month_range (credits_only l) ->
       compute_monthly_income df = estimate_spec df)) /\
  (bucket_sums (usable Examples.three_months) = [800; -300; 1400] /\
   compute_monthly_income Examples.three_months == (800 + 1400) / 2).
Proof.
  split; [|split; vm_compute; reflexivity].
  intros df l. subst l.
  split; [apply estimate_main|]. split; [apply estimate_fallback|].
  split; [apply estimate_zero|].
  intro Hcase. unfold estimate_spec. cbv zeta.
  destruct (positive_months (usable df)) as [|s ss] eqn:Epos.
  - destruct Hcase as [Hcase|Hcase]; [congruence|].
    cbn [is_nil negb].
    assert (Hb : bucket_sums (credits_only (usable df)) = credit_bins (usable df)).
    { unfold bucket_sums, credit_bins. rewrite Hcase. reflexivity. }
    rewrite Hb.
    destruct (credits_only (usable df)) as [|c cs] eqn:Ec.
    + rewrite (estimate_zero df Epos Ec). unfold credit_bins. rewrite Ec. reflexivity.
    + assert (Hne : credits_only (usable df) <> []) by (rewrite Ec; discriminate).
      rewrite (estimate_fallback df Epos Hne).
      assert (Hbn := credit_bins_nonempty _ Hne).
      destruct (credit_bins (usable df)); [congruence|reflexivity].
  - cbn [is_nil negb]. rewrite <- Epos. apply estimate_main.
    rewrite Epos. discriminate.
Qed.

Lemma income_estimate_witness :
  compute_monthly_income Examples.three_months
  = Series_mean (positive_months (usable Examples.three_months)) /\
  compute_monthly_income Examples.three_months
  = estimate_spec Examples.three_months.
Proof.
  destruct income_estimate as [H _].
  destruct (H Examples.three_months) as [Hpos [_ [_ Hspec]]].
  split.
  - apply Hpos. vm_compute. discriminate.
  - apply Hspec. left. vm_compute. discriminate.
Defined.

(** C5, counterexample: no month of the frame has a positive sum, January
    and March hold a credit of 100 each and February holds none.  The mean
    of the monthly sums of the positive amounts is 100; the estimate of the
    code is the float nearest to 200/3, the credits averaged over the three
    months. *)
Lemma credit_gap_estimate_differs :
  positive_months (usable Examples.credit_gap) = [] /\
  bucket_sums (credits_only (usable Examples.credit_gap)) = [100; 100] /\
  credit_bins (usable Examples.credit_gap) = [100; 0; 100] /\
  estimate_spec Examples.credit_gap == 100 /\
  compute_monthly_income Examples.credit_gap = round64 (200 # 3) /\
  ~ compute_monthly_income Examples.credit_gap == estimate_spec Examples.credit_gap.
Proof.
  repeat split; try (vm_compute; reflexivity).
  vm_compute. discriminate.
Qed.

(** The sum of a month is a sum of floats: amounts of 1.12, 0.07 and -1.19
    in one month leave a sum that is positive, about 2.2e-16, and that is
    the estimate. *)
Lemma month_sum_is_rounded :
  let l := [round64 1.12; round64 0.07; round64 (-1.19)] in
  0 < group_sum l /\
  compute_monthly_income
    (table (map (fun a => Examples.txn 2025 1 5 "x" a) l)) = group_sum l.
Proof. split; vm_compute; reflexivity. Qed.


(* ================================================================== *)
(** * Further properties of the scan *)
(* ================================================================== *)

Lemma in_set_iff (s : string) (l : list string) : in_set s l = true <-> In s l.
Proof.
  unfold in_set. rewrite existsb_exists. split.
  - intros [x [Hin Heq]]. apply String.eqb_eq in Heq. subst. exact Hin.
  - intro H. exists s. split; [exact H|apply String.eqb_refl].
Qed.

Lemma in_set_false_iff (s : string) (l : list string) :
  negb (in_set s l) = true <-> ~ In s l.
Proof.
  rewrite negb_true_iff, <- in_set_iff.
  destruct (in_set s l); split; intro H; congruence.
Qed.

(** X2: without a date column (or without a description column) the set of
    recent payees is empty; so in a frame that has descriptions and no date
    column every debit with a payee key that is not empty is flagged as a
    new payee. *)
Theorem no_date_column_all_new :
  forall df k thr z row a,
    has_date df = false ->
    has_description df = true ->
    payee_key (description row) <> ""%string ->
    amount row = Some a -> a < 0 ->
    recent_payees df k = [] /\
    fires new_payee df (scan_context df k) thr z row.
Proof.
  intros df k thr z row a Hd Hdesc Hkey Ha Hneg.
  assert (Hrecent : recent_payees df k = []).
  { unfold recent_payees. rewrite Hd, andb_false_r. reflexivity. }
  split; [exact Hrecent|].
  apply fires_new_payee. unfold new_payee_check, row_payee, scan_context.
  rewrite Hdesc. cbn [recent monthly_income]. rewrite Hrecent, Ha.
  rewrite !andb_true_iff, string_eqb_empty, orb_true_iff.
  split; [split; [exact Hkey|reflexivity]|].
  left. apply Qltb_lt. exact Hneg.
Qed.

Lemma no_date_column_all_new_witness :
  recent_payees MoreExamples.undated 6 = [] /\
  fires new_payee MoreExamples.undated (scan_context MoreExamples.undated 6)
        0.5 3 (mkRow None (Some "rent") None (Some (-600))).
Proof.
  apply (no_date_column_all_new MoreExamples.undated 6%Z 0.5 3
           (mkRow None (Some "rent") None (Some (-600))) (-600)).
  - reflexivity.
  - reflexivity.
  - vm_compute. discriminate.
  - reflexivity.
  - reflexivity.
Defined.

Lemma dropna_all_none {A} (l : list (option A)) :
  (forall x, In x l -> x = None) -> dropna l = [].
Proof.
  induction l as [|x l IH]; intro H; [reflexivity|].
  rewrite (H x (or_introl eq_refl)). simpl. apply IH.
  intros y Hy. apply H. right. exact Hy.
Qed.

(** X3: when the frame has a date and a description column and every date
    is missing, the whole frame counts as recent: no row of the frame that
    has a description is flagged as a new payee. *)
Theorem all_dates_missing_none_new :
  forall df k thr z row s,
    has_date df = true ->
    has_description df = true ->
    (forall r, In r (rows df) -> date r = None) ->
    In row (rows df) ->
    description row = Some s ->
    ~ fires new_payee df (scan_context df k) thr z row.
Proof.
  intros df k thr z row s Hd Hdesc Hnat Hin Hs Hfires.
  apply (proj1 (fires_new_payee _ _ _ _ _)) in Hfires.
  unfold new_payee_check, row_payee, scan_context in Hfires.
  rewrite Hdesc in Hfires. cbn [recent monthly_income] in Hfires.
  rewrite !andb_true_iff, in_set_false_iff in Hfires.
  destruct Hfires as [[_ Hout] _]. apply Hout. clear Hout.
  unfold recent_payees. rewrite Hdesc, Hd. cbn [andb].
  rewrite (dropna_all_none (map date (rows df))).
  - rewrite Hs. unfold payee_key, str_cell.
    apply (in_map (fun s0 => PyStr.lower (PyStr.strip s0))).
    apply in_dropna. rewrite <- Hs. apply in_map. exact Hin.
  - intros x Hx. apply in_map_iff in Hx. destruct Hx as [r [<- Hr]].
    apply Hnat. exact Hr.
Qed.

Lemma all_dates_missing_none_new_witness :
  ~ fires new_payee MoreExamples.all_nat (scan_context MoreExamples.all_nat 6)
      0.5 3 (mkRow None (Some "Rent") (Some "") (Some (-600))).
Proof.
  apply (all_dates_missing_none_new MoreExamples.all_nat 6%Z 0.5 3
           (mkRow None (Some "Rent") (Some "") (Some (-600))) "Rent").
  - reflexivity.
  - reflexivity.
  - intros r Hr. simpl in Hr. destruct Hr as [<-|[<-|[]]]; reflexivity.
  - simpl. left. reflexivity.
  - reflexivity.
Defined.

Lemma scan_rows_length df ctx thr z (rs : list Row) (i : nat) :
  (List.length (scan_rows df ctx thr z i rs) <= List.length rs)%nat.
Proof.
  revert i. induction rs as [|r rs IH]; intro i; simpl; [lia|].
  specialize (IH (S i)).
  destruct (row_reasons df ctx thr z r); simpl; lia.
Qed.

Lemma increasing_nodup (l : list Flag) :
  StronglySorted (fun f g => (index f < index g)%nat) l -> NoDup (map index l).
Proof.
  intro H. induction H as [|f l Hs IH Hf]; simpl; constructor; [|exact IH].
  intro Hin. apply in_map_iff in Hin. destruct Hin as [g [Hg Hin]].
  rewrite Forall_forall in Hf. specialize (Hf g Hin). lia.
Qed.

(** X4: every flag that the scan returns points at a row of the frame: its
    label is the position of a row, it carries that row, the amount of that
    row and at least one reason; no two flags have the same label, and there
    are at most as many flags as rows. *)
Theorem flags_are_rows :
  forall d thr z k fs,
    detect_suspicious_transactions (Some d) thr z k = Flags fs ->
    (forall f, In f fs ->
       reasons f <> [] /\
       (index f < List.length (rows d))%nat /\
       nth_error (rows d) (index f) = Some (flag_row f) /\
       flag_amount f = amount (flag_row f)) /\
    NoDup (map index fs) /\
    (List.length fs <= List.length (rows d))%nat.
Proof.
  intros d thr z k fs Hd. apply detect_flags in Hd.
  destruct Hd as [->|[d' [Hd' [_ ->]]]].
  - split; [intros f []|]. split; [constructor|simpl; lia].
  - injection Hd' as <-.
    set (flags := scan_rows d (scan_context d k) thr z 0 (rows d)).
    assert (Hperm := sorted_perm severity_score flags).
    split; [|split].
    + intros f Hin. apply (Permutation_in _ Hperm) in Hin.
      apply in_scan_rows in Hin. destruct Hin as [j [row [Hn [Hne ->]]]].
      simpl. split; [exact Hne|]. split; [|split; [exact Hn|reflexivity]].
      apply nth_error_Some. congruence.
    + apply (Permutation_NoDup (l := map index flags)).
      * apply Permutation_map. symmetry. exact Hperm.
      * apply increasing_nodup. apply scan_rows_increasing.
    + rewrite (Permutation_length Hperm). apply scan_rows_length.
Qed.

Lemma flags_are_rows_witness :
  NoDup (map index [ mkFlag 4 Examples.car (Some (-5000)) [unaffordable; anomalous_amount];
                     mkFlag 0 Examples.old_shop (Some (-5)) [new_payee] ]) /\
  (2 <= List.length (rows Examples.purchases))%nat.
Proof.
  destruct (flags_are_rows Examples.purchases 0.5 1.5 6%Z
              [ mkFlag 4 Examples.car (Some (-5000)) [unaffordable; anomalous_amount];
                mkFlag 0 Examples.old_shop (Some (-5)) [new_payee] ])
    as [_ [Hnd Hlen]].
  - vm_compute. reflexivity.
  - split; [exact Hnd|exact Hlen].
Defined.

Lemma occurrences_head (r : Reason) (l : list Reason) :
  (1 <= occurrences r (r :: l))%nat.
Proof.
  unfold occurrences. simpl. destruct (Reason_eq_dec r r); [lia|congruence].
Qed.

(** X5: the score of a returned flag is a multiple of 10 between 10 and
    180. *)
Theorem score_bounds :
  forall df thr z k fs f,
    detect_suspicious_transactions df thr z k = Flags fs ->
    In f fs ->
    (10 <= score f <= 180)%Z /\ (score f mod 10 = 0)%Z.
Proof.
  intros df thr z k fs f Hd Hin.
  destruct (in_detect_flags _ _ _ _ _ _ Hd Hin) as [d [row [_ [_ [_ [Hr Hne]]]]]].
  assert (Hu := row_reasons_once d (scan_context d k) thr z row unaffordable).
  assert (Ha := row_reasons_once d (scan_context d k) thr z row anomalous_amount).
  assert (Hn := row_reasons_once d (scan_context d k) thr z row new_payee).
  assert (Hf := row_reasons_once d (scan_context d k) thr z row freq_small_trans).
  rewrite <- Hr in Hu, Ha, Hn, Hf.
  rewrite score_counts.
  assert (Hsome : (1 <= occurrences unaffordable (reasons f)
                     + occurrences anomalous_amount (reasons f)
                     + occurrences new_payee (reasons f)
                     + occurrences freq_small_trans (reasons f))%nat).
  { destruct (reasons f) as [|r l]; [congruence|].
    assert (H1 := occurrences_head r l). destruct r; lia. }
  split; [lia|].
  replace (100 * Z.of_nat (occurrences unaffordable (reasons f))
           + 50 * Z.of_nat (occurrences anomalous_amount (reasons f))
           + 20 * Z.of_nat (occurrences new_payee (reasons f))
           + 10 * Z.of_nat (occurrences freq_small_trans (reasons f)))%Z
    with ((10 * Z.of_nat (occurrences unaffordable (reasons f))
           + 5 * Z.of_nat (occurrences anomalous_amount (reasons f))
           + 2 * Z.of_nat (occurrences new_payee (reasons f))
           + Z.of_nat (occurrences freq_small_trans (reasons f))) * 10)%Z by lia.
  apply Z.mod_mul. lia.
Qed.

Lemma score_bounds_witness :
  let small := mkFlag 0 Examples.old_shop (Some (-5)) [new_payee] in
  (10 <= score small <= 180)%Z /\ (score small mod 10 = 0)%Z.
Proof.
  intro small.
  apply (score_bounds (Some Examples.purchases) 0.5 1.5 6%Z
           [ mkFlag 4 Examples.car (Some (-5000)) [unaffordable; anomalous_amount];
             mkFlag 0 Examples.old_shop (Some (-5)) [new_payee] ]).
  - vm_compute. reflexivity.
  - simpl. right. left. reflexivity.
Defined.

(** X6: lowering a threshold never removes a flag of its heuristic: a row
    that is unaffordable at a threshold is unaffordable at every smaller
    one, and a row that is anomalous at an [outlier_z] is anomalous at every
    smaller one. *)
Theorem thresholds_monotone :
  forall df ctx thr thr' z z' row,
    thr' <= thr -> z' <= z ->
    (fires unaffordable df ctx thr z row -> fires unaffordable df ctx thr' z' row) /\
    (fires anomalous_amount df ctx thr z row ->
     fires anomalous_amount df ctx thr' z' row).
Proof.
  intros df ctx thr thr' z z' row Hthr Hz. split.
  - rewrite !fires_unaffordable. unfold unaffordable_check, amt_abs_gt.
    destruct (amount row) as [a|]; [|rewrite !andb_false_r; auto].
    rewrite !andb_true_iff, !Qltb_lt. intros [[Hi Ha] Hb].
    split; [split; assumption|].
    apply Qle_lt_trans with (fmul thr (monthly_income ctx)); [|exact Hb].
    apply round64_mono.
    apply Qmult_le_compat_r; [exact Hthr|]. apply Qlt_le_weak. exact Hi.
  - rewrite !fires_anomalous_amount. unfold is_outlier.
    destruct (amount row) as [a|]; [|auto].
    rewrite !andb_true_iff, !Qltb_lt, !Qleb_le.
    intros [Hv Hk]. split; [exact Hv|].
    apply Qle_trans with z; assumption.
Qed.

Lemma thresholds_monotone_witness :
  (fires unaffordable Examples.salary_month (scan_context Examples.salary_month 6)
         0.5 3 (Examples.txn 2025 1 2 "rent" (-600)) ->
   fires unaffordable Examples.salary_month (scan_context Examples.salary_month 6)
         0.3 2 (Examples.txn 2025 1 2 "rent" (-600))) /\
  (fires anomalous_amount Examples.salary_month (scan_context Examples.salary_month 6)
         0.5 3 (Examples.txn 2025 1 2 "rent" (-600)) ->
   fires anomalous_amount Examples.salary_month (scan_context Examples.salary_month 6)
         0.3 2 (Examples.txn 2025 1 2 "rent" (-600))).
Proof.
  apply thresholds_monotone; vm_compute; discriminate.
Defined.

(* ================================================================== *)
(** * Further properties of the income estimate *)
(* ================================================================== *)

Lemma count_pos (l : list Q) : l <> [] -> 0 < count l.
Proof.
  intro H. unfold count. change 0 with (inject_Z 0). rewrite <- Zlt_Qlt.
  destruct l; [congruence|]. cbn [List.length]. lia.
Qed.

(** The mean of amounts none of which is negative and one of which is
    positive is positive. *)
Lemma Series_mean_pos (l : list Q) :
  Forall (fun x => 0 <= x) l -> Exists (fun x => 0 < x) l -> 0 < Series_mean l.
Proof.
  intros Hall Hex. unfold Series_mean, fdiv. apply round64_pos.
  apply Qlt_shift_div_l.
  - apply count_pos. intros ->. inversion Hex.
  - rewrite Qmult_0_l. apply numpy_sum_pos; assumption.
Qed.

Lemma positive_months_positive (l : list (Timestamp * Q)) :
  Forall (fun x => 0 < x) (positive_months l).
Proof.
  unfold positive_months. apply Forall_forall. intros x Hx.
  apply filter_In in Hx. apply Qltb_lt. apply Hx.
Qed.

Lemma in_month_amounts (l : list (Timestamp * Q)) (m : Z) (a : Q) :
  In a (month_amounts l m) <-> exists d, In (d, a) l /\ entry_month (d, a) = m.
Proof.
  unfold month_amounts. rewrite in_map_iff. split.
  - intros [[d a'] [Ha He]]. cbn [snd] in Ha. subst a'.
    apply filter_In in He. destruct He as [He Hm]. apply Z.eqb_eq in Hm.
    exists d. auto.
  - intros [d [He Hm]]. exists (d, a). split; [reflexivity|].
    apply filter_In. split; [exact He|]. apply Z.eqb_eq. exact Hm.
Qed.

(** The sums of the months of the credits: none is negative, and the
    month of a credit has a positive sum. *)
Lemma credit_bins_sign (l : list (Timestamp * Q)) :
  Forall (fun x => 0 <= x) (credit_bins l) /\
  (credits_only l <> [] -> Exists (fun x => 0 < x) (credit_bins l)).
Proof.
  assert (Hpos : forall m a, In a (month_amounts (by_date (credits_only l)) m) -> 0 < a).
  { intros m a Ha. apply in_month_amounts in Ha. destruct Ha as [d [He _]].
    apply (Permutation_in _ (by_date_perm _)) in He.
    apply filter_In in He. apply Qltb_lt. apply He. }
  split.
  - unfold credit_bins. apply Forall_map. apply Forall_forall. intros m _.
    apply group_sum_nonneg. apply Forall_forall. intros a Ha.
    apply Qlt_le_weak. exact (Hpos m a Ha).
  - intro Hne. destruct (credits_only l) as [|[d a] c] eqn:Ec; [congruence|].
    apply Exists_exists. exists (month_sum (by_date ((d, a) :: c)) (entry_month (d, a))).
    split.
    + unfold credit_bins. rewrite Ec. apply in_map.
      apply month_range_covers. left. reflexivity.
    + assert (Hin : In a (month_amounts (by_date ((d, a) :: c)) (entry_month (d, a)))).
      { apply in_month_amounts. exists d. split; [|reflexivity].
        apply (Permutation_in _ (Permutation_sym (by_date_perm _))).
        left. reflexivity. }
      apply group_sum_pos.
      * apply Forall_forall. intros x Hx. apply Qlt_le_weak. exact (Hpos _ x Hx).
      * apply Exists_exists. exists a. split; [exact Hin|exact (Hpos _ a Hin)].
Qed.

(** A month with a positive sum holds a positive amount. *)
Lemma positive_sum_has_credit (l : list (Timestamp * Q)) (m : Z) :
  0 < month_sum l m -> exists e, In e l /\ 0 < snd e.
Proof.
  intro H.
  destruct (Exists_dec (fun a => 0 < a) (month_amounts l m)) as [Hex|Hno].
  - intro a. destruct (Qlt_le_dec 0 a) as [Hp|Hn]; [left; exact Hp|right; lra].
  - apply Exists_exists in Hex. destruct Hex as [a [Ha Hp]].
    apply in_month_amounts in Ha. destruct Ha as [d [He _]].
    exists (d, a). auto.
  - exfalso. assert (Hle : month_sum l m <= 0).
    { apply group_sum_nonpos. apply Forall_forall. intros a Ha.
      destruct (Qlt_le_dec 0 a) as [Hp|Hn]; [|exact Hn].
      exfalso. apply Hno. apply Exists_exists. exists a. auto. }
    lra.
Qed.

(** The estimate is positive exactly when a dated amount is positive, and
    zero otherwise. *)
Lemma estimate_sign (df : DataFrame) :
  ((exists e, In e (usable df) /\ 0 < snd e) -> 0 < compute_monthly_income df) /\
  (~ (exists e, In e (usable df) /\ 0 < snd e) -> compute_monthly_income df = 0).
Proof.
  split.
  - intros [e [He Hpos]].
    destruct (positive_months (usable df)) as [|s ss] eqn:Ep.
    + assert (Hc : credits_only (usable df) <> []).
      { intro Hnil. assert (Hin : In e (credits_only (usable df))).
        { apply filter_In. split; [exact He|apply Qltb_lt; exact Hpos]. }
        rewrite Hnil in Hin. destruct Hin. }
      rewrite (estimate_fallback df Ep Hc).
      destruct (credit_bins_sign (usable df)) as [Hall Hex].
      apply Series_mean_pos; [exact Hall|exact (Hex Hc)].
    + assert (Hne : positive_months (usable df) <> []) by (rewrite Ep; discriminate).
      rewrite (estimate_main df Hne).
      assert (Hall := positive_months_positive (usable df)).
      apply Series_mean_pos.
      * apply Forall_impl with (2 := Hall). intros a Ha. apply Qlt_le_weak. exact Ha.
      * rewrite Ep in *. inversion Hall; subst. left. assumption.
  - intro Hno.
    assert (Hc : credits_only (usable df) = []).
    { destruct (credits_only (usable df)) as [|e l] eqn:Ec; [reflexivity|].
      exfalso. apply Hno. exists e.
      assert (Hin : In e (credits_only (usable df))) by (rewrite Ec; left; reflexivity).
      apply filter_In in Hin. destruct Hin as [Hin Hp].
      split; [exact Hin|apply Qltb_lt; exact Hp]. }
    assert (Hp : positive_months (usable df) = []).
    { destruct (positive_months (usable df)) as [|s ss] eqn:Ep; [reflexivity|].
      exfalso. apply Hno.
      assert (Hin : In s (positive_months (usable df))) by (rewrite Ep; left; reflexivity).
      unfold positive_months, bucket_sums in Hin.
      apply filter_In in Hin. destruct Hin as [Hin Hs].
      apply in_map_iff in Hin. destruct Hin as [m [<- _]].
      apply Qltb_lt in Hs. apply positive_sum_has_credit in Hs.
      destruct Hs as [e [He Hpos]]. exists e. split; [|exact Hpos].
      apply (Permutation_in _ (by_date_perm _)). exact He. }
    apply estimate_zero; assumption.
Qed.

Lemma in_dated_amounts (rs : list Row) (d : Timestamp) (a : Q) :
  In (d, a) (dated_amounts rs) <->
  exists row, In row rs /\ date row = Some d /\ amount row = Some a.
Proof.
  induction rs as [|r rs IH]; simpl.
  - split; [tauto|]. intros [row [[] _]].
  - destruct (date r) as [d'|] eqn:Ed, (amount r) as [a'|] eqn:Ea; simpl;
      rewrite IH; split.
    + intros [H|[row [Hin H]]].
      * injection H as <- <-. exists r. auto.
      * exists row. auto.
    + intros [row [[<-|Hin] [Hd Ha]]].
      * left. congruence.
      * right. exists row. auto.
    + intros [row [Hin H]]. exists row. auto.
    + intros [row [[<-|Hin] [Hd Ha]]]; [congruence|]. exists row. auto.
    + intros [row [Hin H]]. exists row. auto.
    + intros [row [[<-|Hin] [Hd Ha]]]; [congruence|]. exists row. auto.
    + intros [row [Hin H]]. exists row. auto.
    + intros [row [[<-|Hin] [Hd Ha]]]; [congruence|]. exists row. auto.
Qed.

(** X7: the income estimate is never negative; it is positive exactly when
    the frame has a date and an amount column and some row with a date has a
    positive amount. *)
Theorem income_estimate_sign :
  forall df,
    0 <= compute_monthly_income df /\
    (0 < compute_monthly_income df <->
     has_date df = true /\ has_amount df = true /\
     exists row d a,
       In row (rows df) /\ date row = Some d /\ amount row = Some a /\ 0 < a).
Proof.
  intro df. destruct (estimate_sign df) as [Hpos Hzero].
  assert (Hrows : (exists e, In e (usable df) /\ 0 < snd e) <->
                  has_date df = true /\ has_amount df = true /\
                  exists row d a,
                    In row (rows df) /\ date row = Some d /\
                    amount row = Some a /\ 0 < a).
  { unfold usable. destruct (has_date df), (has_amount df); cbn [andb].
    - split.
      + intros [[d a] [Hin Hp]]. apply in_dated_amounts in Hin.
        destruct Hin as [row [Hin [Hd Ha]]].
        split; [reflexivity|]. split; [reflexivity|]. exists row, d, a. auto.
      + intros [_ [_ [row [d [a [Hin [Hd [Ha Hp]]]]]]]].
        exists (d, a). split; [|exact Hp].
        apply in_dated_amounts. exists row. auto.
    - split; [intros [e [He _]]; destruct He|intros [_ [H _]]; discriminate].
    - split; [intros [e [He _]]; destruct He|intros [H _]; discriminate].
    - split; [intros [e [He _]]; destruct He|intros [H _]; discriminate]. }
  assert (Hdec : (exists e, In e (usable df) /\ 0 < snd e) \/
                 ~ (exists e, In e (usable df) /\ 0 < snd e)).
  { destruct (credits_only (usable df)) as [|e l] eqn:Ec.
    - right. intros [e [He Hp]].
      assert (Hin : In e (credits_only (usable df))).
      { apply filter_In. split; [exact He|apply Qltb_lt; exact Hp]. }
      rewrite Ec in Hin. destruct Hin.
    - left. exists e.
      assert (Hin : In e (credits_only (usable df))) by (rewrite Ec; left; reflexivity).
      apply filter_In in Hin. destruct Hin as [Hin Hp].
      split; [exact Hin|apply Qltb_lt; exact Hp]. }
  split.
  - destruct Hdec as [H|H].
    + apply Qlt_le_weak. apply Hpos. exact H.
    + rewrite (Hzero H). apply Qle_refl.
  - rewrite <- Hrows. split; [|exact Hpos].
    intro Hlt. destruct Hdec as [H|H]; [exact H|].
    rewrite (Hzero H) in Hlt. exfalso. apply (Qlt_irrefl 0). exact Hlt.
Qed.

(** X8: in a frame without a positive amount the income estimate is 0, so
    the scan flags no row as unaffordable, whatever the threshold. *)
Theorem debits_only_never_unaffordable :
  forall d thr z k fs f,
    (forall row a, In row (rows d) -> amount row = Some a -> a <= 0) ->
    detect_suspicious_transactions (Some d) thr z k = Flags fs ->
    In f fs ->
    compute_monthly_income d == 0 /\ ~ In unaffordable (reasons f).
Proof.
  intros d thr z k fs f Hdeb Hd Hin.
  assert (Hzero : compute_monthly_income d == 0).
  { rewrite (proj2 (estimate_sign d)); [reflexivity|]. intros [[t a] [He Hp]].
    unfold usable in He. destruct (has_date d && has_amount d); [|destruct He].
    apply in_dated_amounts in He. destruct He as [row [Hrow [_ Ha]]].
    specialize (Hdeb row a Hrow Ha). simpl in Hp. lra. }
  split; [exact Hzero|].
  destruct (in_detect_flags _ _ _ _ _ _ Hd Hin) as [d' [row [Hd' [_ [_ [Hr _]]]]]].
  injection Hd' as <-. rewrite Hr. intro Hu.
  apply (proj1 (fires_unaffordable _ _ _ _ _)) in Hu.
  unfold unaffordable_check, scan_context in Hu. cbn [monthly_income] in Hu.
  rewrite !andb_true_iff, Qltb_lt in Hu. destruct Hu as [[Hi _] _].
  rewrite Hzero in Hi. exact (Qlt_irrefl 0 Hi).
Qed.

Lemma debits_only_never_unaffordable_witness :
  compute_monthly_income Examples.shop_visits == 0 /\
  ~ In unaffordable
       (reasons (mkFlag 0 (Examples.txn 2025 1 1 "Shop" (-10)) (Some (-10))
                        [freq_small_trans])).
Proof.
  apply (debits_only_never_unaffordable Examples.shop_visits 0.5 3 6%Z
           [ mkFlag 0 (Examples.txn 2025 1 1 "Shop" (-10)) (Some (-10)) [freq_small_trans];
             mkFlag 1 (Examples.txn 2025 1 2 "shop " (-10)) (Some (-10)) [freq_small_trans];
             mkFlag 2 (Examples.txn 2025 1 3 " SHOP" (-10)) (Some (-10)) [freq_small_trans];
             mkFlag 3 (Examples.txn 2025 1 8 "shop" (-10)) (Some (-10)) [freq_small_trans];
             mkFlag 4 (Examples.txn 2025 1 28 "shop" (-10)) (Some (-10)) [freq_small_trans];
             mkFlag 5 (Examples.txn 2025 8 1 "shop" (-10)) (Some (-10)) [freq_small_trans] ]).
  - intros row a Hin Ha. simpl in Hin.
    destruct Hin as [<-|[<-|[<-|[<-|[<-|[<-|[]]]]]]];
      injection Ha as <-; vm_compute; discriminate.
  - vm_compute. reflexivity.
  - simpl. left. reflexivity.
Defined.

(* ================================================================== *)
(** * The burst heuristic flags whole groups *)
(* ================================================================== *)

Lemma has_reason_iff (r : Reason) (f : Flag) :
  has_reason r f = true <-> In r (reasons f).
Proof.
  unfold has_reason. rewrite existsb_exists. split.
  - intros [x [Hin Hx]]. destruct (Reason_eq_dec x r); [subst; exact Hin|discriminate].
  - intro H. exists r. split; [exact H|].
    destruct (Reason_eq_dec r r); [reflexivity|congruence].
Qed.

Lemma filter_length_perm {A} (p : A -> bool) (l l' : list A) :
  Permutation l l' -> List.length (filter p l) = List.length (filter p l').
Proof.
  intro H. induction H as [|x l l' _ IH|x y l|l l' l'' _ IH1 _ IH2]; simpl.
  - reflexivity.
  - destruct (p x); simpl; rewrite IH; reflexivity.
  - destruct (p x), (p y); reflexivity.
  - congruence.
Qed.

Lemma filter_length_le {A} (p q : A -> bool) (l : list A) :
  (forall x, In x l -> q x = true -> p x = true) ->
  (List.length (filter q l) <= List.length (filter p l))%nat.
Proof.
  induction l as [|x l IH]; intro H; simpl; [lia|].
  assert (IH' : (List.length (filter q l) <= List.length (filter p l))%nat).
  { apply IH. intros y Hy. apply H. right. exact Hy. }
  destruct (q x) eqn:Eq.
  - rewrite (H x (or_introl eq_refl) Eq). simpl. lia.
  - destruct (p x); simpl; lia.
Qed.

(** The flags with the burst reason are as many as the rows that pass the
    burst test. *)
Lemma burst_flags_count df ctx thr z (rs : list Row) (i : nat) :
  List.length (filter (has_reason freq_small_trans) (scan_rows df ctx thr z i rs))
  = List.length (filter (fun row => burst df (row_payee df row)) rs).
Proof.
  revert i. induction rs as [|r rs IH]; intro i; [reflexivity|].
  assert (Hb : forall j, has_reason freq_small_trans
                 (mkFlag j r (amount r) (row_reasons df ctx thr z r))
               = burst df (row_payee df r)).
  { intro j. apply eq_true_iff_eq. rewrite has_reason_iff. cbn [reasons].
    apply fires_freq_small_trans. }
  cbn [scan_rows filter].
  destruct (row_reasons df ctx thr z r) as [|a l] eqn:E.
  - specialize (Hb i). unfold has_reason in Hb. cbn [reasons existsb] in Hb.
    rewrite <- Hb. apply IH.
  - cbn [filter]. rewrite (Hb i).
    destruct (burst df (row_payee df r)); cbn [List.length]; rewrite IH; reflexivity.
Qed.

(** X9: the burst reason never comes alone: when a returned flag carries
    [freq_small_trans], at least four returned flags carry it. *)
Theorem burst_flags_at_least_four :
  forall d thr z k fs f,
    detect_suspicious_transactions (Some d) thr z k = Flags fs ->
    In f fs ->
    In freq_small_trans (reasons f) ->
    (4 <= List.length (filter (has_reason freq_small_trans) fs))%nat.
Proof.
  intros d thr z k fs f Hd Hin Hfreq.
  destruct (in_detect_flags _ _ _ _ _ _ Hd Hin) as [d' [row [Hd' [_ [_ [Hr _]]]]]].
  injection Hd' as <-.
  destruct (detect_flags _ _ _ _ _ Hd) as [->|[d' [Hd' [_ ->]]]]; [destruct Hin|].
  injection Hd' as <-.
  rewrite (filter_length_perm _ _ _ (sorted_perm severity_score _)).
  rewrite burst_flags_count.
  rewrite Hr in Hfreq. apply (proj1 (fires_freq_small_trans _ _ _ _ _)) in Hfreq.
  set (desc := row_payee d row) in *.
  assert (Hb := Hfreq). unfold burst in Hb. cbv zeta in Hb.
  rewrite !andb_true_iff, !Nat.leb_le in Hb.
  destruct Hb as [[Hdate Hne] [[Hfour _] _]].
  assert (Hdesc : has_description d = true).
  { unfold desc, row_payee in Hne. destruct (has_description d); [reflexivity|].
    discriminate. }
  apply Nat.le_trans with (List.length (payee_rows (rows d) desc)); [exact Hfour|].
  unfold payee_rows. apply filter_length_le.
  intros r _ Hkey. apply String.eqb_eq in Hkey.
  unfold row_payee. rewrite Hdesc, Hkey. exact Hfreq.
Qed.

Lemma burst_flags_at_least_four_witness :
  let fs :=
    [ mkFlag 0 (Examples.txn 2025 1 1 "Shop" (-10)) (Some (-10)) [freq_small_trans];
      mkFlag 1 (Examples.txn 2025 1 2 "shop " (-10)) (Some (-10)) [freq_small_trans];
      mkFlag 2 (Examples.txn 2025 1 3 " SHOP" (-10)) (Some (-10)) [freq_small_trans];
      mkFlag 3 (Examples.txn 2025 1 8 "shop" (-10)) (Some (-10)) [freq_small_trans];
      mkFlag 4 (Examples.txn 2025 1 28 "shop" (-10)) (Some (-10)) [freq_small_trans];
      mkFlag 5 (Examples.txn 2025 8 1 "shop" (-10)) (Some (-10)) [freq_small_trans] ] in
  (4 <= List.length (filter (has_reason freq_small_trans) fs))%nat.
Proof.
  intro fs.
  apply (burst_flags_at_least_four Examples.shop_visits 0.5 3 6%Z fs
           (mkFlag 0 (Examples.txn 2025 1 1 "Shop" (-10)) (Some (-10)) [freq_small_trans])).
  - vm_compute. reflexivity.
  - simpl. left. reflexivity.
  - simpl. left. reflexivity.
Defined.

(* ================================================================== *)
(** * Facts on strings *)
(* ================================================================== *)

Lemma sapp_assoc (a b c : string) : ((a ++ b) ++ c = a ++ (b ++ c))%string.
Proof. induction a as [|x a IH]; simpl; [reflexivity|]. rewrite IH. reflexivity. Qed.

Lemma sapp_nil_r (a : string) : (a ++ "" = a)%string.
Proof. induction a as [|x a IH]; simpl; [reflexivity|]. rewrite IH. reflexivity. Qed.

Lemma drop_prefix_iff (p s r : string) :
  PyStr.drop_prefix p s = Some r <-> s = (p ++ r)%string.
Proof.
  revert s. induction p as [|a p IH]; intro s; simpl.
  - split; intro H; congruence.
  - destruct s as [|b s].
    + split; intro H; discriminate.
    + destruct (Ascii.eqb_spec a b) as [->|Hne].
      * rewrite IH. split; intro H; congruence.
      * split; intro H; [discriminate|]. congruence.
Qed.

Lemma startswith_iff (s p : string) :
  PyStr.startswith s p = true <-> exists r, s = (p ++ r)%string.
Proof.
  unfold PyStr.startswith. destruct (PyStr.drop_prefix p s) as [r|] eqn:E.
  - split; [|reflexivity]. intros _. exists r. apply drop_prefix_iff. exact E.
  - split; [discriminate|]. intros [r Hr]. apply drop_prefix_iff in Hr. congruence.
Qed.

(** [sub in s] holds exactly when [s] is some text, [sub], some text. *)
Lemma contains_iff (sub s : string) :
  PyStr.contains sub s = true <->
  exists pre post, s = (pre ++ sub ++ post)%string.
Proof.
  induction s as [|c s IH].
  - cbn [PyStr.contains]. rewrite orb_false_r, startswith_iff. split.
    + intros [r Hr]. exists "", r. exact Hr.
    + intros [pre [post H]]. destruct pre; [exists post; exact H|discriminate].
  - cbn [PyStr.contains]. rewrite orb_true_iff, startswith_iff, IH. split.
    + intros [[r Hr]|[pre [post H]]].
      * exists "", r. exact Hr.
      * exists (String c pre), post. simpl. rewrite H. reflexivity.
    + intros [[|x pre] [post H]].
      * left. exists post. exact H.
      * right. simpl in H. injection H as _ H. exists pre, post. exact H.
Qed.

Lemma contains_app_l (sub a b : string) :
  PyStr.contains sub a = true -> PyStr.contains sub (a ++ b) = true.
Proof.
  rewrite !contains_iff. intros [pre [post ->]].
  exists pre, (post ++ b)%string. rewrite !sapp_assoc. reflexivity.
Qed.

Lemma contains_app_r (sub a b : string) :
  PyStr.contains sub b = true -> PyStr.contains sub (a ++ b) = true.
Proof.
  rewrite !contains_iff. intros [pre [post ->]].
  exists (a ++ pre)%string, post. rewrite !sapp_assoc. reflexivity.
Qed.

Lemma contains_trans (a b s : string) :
  PyStr.contains a b = true -> PyStr.contains b s = true ->
  PyStr.contains a s = true.
Proof.
  rewrite !contains_iff. intros [p1 [q1 ->]] [p2 [q2 ->]].
  exists (p2 ++ p1)%string, (q1 ++ q2)%string. rewrite !sapp_assoc. reflexivity.
Qed.

Lemma contains_join (sub sep x : string) (xs : list string) :
  In x xs -> PyStr.contains sub x = true -> PyStr.contains sub (join sep xs) = true.
Proof.
  intros Hin Hc. induction xs as [|y ys IH]; [destruct Hin|].
  destruct ys as [|z zs].
  - destruct Hin as [->|[]]. exact Hc.
  - change (join sep (y :: z :: zs)) with (y ++ sep ++ join sep (z :: zs))%string.
    destruct Hin as [->|Hin].
    + apply contains_app_l. exact Hc.
    + apply contains_app_r, contains_app_r. apply IH. exact Hin.
Qed.

(* ================================================================== *)
(** * The header row *)
(* ================================================================== *)

Lemma find_header_from_spec (grid : list (list Cell)) (i : nat) :
  match find_header_from i grid with
  | Some j =>
      exists k row,
        j = (i + k)%nat /\ nth_error grid k = Some row /\
        (2 <= header_hits row)%nat /\
        forall k' row', (k' < k)%nat -> nth_error grid k' = Some row' ->
                        (header_hits row' < 2)%nat
  | None => forall row, In row grid -> (header_hits row < 2)%nat
  end.
Proof.
  revert i. induction grid as [|r grid IH]; intro i; cbn [find_header_from].
  - intros row [].
  - destruct (2 <=? header_hits r)%nat eqn:E.
    + apply Nat.leb_le in E. exists 0%nat, r.
      split; [lia|]. split; [reflexivity|]. split; [exact E|].
      intros k' row' Hlt. lia.
    + apply Nat.leb_gt in E. specialize (IH (S i)).
      destruct (find_header_from (S i) grid) as [j|].
      * destruct IH as [k [row [Hj [Hn [Hh Hbefore]]]]].
        exists (S k), row. split; [lia|]. split; [exact Hn|]. split; [exact Hh|].
        intros [|k'] row' Hlt Hn'.
        -- simpl in Hn'. injection Hn' as <-. exact E.
        -- apply (Hbefore k' row'); [lia|exact Hn'].
      * intros row [<-|Hin]; [exact E|apply IH; exact Hin].
Qed.

(** X11: [_find_header_row] gives the position of the first row of the grid
    in which at least two header keywords occur, and [None] exactly when no
    row has two. *)
Theorem find_header_row_first :
  forall grid,
    match _find_header_row grid with
    | Some i =>
        exists row,
          nth_error grid i = Some row /\ (2 <= header_hits row)%nat /\
          forall j row', (j < i)%nat -> nth_error grid j = Some row' ->
                         (header_hits row' < 2)%nat
    | None => forall row, In row grid -> (header_hits row < 2)%nat
    end.
Proof.
  intro grid. unfold _find_header_row.
  assert (H := find_header_from_spec grid 0).
  destruct (find_header_from 0 grid) as [i|]; [|exact H].
  destruct H as [k [row [Hi [Hn [Hh Hb]]]]]. simpl in Hi. subst k.
  exists row. auto.
Qed.

Lemma details_cell_hits (row : list Cell) :
  has_details_cell row = true -> (3 <= header_hits row)%nat.
Proof.
  unfold has_details_cell. rewrite existsb_exists.
  intros [[s|] [Hin Hc]]; [|discriminate].
  assert (Hj : PyStr.contains "transaction details" (joined row) = true).
  { unfold joined. apply contains_join with (x := PyStr.lower s); [|exact Hc].
    apply (in_map (fun x : Cell => match x with
                                   | Some s0 => PyStr.lower s0
                                   | None => ""%string
                                   end) row (Some s)). exact Hin. }
  assert (H1 : PyStr.contains "transaction" (joined row) = true).
  { apply contains_trans with "transaction details"%string; [reflexivity|exact Hj]. }
  assert (H2 : PyStr.contains "details" (joined row) = true).
  { apply contains_trans with "transaction details"%string; [reflexivity|exact Hj]. }
  unfold header_hits, header_keywords. cbn [filter].
  rewrite H1, Hj, H2.
  repeat match goal with
         | |- context [PyStr.contains ?k (joined row)] =>
             destruct (PyStr.contains k (joined row))
         end; cbn [List.length]; lia.
Qed.

Lemma find_details_from_none (grid : list (list Cell)) (i : nat) :
  (forall row, In row grid -> (header_hits row < 2)%nat) ->
  find_details_from i grid = None.
Proof.
  revert i. induction grid as [|r grid IH]; intros i H; [reflexivity|].
  cbn [find_details_from].
  destruct (has_details_cell r) eqn:E.
  - apply details_cell_hits in E. specialize (H r (or_introl eq_refl)). lia.
  - apply IH. intros row Hin. apply H. right. exact Hin.
Qed.

(** X12: a row with a cell that holds "transaction details" counts three
    keywords ("transaction", "transaction details", "details"), so
    [_find_header_row] finds it; when [_find_header_row] finds no row, the
    later search of [read_statement] for a "Transaction Details" row finds
    none either. *)
Theorem details_row_search_never_succeeds :
  forall grid,
    _find_header_row grid = None -> find_details_row grid = None.
Proof.
  intros grid Hnone. apply find_details_from_none.
  assert (H := find_header_from_spec grid 0).
  unfold _find_header_row in Hnone. rewrite Hnone in H. exact H.
Qed.


Lemma details_row_search_never_succeeds_witness :
  find_details_row MoreExamples2.no_header = None.
Proof.
  apply details_row_search_never_succeeds. reflexivity.
Defined.

(* ================================================================== *)
(** * Column roles *)
(* ================================================================== *)

Lemma pick_col_find (keywords : list string) (d : list (string * string)) :
  pick_col keywords d =
  option_map snd (find (fun e => key_matches keywords (fst e)) d).
Proof.
  induction d as [|[low orig] d IH]; [reflexivity|]. cbn [pick_col find fst].
  fold (key_matches keywords low).
  destruct (key_matches keywords low); [reflexivity|exact IH].
Qed.

(** The first entry with a property of its key, after [dict_set]. *)
Lemma dict_set_find (p : string -> bool) (k v : string) (d : list (string * string)) :
  find (fun e => p (fst e)) (dict_set k v d) =
  match find (fun e => p (fst e)) d with
  | Some (k', v') => if String.eqb k' k then Some (k, v) else Some (k', v')
  | None => if p k then Some (k, v) else None
  end.
Proof.
  induction d as [|[k' v'] d IH]; cbn [dict_set find fst].
  - reflexivity.
  - destruct (String.eqb_spec k k') as [<-|Hne]; cbn [find fst].
    + destruct (p k) eqn:E.
      * rewrite String.eqb_refl. reflexivity.
      * destruct (find (fun e => p (fst e)) d) as [[k2 v2]|] eqn:F; [|reflexivity].
        destruct (String.eqb_spec k2 k) as [->|_]; [|reflexivity].
        apply find_some in F. cbn [fst] in F. destruct F as [_ F]. congruence.
    + destruct (p k') eqn:E; [|exact IH].
      destruct (String.eqb_spec k' k) as [->|_]; [congruence|reflexivity].
Qed.

Lemma find_snoc {A} (f : A -> bool) (l : list A) (x : A) :
  find f (l ++ [x]) =
  match find f l with
  | Some y => Some y
  | None => if f x then Some x else None
  end.
Proof.
  induction l as [|y l IH]; cbn [app find]; [reflexivity|].
  destruct (f y); [reflexivity|exact IH].
Qed.

Lemma lname_snoc (columns : list string) (c : string) :
  lname (columns ++ [c]) = dict_set (PyStr.lower c) c (lname columns).
Proof. unfold lname. rewrite fold_left_app. reflexivity. Qed.

Lemma last_named_snoc (low c : string) (columns : list string) :
  last_named low (columns ++ [c]) =
  if String.eqb (PyStr.lower c) low then Some c else last_named low columns.
Proof. unfold last_named. rewrite rev_app_distr. reflexivity. Qed.

Lemma last_named_some (c : string) (columns : list string) :
  In c columns -> exists o, last_named (PyStr.lower c) columns = Some o.
Proof.
  intro H. unfold last_named.
  destruct (find (fun c0 => String.eqb (PyStr.lower c0) (PyStr.lower c)) (rev columns))
    as [o|] eqn:F; [exists o; reflexivity|].
  apply in_rev in H. assert (Hf := find_none _ _ F c H). cbn beta in Hf.
  rewrite String.eqb_refl in Hf. discriminate.
Qed.

(** The first entry of [lname] with a property of its key: the key is the
    name in lower case of the first column with the property, the value is
    the last column of that name. *)
Lemma lname_find (p : string -> bool) (columns : list string) :
  find (fun e => p (fst e)) (lname columns) =
  match find (fun c => p (PyStr.lower c)) columns with
  | Some c => option_map (fun o => (PyStr.lower c, o))
                         (last_named (PyStr.lower c) columns)
  | None => None
  end.
Proof.
  induction columns as [|c columns IH] using rev_ind; [reflexivity|].
  rewrite lname_snoc, dict_set_find, IH, find_snoc.
  destruct (find (fun c0 => p (PyStr.lower c0)) columns) as [c0|] eqn:F.
  - apply find_some in F. destruct F as [Hin _].
    destruct (last_named_some c0 columns Hin) as [o Ho].
    rewrite last_named_snoc, !Ho. cbn [option_map].
    rewrite (String.eqb_sym (PyStr.lower c0) (PyStr.lower c)).
    destruct (String.eqb_spec (PyStr.lower c) (PyStr.lower c0)) as [->|_]; reflexivity.
  - destruct (p (PyStr.lower c)); [|reflexivity].
    rewrite last_named_snoc, String.eqb_refl. reflexivity.
Qed.

(** X13: [pick_col] looks for the first column, in the order of the
    columns and whatever the order of the keywords, whose name in lower case
    holds one of the keywords; it gives the last column that has the same
    name in lower case, which is that column itself unless a later column
    differs from it in case only; it gives [None] exactly when no column
    name holds a keyword. *)
Theorem pick_col_first_match :
  forall keywords columns,
    pick_col keywords (lname columns) =
    match find (fun c => key_matches keywords (PyStr.lower c)) columns with
    | Some c => last_named (PyStr.lower c) columns
    | None => None
    end /\
    (pick_col keywords (lname columns) = None <->
     forall c kw, In c columns -> In kw keywords ->
                  PyStr.contains kw (PyStr.lower c) = false).
Proof.
  intros keywords columns.
  assert (E : pick_col keywords (lname columns) =
              match find (fun c => key_matches keywords (PyStr.lower c)) columns with
              | Some c => last_named (PyStr.lower c) columns
              | None => None
              end).
  { rewrite pick_col_find, (lname_find (key_matches keywords)).
    destruct (find _ columns) as [c|]; [|reflexivity].
    destruct (last_named (PyStr.lower c) columns); reflexivity. }
  split; [exact E|]. rewrite E.
  destruct (find (fun c => key_matches keywords (PyStr.lower c)) columns) as [c|] eqn:F.
  - apply find_some in F. destruct F as [Hin Hm].
    destruct (last_named_some c columns Hin) as [o Ho]. rewrite Ho.
    split; [discriminate|]. intro H. exfalso.
    unfold key_matches in Hm. apply existsb_exists in Hm.
    destruct Hm as [kw [Hkw Hc]]. rewrite (H c kw Hin Hkw) in Hc. discriminate.
  - split; [|reflexivity]. intros _ c kw Hin Hkw.
    assert (Hn := find_none _ _ F c Hin). cbn beta in Hn.
    destruct (PyStr.contains kw (PyStr.lower c)) eqn:Ec; [|reflexivity].
    assert (Ht : key_matches keywords (PyStr.lower c) = true).
    { unfold key_matches. apply existsb_exists. exists kw. auto. }
    congruence.
Qed.

(** Two columns that differ in case only: the name of the first one keeps
    its place in [lname] and the second column is the one picked. *)
Lemma pick_col_same_name :
  lname ["Date"; "DATE"; "Amount"]%string
  = [("date", "DATE"); ("amount", "Amount")]%string /\
  pick_col ["date"]%string (lname ["Date"; "DATE"; "Amount"]%string)
  = Some "DATE"%string.
Proof. split; reflexivity. Qed.

(* ================================================================== *)
(** * Further properties of the amount parser *)
(* ================================================================== *)

Lemma float_sign_split (s : string) :
  PyStr.float s =
  match s with
  | String c s' => if Ascii.eqb c "-" then float_unsigned true s'
                   else float_unsigned false s
  | EmptyString => float_unsigned false s
  end.
Proof.
  destruct s as [|c s]; [reflexivity|].
  destruct c as [[] [] [] [] [] [] [] []]; reflexivity.
Qed.

Lemma span_app (p : ascii -> bool) (s a b : string) :
  PyStr.span p s = (a, b) -> s = (a ++ b)%string /\ all_chars p a = true.
Proof.
  revert a b. induction s as [|c s IH]; intros a b; simpl.
  - intro H. injection H as <- <-. auto.
  - destruct (p c) eqn:E.
    + destruct (PyStr.span p s) as [a' b'] eqn:Es. intro H. injection H as <- <-.
      destruct (IH a' b' eq_refl) as [-> Ha]. simpl. rewrite E. auto.
    + intro H. injection H as <- <-. auto.
Qed.

Lemma any_app (p : ascii -> bool) (a b : string) :
  any_char p (a ++ b) = any_char p a || any_char p b.
Proof.
  induction a as [|c a IH]; simpl; [reflexivity|]. rewrite IH, orb_assoc. reflexivity.
Qed.

Lemma all_any_nonempty (p : ascii -> bool) (a : string) :
  all_chars p a = true -> a <> ""%string -> any_char p a = true.
Proof.
  destruct a as [|c a]; [congruence|]. simpl.
  rewrite andb_true_iff. intros [-> _] _. reflexivity.
Qed.

Lemma float_unsigned_digit (neg : bool) (body : string) (q : Q) :
  float_unsigned neg body = Some q -> any_char PyStr.is_digit body = true.
Proof.
  unfold float_unsigned.
  destruct (PyStr.span PyStr.is_digit body) as [ip rest] eqn:E1.
  destruct (span_app _ _ _ _ E1) as [-> Hip].
  rewrite any_app.
  destruct ip as [|c ip].
  - simpl. destruct rest as [|d r]; [discriminate|].
    destruct (Ascii.eqb_spec d ".") as [->|Hne].
    + destruct (PyStr.span PyStr.is_digit r) as [fp rest'] eqn:E2.
      destruct (span_app _ _ _ _ E2) as [-> Hfp].
      destruct rest'; [|discriminate].
      destruct fp as [|e fp]; [discriminate|]. intros _.
      cbn [all_chars] in Hfp. apply andb_true_iff in Hfp. destruct Hfp as [He _].
      cbn [any_char append]. rewrite He. cbn. reflexivity.
    + assert (Hm : match String d r with
                   | String "." r0 => PyStr.span PyStr.is_digit r0
                   | _ => (EmptyString, String d r)
                   end = (EmptyString, String d r)).
      { destruct d as [[] [] [] [] [] [] [] []]; try reflexivity. congruence. }
      rewrite Hm. discriminate.
  - intros _. rewrite (all_any_nonempty _ _ Hip); [reflexivity|discriminate].
Qed.

Lemma float_digit (s : string) (q : Q) :
  PyStr.float s = Some q -> any_char PyStr.is_digit s = true.
Proof.
  rewrite float_sign_split. destruct s as [|c s].
  - apply float_unsigned_digit.
  - destruct (Ascii.eqb c "-").
    + intro H. apply float_unsigned_digit in H. simpl. rewrite H. apply orb_true_r.
    + apply float_unsigned_digit.
Qed.

Lemma any_keep (q p : ascii -> bool) (s : string) :
  any_char q (PyStr.keep p s) = true -> any_char q s = true.
Proof.
  induction s as [|c s IH]; simpl; [auto|].
  destruct (p c); simpl.
  - rewrite !orb_true_iff. intros [H|H]; auto.
  - intro H. rewrite (IH H). apply orb_true_r.
Qed.

Lemma any_replace_from (q : ascii -> bool) (old s : string) (k : nat) :
  any_char q (PyStr.replace_from old "" s k) = true -> any_char q s = true.
Proof.
  revert k. induction s as [|c s IH]; intro k; cbn [PyStr.replace_from]; [auto|].
  destruct k as [|k].
  - destruct (PyStr.startswith (String c s) old).
    + cbn [append]. intro H. cbn [any_char]. rewrite (IH _ H). apply orb_true_r.
    + cbn [any_char]. rewrite !orb_true_iff. intros [H|H]; [auto|].
      right. exact (IH _ H).
  - intro H. cbn [any_char]. rewrite (IH _ H). apply orb_true_r.
Qed.

Lemma any_rev_onto (q : ascii -> bool) (s acc : string) :
  any_char q (PyStr.rev_onto s acc) = any_char q s || any_char q acc.
Proof.
  revert acc. induction s as [|c s IH]; intro acc; simpl; [reflexivity|].
  rewrite IH. simpl. destruct (q c), (any_char q s); reflexivity.
Qed.

Lemma any_rev (q : ascii -> bool) (s : string) :
  any_char q (PyStr.rev s) = any_char q s.
Proof. unfold PyStr.rev. rewrite any_rev_onto. simpl. apply orb_false_r. Qed.

Lemma any_lstrip (q : ascii -> bool) (s : string) :
  any_char q (PyStr.lstrip s) = true -> any_char q s = true.
Proof.
  induction s as [|c s IH]; simpl; [auto|].
  destruct (PyStr.is_space c); [|auto].
  intro H. rewrite (IH H). apply orb_true_r.
Qed.

Lemma any_strip (q : ascii -> bool) (s : string) :
  any_char q (PyStr.strip s) = true -> any_char q s = true.
Proof.
  unfold PyStr.strip, PyStr.rstrip. rewrite any_rev. intro H.
  apply any_lstrip in H. rewrite any_rev in H. apply any_lstrip. exact H.
Qed.

Lemma clean_amount_digit (v : Cell) (q : Q) :
  _clean_amount v = Some q -> has_amount_val v = true.
Proof.
  destruct v as [v|]; [|discriminate]. unfold _clean_amount, has_amount_val.
  destruct (String.eqb (PyStr.strip v) ""); [discriminate|].
  match goal with
  | |- (if ?c then _ else _) = _ -> _ => destruct c; [discriminate|]
  end.
  intro H. apply float_digit in H. apply any_keep in H.
  unfold PyStr.replace in H.
  apply any_replace_from, any_replace_from, any_replace_from in H.
  apply any_strip. exact H.
Qed.

(** X14: [_clean_amount] gives a number only for a cell that holds a digit,
    the test of [has_amount_val]; so every row of the final table comes from
    a row that the amount mask of [read_statement] retains, and a row
    retained for its date alone never reaches the final table. *)
Theorem clean_amount_needs_digit :
  (forall v q, _clean_amount v = Some q -> has_amount_val v = true) /\
  (forall filtered row,
      In row (finalize filtered) ->
      exists w, In w filtered /\ has_amount_val (w_amount_raw w) = true /\
                description row = Some (w_description w)).
Proof.
  split; [exact clean_amount_digit|].
  intros filtered row Hin. apply in_finalize in Hin.
  destruct Hin as [w [p [Hw [Hp ->]]]]. exists w.
  split; [exact Hw|]. split; [|reflexivity].
  apply (clean_amount_digit _ p). exact Hp.
Qed.

Lemma clean_amount_needs_digit_witness :
  has_amount_val (Some "1,200.00 Cr"%string) = true.
Proof.
  destruct clean_amount_needs_digit as [H _].
  apply (H (Some "1,200.00 Cr"%string) 1200). reflexivity.
Defined.

Lemma rev_onto_rev_onto (s a b : string) :
  PyStr.rev_onto (PyStr.rev_onto s a) b = PyStr.rev_onto a (s ++ b)%string.
Proof.
  revert a b. induction s as [|c s IH]; intros a b; simpl; [reflexivity|].
  rewrite IH. reflexivity.
Qed.

Section Keep.
Variable p : ascii -> bool.

Lemma keep_app (a b : string) :
  PyStr.keep p (a ++ b) = (PyStr.keep p a ++ PyStr.keep p b)%string.
Proof.
  induction a as [|c a IH]; simpl; [reflexivity|].
  destruct (p c); simpl; rewrite IH; reflexivity.
Qed.

Lemma keep_all (s : string) : all_chars p s = true -> PyStr.keep p s = s.
Proof.
  induction s as [|c s IH]; simpl; [reflexivity|].
  rewrite andb_true_iff. intros [-> H]. rewrite (IH H). reflexivity.
Qed.

Lemma all_keep (s : string) : all_chars p (PyStr.keep p s) = true.
Proof.
  induction s as [|c s IH]; simpl; [reflexivity|].
  destruct (p c) eqn:E; simpl; [rewrite E|]; exact IH.
Qed.

Lemma keep_none (s : string) :
  all_chars (fun c => negb (p c)) s = true -> PyStr.keep p s = ""%string.
Proof.
  induction s as [|c s IH]; simpl; [reflexivity|].
  rewrite andb_true_iff, negb_true_iff. intros [-> H]. exact (IH H).
Qed.

Lemma keep_rev_onto (s acc : string) :
  PyStr.keep p (PyStr.rev_onto s acc)
  = PyStr.rev_onto (PyStr.keep p s) (PyStr.keep p acc).
Proof.
  revert acc. induction s as [|c s IH]; intro acc; simpl; [reflexivity|].
  rewrite IH. simpl. destruct (p c); reflexivity.
Qed.

Lemma keep_rev (s : string) : PyStr.keep p (PyStr.rev s) = PyStr.rev (PyStr.keep p s).
Proof. unfold PyStr.rev. rewrite keep_rev_onto. reflexivity. Qed.

Hypothesis blanks_out : forall c, PyStr.is_space c = true -> p c = false.

Lemma keep_lstrip (s : string) : PyStr.keep p (PyStr.lstrip s) = PyStr.keep p s.
Proof.
  induction s as [|c s IH]; simpl; [reflexivity|].
  destruct (PyStr.is_space c) eqn:E; [|reflexivity].
  rewrite (blanks_out c E). exact IH.
Qed.

End Keep.

Lemma rev_rev (s : string) : PyStr.rev (PyStr.rev s) = s.
Proof. unfold PyStr.rev. rewrite rev_onto_rev_onto. simpl. apply sapp_nil_r. Qed.

Lemma keep_strip (p : ascii -> bool) (s : string) :
  (forall c, PyStr.is_space c = true -> p c = false) ->
  PyStr.keep p (PyStr.strip s) = PyStr.keep p s.
Proof.
  intro Hb. unfold PyStr.strip, PyStr.rstrip.
  rewrite keep_rev, (keep_lstrip p Hb), keep_rev, rev_rev.
  apply (keep_lstrip p Hb).
Qed.

Lemma prefix_passes (p : ascii -> bool) (old s r : string) :
  all_chars (fun c => negb (p c)) old = true ->
  PyStr.drop_prefix old s = Some r ->
  passes p (String.length old) s = true.
Proof.
  revert s. induction old as [|a old IH]; intros s Hall Hd; [reflexivity|].
  simpl in Hd. destruct s as [|b s]; [reflexivity|].
  destruct (Ascii.eqb_spec a b) as [->|]; [|discriminate].
  simpl in Hall. apply andb_true_iff in Hall. destruct Hall as [Hb Hall].
  simpl. rewrite Hb. exact (IH s Hall Hd).
Qed.

Lemma keep_replace_from (p : ascii -> bool) (old s : string) (k : nat) :
  old <> ""%string ->
  all_chars (fun c => negb (p c)) old = true ->
  passes p k s = true ->
  PyStr.keep p (PyStr.replace_from old "" s k) = PyStr.keep p s.
Proof.
  intros Hne Hold. revert k.
  induction s as [|c s IH]; intros k Hk; cbn [PyStr.replace_from]; [reflexivity|].
  destruct k as [|k].
  - destruct (PyStr.startswith (String c s) old) eqn:E.
    + unfold PyStr.startswith in E.
      destruct (PyStr.drop_prefix old (String c s)) as [r|] eqn:Ed; [|discriminate].
      assert (Hp := prefix_passes p old (String c s) r Hold Ed).
      destruct old as [|a old']; [congruence|].
      cbn [String.length passes] in Hp. apply andb_true_iff in Hp.
      destruct Hp as [Hc Hp]. apply negb_true_iff in Hc.
      cbn [append PyStr.keep]. rewrite Hc.
      replace (String.length (String a old') - 1)%nat with (String.length old')
        by (cbn [String.length]; lia).
      apply IH. exact Hp.
    + cbn [PyStr.keep]. rewrite (IH 0%nat eq_refl). reflexivity.
  - cbn [passes] in Hk. apply andb_true_iff in Hk. destruct Hk as [Hc Hk].
    apply negb_true_iff in Hc. cbn [PyStr.keep]. rewrite Hc. apply IH. exact Hk.
Qed.

Lemma keep_replace (p : ascii -> bool) (s old : string) :
  old <> ""%string ->
  all_chars (fun c => negb (p c)) old = true ->
  PyStr.keep p (PyStr.replace s old "") = PyStr.keep p s.
Proof.
  intros Hne Hold. unfold PyStr.replace. apply keep_replace_from; auto.
Qed.

Lemma amount_char_not_blank (c : ascii) :
  PyStr.is_space c = true -> amount_char c = false.
Proof. destruct c as [[] [] [] [] [] [] [] []]; intro H; try reflexivity; discriminate H. Qed.

(** The text that [_clean_amount] hands to [float]: the amount characters
    of the cell. *)
Lemma cleaned_text (v : string) :
  PyStr.keep amount_char
    (PyStr.replace (PyStr.replace (PyStr.replace (PyStr.strip v) rupee "") rupee "") "," "")
  = PyStr.keep amount_char v.
Proof.
  rewrite !keep_replace; try discriminate; try reflexivity.
  apply keep_strip. exact amount_char_not_blank.
Qed.

Lemma strip_empty_keep (p : ascii -> bool) (v : string) :
  (forall c, PyStr.is_space c = true -> p c = false) ->
  PyStr.strip v = ""%string -> PyStr.keep p v = ""%string.
Proof.
  intros Hb H. rewrite <- (keep_strip p v Hb), H. reflexivity.
Qed.

(** [_clean_amount] in one step. *)
Lemma clean_amount_eq (v : string) :
  _clean_amount (Some v) =
  let s := PyStr.keep amount_char v in
  if String.eqb s "" || String.eqb s "." || String.eqb s "-" then None
  else PyStr.float s.
Proof.
  unfold _clean_amount. rewrite cleaned_text. cbv zeta.
  destruct (String.eqb_spec (PyStr.strip v) "") as [E|_]; [|reflexivity].
  rewrite (strip_empty_keep amount_char v amount_char_not_blank E). reflexivity.
Qed.

(** X15: the result of [_clean_amount] depends on the digits, dots and minus
    signs of the cell only, in their order: two cells with the same such
    characters give the same result, whatever letters, blanks, commas and
    currency signs stand before, between or after them. *)
Theorem clean_amount_reads_amount_chars :
  forall v w,
    PyStr.keep amount_char v = PyStr.keep amount_char w ->
    _clean_amount (Some v) = _clean_amount (Some w).
Proof.
  intros v w H. rewrite !clean_amount_eq. cbv zeta. rewrite H. reflexivity.
Qed.


Lemma clean_amount_reads_amount_chars_witness :
  _clean_amount (Some "INR 1,234.50 paid"%string) = _clean_amount (Some "1234.50"%string).
Proof.
  apply clean_amount_reads_amount_chars. reflexivity.
Defined.

Lemma all_app (p : ascii -> bool) (a b : string) :
  all_chars p (a ++ b) = all_chars p a && all_chars p b.
Proof.
  induction a as [|c a IH]; simpl; [reflexivity|]. rewrite IH, andb_assoc. reflexivity.
Qed.

Lemma all_weaken (p q : ascii -> bool) (s : string) :
  (forall c, p c = true -> q c = true) -> all_chars p s = true -> all_chars q s = true.
Proof.
  intro H. induction s as [|c s IH]; simpl; [auto|].
  rewrite !andb_true_iff. intros [Hc Hs]. auto.
Qed.

Lemma digits_value_nonneg (s : string) (acc : Z) :
  all_chars PyStr.is_digit s = true -> (0 <= acc)%Z ->
  (0 <= PyStr.digits_value s acc)%Z.
Proof.
  revert acc. induction s as [|c s IH]; intros acc;
    cbn [PyStr.digits_value all_chars]; [auto|].
  rewrite andb_true_iff. intros [Hc Hs] Hacc. apply IH; [exact Hs|].
  assert (0 <= PyStr.digit_value c)%Z.
  { unfold PyStr.is_digit in Hc. unfold PyStr.digit_value.
    apply andb_true_iff in Hc. destruct Hc as [Hc _]. apply N.leb_le in Hc. lia. }
  lia.
Qed.

Lemma span_all (p : ascii -> bool) (s : string) :
  all_chars p s = true -> PyStr.span p s = (s, ""%string).
Proof.
  induction s as [|c s IH]; simpl; [reflexivity|].
  rewrite andb_true_iff. intros [-> Hs]. rewrite (IH Hs). reflexivity.
Qed.

Lemma quotient_nonneg (m : Z) (k : nat) :
  (0 <= m)%Z -> 0 <= inject_Z m / inject_Z (10 ^ Z.of_nat k).
Proof.
  intro Hm. apply Qle_shift_div_l.
  - change 0 with (inject_Z 0). rewrite <- Zlt_Qlt. apply Z.pow_pos_nonneg; lia.
  - rewrite Qmult_0_l. change 0 with (inject_Z 0). rewrite <- Zle_Qle. exact Hm.
Qed.

(** What [float] accepts after the sign, and the sign of what it gives. *)
Lemma float_unsigned_shape (neg : bool) (body : string) (q : Q) :
  float_unsigned neg body = Some q ->
  all_chars digit_or_dot body = true /\ (if neg then q <= 0 else 0 <= q).
Proof.
  unfold float_unsigned.
  destruct (PyStr.span PyStr.is_digit body) as [ip rest] eqn:E1.
  destruct (span_app _ _ _ _ E1) as [-> Hip].
  assert (Hdd : forall s, all_chars PyStr.is_digit s = true ->
                          all_chars digit_or_dot s = true).
  { intro s. apply all_weaken. intros c Hc. unfold digit_or_dot. rewrite Hc. reflexivity. }
  assert (Hfin : forall fp,
            all_chars PyStr.is_digit fp = true ->
            (if (String.length ip + String.length fp =? 0)%nat then None
             else Some (round64
                          (if neg
                           then - (inject_Z (PyStr.digits_value (ip ++ fp) 0)
                                   / inject_Z (10 ^ Z.of_nat (String.length fp)))
                           else inject_Z (PyStr.digits_value (ip ++ fp) 0)
                                / inject_Z (10 ^ Z.of_nat (String.length fp)))))
            = Some q ->
            if neg then q <= 0 else 0 <= q).
  { intros fp Hfp. destruct (_ =? _)%nat; [discriminate|].
    intro H. injection H as <-.
    assert (Hq := quotient_nonneg (PyStr.digits_value (ip ++ fp) 0) (String.length fp)).
    assert (0 <= PyStr.digits_value (ip ++ fp) 0)%Z.
    { apply digits_value_nonneg; [|lia]. rewrite all_app, Hip, Hfp. reflexivity. }
    specialize (Hq H). revert Hq.
    generalize (inject_Z (PyStr.digits_value (ip ++ fp) 0)
                / inject_Z (10 ^ Z.of_nat (String.length fp))).
    intros x Hx. clear - Hx.
    destruct neg; [apply round64_nonpos|apply round64_nonneg]; lra. }
  destruct rest as [|d r].
  - intro H. split.
    + rewrite sapp_nil_r. apply Hdd. exact Hip.
    + exact (Hfin ""%string eq_refl H).
  - destruct (Ascii.eqb_spec d ".") as [->|Hne].
    + destruct (PyStr.span PyStr.is_digit r) as [fp rest'] eqn:E2.
      destruct (span_app _ _ _ _ E2) as [-> Hfp].
      destruct rest' as [|e rest']; [|discriminate].
      intro H. split.
      * rewrite all_app, (Hdd _ Hip). cbn [all_chars andb].
        rewrite sapp_nil_r. change (digit_or_dot ".") with true. cbn [andb].
        apply Hdd. exact Hfp.
      * exact (Hfin fp Hfp H).
    + assert (Hm : match String d r with
                   | String "." r0 => PyStr.span PyStr.is_digit r0
                   | _ => (EmptyString, String d r)
                   end = (EmptyString, String d r)).
      { destruct d as [[] [] [] [] [] [] [] []]; try reflexivity. congruence. }
      rewrite Hm. discriminate.
Qed.

(** X16: a cell that [_clean_amount] reads holds at most one minus sign, in
    front of its digits and dots: without it the number is not negative,
    with it the number is not positive.  A minus sign after a digit, as in
    "500-" or "12-05", leaves no number. *)
Theorem clean_amount_sign :
  forall v q,
    _clean_amount (Some v) = Some q ->
    exists body,
      all_chars digit_or_dot body = true /\
      ((PyStr.keep amount_char v = body /\ 0 <= q) \/
       (PyStr.keep amount_char v = String "-" body /\ q <= 0)).
Proof.
  intros v q. rewrite clean_amount_eq. cbv zeta.
  destruct (_ || _); [discriminate|].
  rewrite float_sign_split.
  destruct (PyStr.keep amount_char v) as [|c s] eqn:E.
  - intro H. apply float_unsigned_shape in H. exists ""%string. tauto.
  - destruct (Ascii.eqb_spec c "-") as [->|Hne]; intro H;
      apply float_unsigned_shape in H; destruct H as [H1 H2].
    + exists s. auto.
    + exists (String c s). auto.
Qed.

Lemma digits_value_bound (s : string) (acc : Z) :
  all_chars PyStr.is_digit s = true -> (0 <= acc)%Z ->
  (PyStr.digits_value s acc < (acc + 1) * 10 ^ Z.of_nat (String.length s))%Z.
Proof.
  revert acc. induction s as [|c s IH]; intros acc;
    cbn [PyStr.digits_value all_chars String.length].
  - intros _ Hacc. change (10 ^ Z.of_nat 0)%Z with 1%Z. lia.
  - rewrite andb_true_iff. intros [Hc Hs] Hacc.
    assert (Hd : (0 <= PyStr.digit_value c <= 9)%Z).
    { unfold PyStr.is_digit in Hc. unfold PyStr.digit_value.
      apply andb_true_iff in Hc. destruct Hc as [H1 H2].
      apply N.leb_le in H1. apply N.leb_le in H2. lia. }
    assert (H := IH (10 * acc + PyStr.digit_value c)%Z Hs ltac:(lia)).
    rewrite Nat2Z.inj_succ, Z.pow_succ_r by lia.
    assert (Hp : (0 < 10 ^ Z.of_nat (String.length s))%Z)
      by (apply Z.pow_pos_nonneg; lia).
    nia.
Qed.

(** A whole number below 2^53 is a float. *)
Lemma round64_integer (n : Z) :
  (Z.abs n < 2 ^ 53)%Z -> round64 (inject_Z n) == inject_Z n.
Proof.
  intro H. apply round64_id. exists n, 0%Z. split; [exact H|].
  change (pow2 0) with 1. ring.
Qed.

(** X17: a cell whose amount characters are digits only, fifteen at most,
    is read as the whole number that the digits spell: separators, blanks
    and letters between the digits are passed over.  Longer numbers are
    read as the nearest float: 9007199254740993 as 9007199254740992. *)
Theorem clean_amount_reads_integers :
  (forall v,
      PyStr.keep amount_char v <> ""%string ->
      all_chars PyStr.is_digit (PyStr.keep amount_char v) = true ->
      (String.length (PyStr.keep amount_char v) <= 15)%nat ->
      parsed_as (_clean_amount (Some v))
                (inject_Z (PyStr.digits_value (PyStr.keep amount_char v) 0))) /\
  parsed_as (_clean_amount (Some "9,007,199,254,740,993"%string))
            9007199254740992.
Proof.
  split; [|vm_compute; reflexivity].
  intros v Hne Hall Hlen. rewrite clean_amount_eq. cbv zeta.
  assert (Hbound := digits_value_bound _ 0 Hall ltac:(lia)).
  assert (Hnn := digits_value_nonneg _ 0 Hall ltac:(lia)).
  destruct (PyStr.keep amount_char v) as [|c s] eqn:E; [congruence|].
  assert (Hc : PyStr.is_digit c = true).
  { cbn [all_chars] in Hall. apply andb_true_iff in Hall. apply Hall. }
  assert (Hnot : String.eqb (String c s) "" || String.eqb (String c s) "."
                 || String.eqb (String c s) "-" = false).
  { destruct c as [[] [] [] [] [] [] [] []]; try discriminate Hc; reflexivity. }
  rewrite Hnot, float_sign_split.
  assert (Hminus : Ascii.eqb c "-" = false).
  { destruct c as [[] [] [] [] [] [] [] []]; try discriminate Hc; reflexivity. }
  rewrite Hminus. unfold float_unsigned. rewrite (span_all _ _ Hall).
  cbn [String.length Nat.add Nat.eqb]. rewrite sapp_nil_r.
  unfold parsed_as. cbn [Z.of_nat Z.pow]. change (10 ^ 0)%Z with 1%Z.
  set (n := PyStr.digits_value (String c s) 0) in *.
  rewrite (round64_comp (inject_Z n / inject_Z 1) (inject_Z n)).
  - apply round64_integer.
    assert (Hpow : (10 ^ Z.of_nat (String.length (String c s)) <= 10 ^ 15)%Z).
    { apply Z.pow_le_mono_r; lia. }
    change (10 ^ 15)%Z with 1000000000000000%Z in Hpow.
    change (2 ^ 53)%Z with 9007199254740992%Z. lia.
  - unfold Qdiv. change (/ inject_Z 1) with 1. ring.
Qed.

Lemma clean_amount_sign_witness :
  exists body,
    all_chars digit_or_dot body = true /\
    ((PyStr.keep amount_char "Rs -500" = body /\ 0 <= -500) \/
     (PyStr.keep amount_char "Rs -500" = String "-" body /\ -500 <= 0)).
Proof.
  apply (clean_amount_sign "Rs -500" (-500)). reflexivity.
Defined.

Lemma clean_amount_reads_integers_witness :
  parsed_as (_clean_amount (Some "1,20,000 INR"%string))
            (inject_Z (PyStr.digits_value (PyStr.keep amount_char "1,20,000 INR") 0)).
Proof.
  destruct clean_amount_reads_integers as [H _].
  apply H; [discriminate|reflexivity|vm_compute; lia].
Defined.


(* ================================================================== *)
(** * The templates that a match of DATE_RE can meet *)
(* ================================================================== *)

Lemma rev_onto_app (a b acc : string) :
  PyStr.rev_onto (a ++ b) acc = PyStr.rev_onto b (PyStr.rev_onto a acc).
Proof.
  revert acc. induction a as [|c a IH]; intro acc; simpl; [reflexivity|]. apply IH.
Qed.

Section Extends.
Context {A : Type} (ret : string -> A).

Lemma extends_step (k : cont A) (t acc : string) (x : A) :
  (exists t', x = ret (PyStr.rev_onto t' (PyStr.rev_onto t acc))) ->
  exists t'', x = ret (PyStr.rev_onto t'' acc).
Proof.
  intros [t' ->]. exists (t ++ t')%string. rewrite rev_onto_app. reflexivity.
Qed.

Lemma m_lit_extends (l : string) (k : cont A) :
  extends ret k -> extends ret (fun prev s acc => m_lit l prev s acc k).
Proof.
  intros Hk. induction l as [|a l IH]; intros prev s acc x; cbn [m_lit].
  - apply Hk.
  - destruct s as [|c s]; [discriminate|].
    destruct (Ascii.eqb _ _); [|discriminate].
    intro H. apply IH in H. apply (extends_step k (String c "") acc x). exact H.
Qed.

Lemma m_star_extends (p : ascii -> bool) (k : cont A) :
  extends ret k -> extends ret (fun prev s acc => m_star p prev s acc k).
Proof.
  intros Hk prev s. revert prev.
  induction s as [|c s IH]; intros prev acc x; cbn [m_star].
  - apply Hk.
  - destruct (p c); [|apply Hk].
    unfold or_else.
    destruct (m_star p (Some c) s (String c acc) k) as [y|] eqn:E.
    + intro H. injection H as <-.
      apply IH in E. apply (extends_step k (String c "") acc y). exact E.
    + apply Hk.
Qed.

Lemma m_rep_extends (p : ascii -> bool) (lo hi : nat) (k : cont A) :
  extends ret k -> extends ret (fun prev s acc => m_rep p lo hi prev s acc k).
Proof.
  intros Hk. revert lo.
  induction hi as [|hi IH]; intros lo prev s acc x; cbn [m_rep].
  - destruct lo; [apply Hk|discriminate].
  - assert (Hstop : match lo with O => k prev s acc | S _ => None end = Some x ->
                    exists t, x = ret (PyStr.rev_onto t acc)).
    { destruct lo; [apply Hk|discriminate]. }
    destruct s as [|c s]; [exact Hstop|].
    destruct (p c); [|exact Hstop].
    unfold or_else.
    destruct (m_rep p (Nat.pred lo) hi (Some c) s (String c acc) k) as [y|] eqn:E.
    + intro H. injection H as <-.
      apply IH in E. apply (extends_step k (String c "") acc y). exact E.
    + exact Hstop.
Qed.

Lemma m_extends (r : re) (k : cont A) :
  extends ret k -> extends ret (fun prev s acc => m r prev s acc k).
Proof.
  revert k. induction r as [|l|a IHa b IHb|a IHa b IHb|a IHa|p|p lo hi|];
    intros k Hk; cbn [m].
  - exact Hk.
  - apply m_lit_extends. exact Hk.
  - apply IHa. apply IHb. exact Hk.
  - intros prev s acc x. unfold or_else.
    destruct (m a prev s acc k) as [y|] eqn:E.
    + intro H. injection H as <-. exact (IHa k Hk _ _ _ _ E).
    + apply (IHb k Hk).
  - intros prev s acc x. unfold or_else.
    destruct (m a prev s acc k) as [y|] eqn:E.
    + intro H. injection H as <-. exact (IHa k Hk _ _ _ _ E).
    + apply Hk.
  - apply m_star_extends. exact Hk.
  - apply m_rep_extends. exact Hk.
  - intros prev s acc x. destruct (xorb _ _); [apply Hk|discriminate].
Qed.

(** A literal that matches consumes a character equal, without regard to
    case, to its first character. *)
Lemma m_lit_head (a : ascii) (l : string) (k : cont A) :
  extends ret k ->
  forall prev s acc x,
    m_lit (String a l) prev s acc k = Some x ->
    exists c t,
      PyStr.lower_char a = PyStr.lower_char c /\
      x = ret (PyStr.rev_onto t (String c acc)).
Proof.
  intros Hk prev s acc x. cbn [m_lit].
  destruct s as [|c s]; [discriminate|].
  destruct (Ascii.eqb_spec (PyStr.lower_char a) (PyStr.lower_char c)) as [E|];
    [|discriminate].
  intro H. apply (m_lit_extends l k Hk) in H. destruct H as [t ->].
  exists c, t. auto.
Qed.

End Extends.

Lemma final_extends : extends PyStr.rev final_cont.
Proof.
  intros prev s acc x H. injection H as <-. exists ""%string. reflexivity.
Qed.

Lemma or_else_some {A} (a b : option A) (x : A) :
  or_else a b = Some x -> a = Some x \/ b = Some x.
Proof. destruct a; simpl; auto. Qed.

Lemma months_head (k : cont string) :
  extends PyStr.rev k ->
  forall prev s acc x,
    m MONTHS prev s acc k = Some x ->
    exists c t, month_initial c = true /\
                x = PyStr.rev (PyStr.rev_onto t (String c acc)).
Proof.
  intros Hk prev s acc x H.
  unfold MONTHS, alt_of, month_re in H. cbn [fold_left] in H.
  assert (Hleaf : forall a l r,
             m (Seq (Lit (String a l)) r) prev s acc k = Some x ->
             month_initial a = true ->
             exists c t, month_initial c = true /\
                         x = PyStr.rev (PyStr.rev_onto t (String c acc))).
  { intros a l r Hm Ha. cbn [m] in Hm.
    apply (m_lit_head PyStr.rev a l _ (m_extends PyStr.rev r k Hk)) in Hm.
    destruct Hm as [c [t [Hc ->]]]. exists c, t. split; [|reflexivity].
    unfold month_initial in *. rewrite <- Hc. exact Ha. }
  assert (Hmay : m (Lit "May") prev s acc k = Some x ->
                 exists c t, month_initial c = true /\
                             x = PyStr.rev (PyStr.rev_onto t (String c acc))).
  { intro Hm. cbn [m] in Hm.
    apply (m_lit_head PyStr.rev _ _ k Hk) in Hm.
    destruct Hm as [c [t [Hc ->]]]. exists c, t. split; [|reflexivity].
    unfold month_initial. rewrite <- Hc. reflexivity. }
  repeat match type of H with
         | m (Alt _ _) _ _ _ _ = Some _ =>
             let H1 := fresh "H" in
             change (m (Alt ?a ?b) ?p ?s0 ?ac ?kk) with
               (or_else (m a p s0 ac kk) (m b p s0 ac kk)) in H;
             apply or_else_some in H; destruct H as [H|H1];
             [|first [exact (Hmay H1) | exact (Hleaf _ _ _ H1 eq_refl)]]
         end.
  exact (Hleaf _ _ _ H eq_refl).
Qed.

Lemma rev_string_cons (t : string) (c : ascii) :
  PyStr.rev (PyStr.rev_onto t (String c "")) = String c t.
Proof.
  unfold PyStr.rev. rewrite rev_onto_rev_onto. simpl. rewrite sapp_nil_r. reflexivity.
Qed.

Lemma date_re_match_head (prev : option ascii) (s sdate : string) :
  match_here DATE_RE prev s = Some sdate ->
  exists c t, month_initial c = true /\ sdate = String c t.
Proof.
  unfold match_here.
  change DATE_RE with
    (Seq WordB (Seq MONTHS
       (seq_of [ WordB; Star PyStr.is_space; Rep PyStr.is_digit 1 2;
                 Opt (Lit ","); Star PyStr.is_space; Rep PyStr.is_digit 4 4 ]))).
  set (REST := seq_of _).
  change (m (Seq WordB (Seq MONTHS REST)) prev s "" ?k)
    with (if xorb (word_at prev) (word_at (next_char s))
          then m MONTHS prev s "" (fun p s' a => m REST p s' a k) else None).
  destruct (xorb _ _); [|discriminate].
  intro H. apply months_head in H.
  - destruct H as [c [t [Hc ->]]]. exists c, t. split; [exact Hc|].
    apply rev_string_cons.
  - apply m_extends. exact final_extends.
Qed.

Lemma search_from_match (r : re) (prev : option ascii) (s x : string) :
  search_from r prev s = Some x ->
  exists prev' s', match_here r prev' s' = Some x.
Proof.
  revert prev. induction s as [|c s IH]; intro prev; cbn [search_from]; intro H;
    apply or_else_some in H; destruct H as [H|H].
  - eauto.
  - discriminate.
  - eauto.
  - apply IH in H. exact H.
Qed.

Lemma number_on_letter {B} (c : ascii) (t : string) (k : Z -> string -> option B) :
  month_initial c = true ->
  Strptime.number Strptime.day_alternatives (String c t) k = None /\
  Strptime.number Strptime.year_alternatives (String c t) k = None.
Proof.
  destruct c as [[] [] [] [] [] [] [] []]; intro H; try discriminate H;
    split; reflexivity.
Qed.

(** X18: a match of [DATE_RE] starts with a month name, so the templates
    of [parse_date] that start with the day or the year never read it:
    of the seven templates only "%b %d, %Y" and "%B %d, %Y" can succeed. *)
Theorem day_first_templates_never_read_a_match :
  forall s sdate fmt,
    Regex.search DATE_RE s = Some sdate ->
    In fmt ["%d %b %Y"; "%d %B %Y"; "%d-%m-%Y"; "%d/%m/%Y"; "%Y-%m-%d"]%string ->
    Strptime.strptime sdate fmt = None.
Proof.
  intros s sdate fmt Hs Hfmt. unfold Regex.search in Hs.
  apply search_from_match in Hs. destruct Hs as [prev [s' Hm]].
  apply date_re_match_head in Hm. destruct Hm as [c [t [Hc ->]]].
  unfold Strptime.strptime.
  simpl in Hfmt.
  destruct Hfmt as [<-|[<-|[<-|[<-|[<-|[]]]]]];
    cbn [Strptime.items PyStr.is_space]; cbn [Strptime.run];
    first [ rewrite (proj1 (number_on_letter c t _ Hc))
          | rewrite (proj2 (number_on_letter c t _ Hc)) ]; reflexivity.
Qed.


Lemma day_first_templates_never_read_a_match_witness :
  Strptime.strptime "Nov 16, 2025" "%d %b %Y" = None.
Proof.
  apply (day_first_templates_never_read_a_match "paid Nov 16, 2025 ok").
  - reflexivity.
  - simpl. left. reflexivity.
Defined.

(* ================================================================== *)
(** * The final table, row by row *)
(* ================================================================== *)

Lemma normalized_some_iff (w : WorkRow) :
  (match normalized w with Some _ => true | None => false end) = has_parsed w.
Proof.
  unfold normalized, has_parsed.
  destruct (_clean_amount (w_amount_raw w)) as [p|]; [|reflexivity].
  rewrite normalize_amount_cases. reflexivity.
Qed.

Lemma normalize_keeps_size (w : WorkRow) (p : Q) :
  exists a, normalize_amount w (Some p) = Some a /\ Qabs a == Qabs p.
Proof.
  rewrite normalize_amount_cases. eexists. split; [reflexivity|].
  assert (Hpos : Qabs (Qabs p) == Qabs p) by (apply Qabs_pos; apply Qabs_nonneg).
  assert (Hneg : Qabs (- Qabs p) == Qabs p) by (rewrite Qabs_opp; exact Hpos).
  destruct (debit_cue _); [exact Hneg|].
  destruct (credit_cue _); [exact Hpos|].
  destruct (raw_cr_cue _); [exact Hpos|].
  destruct (raw_dr_cue _); [exact Hneg|reflexivity].
Qed.

(** X19: the final table holds, in the order of the source, exactly the
    rows whose amount cell is read as a number, also those without a date;
    each keeps its date, description and type, and its amount has the size
    of the number read: the sign normalisation changes the sign only. *)
Theorem final_table_rows :
  forall filtered,
    Forall2 carried (filter has_parsed filtered) (finalize filtered).
Proof.
  intro filtered. unfold finalize.
  induction filtered as [|w l IH]; [constructor|].
  cbn [filter]. rewrite normalized_some_iff.
  destruct (has_parsed w) eqn:E; [|exact IH].
  cbn [map]. constructor; [|exact IH].
  unfold carried. cbn [date description txn_type amount].
  split; [reflexivity|]. split; [reflexivity|]. split; [reflexivity|].
  unfold has_parsed in E. unfold normalized.
  destruct (_clean_amount (w_amount_raw w)) as [p|]; [|discriminate].
  destruct (normalize_keeps_size w p) as [a [Ha Hsize]].
  exists p, a. auto.
Qed.

(* ================================================================== *)
(** * The categories *)
(* ================================================================== *)

Lemma simple_rule_range (desc : string) :
  In (match _simple_rule desc with Some c => c | None => "Others"%string end)
     ["Transport"; "Food"; "Groceries"; "Travel"; "Subscriptions"; "Shopping";
      "Health"; "Others"]%string.
Proof.
  unfold _simple_rule. cbv zeta.
  repeat match goal with
         | |- context [if any_in ?ws ?d then _ else _] => destruct (any_in ws d)
         end; simpl; tauto.
Qed.

(** X20: [categorize_transactions] gives every row one category, and it is
    one of Transport, Food, Groceries, Travel, Subscriptions, Shopping,
    Health and Others, all of them in [CATEGORIES]; the categories Bills,
    Entertainment, Investment and Salary are never given. *)
Theorem categories_assigned :
  forall df,
    List.length (categorize_transactions df) = List.length (rows df) /\
    forall c, In c (categorize_transactions df) ->
      In c CATEGORIES /\
      ~ In c ["Bills"; "Entertainment"; "Investment"; "Salary"]%string.
Proof.
  intro df. unfold categorize_transactions. split; [apply length_map|].
  intros c Hin. apply in_map_iff in Hin. destruct Hin as [row [<- _]].
  assert (H := simple_rule_range (description_text df row)).
  set (c := match _simple_rule (description_text df row) with
            | Some c0 => c0
            | None => "Others"%string
            end) in *.
  simpl in H.
  destruct H as [<-|[<-|[<-|[<-|[<-|[<-|[<-|[<-|[]]]]]]]]];
    (split; [simpl; tauto|]);
    intros [H|[H|[H|[H|[]]]]]; discriminate H.
Qed.

(** X21: the rules are tried in a fixed order and look for their words
    anywhere in the description, also inside longer words and in any case:
    a description that holds a text in which "uber", "ola", "taxi" or "cab"
    occurs is put under Transport, whatever else it names. *)
Theorem transport_rule_first :
  forall desc w text,
    In w ["uber"; "ola"; "taxi"; "cab"]%string ->
    PyStr.contains w text = true ->
    PyStr.contains text (PyStr.lower desc) = true ->
    _simple_rule desc = Some "Transport"%string.
Proof.
  intros desc w text Hw Hwt Htd. unfold _simple_rule. cbv zeta.
  assert (H : any_in ["uber"; "ola"; "taxi"; "cab"]%string (PyStr.lower desc) = true).
  { unfold any_in. apply existsb_exists. exists w. split; [exact Hw|].
    apply contains_trans with text; assumption. }
  rewrite H. reflexivity.
Qed.

Lemma transport_rule_first_witness :
  _simple_rule "Dark CHOCOLATE and restaurant" = Some "Transport"%string.
Proof.
  apply (transport_rule_first _ "ola"%string "chocolate"%string).
  - simpl. tauto.
  - reflexivity.
  - reflexivity.
Defined.

(** X22: a row without a description gets the category Others: in a frame
    that has no description column, and for a missing description cell. *)
Theorem no_description_is_others :
  forall df,
    (forall row, In row (rows df) ->
                 has_description df = false \/ description row = None) ->
    forall c, In c (categorize_transactions df) -> c = "Others"%string.
Proof.
  intros df H c Hin. unfold categorize_transactions in Hin.
  apply in_map_iff in Hin. destruct Hin as [row [<- Hrow]].
  unfold description_text.
  destruct (H row Hrow) as [-> | Hd]; [reflexivity|].
  rewrite Hd. destruct (has_description df); reflexivity.
Qed.

Lemma no_description_is_others_witness :
  nth 0 (categorize_transactions Examples.outlier_series) ""%string = "Others"%string.
Proof.
  apply (no_description_is_others Examples.outlier_series).
  - intros row _. left. reflexivity.
  - vm_compute. left. reflexivity.
Defined.

(* ================================================================== *)
(** * Accounts *)
(* ================================================================== *)

Section AuthFacts.
Variable hash : string -> string.

(** The three ways of a call of [signup]. *)
Lemma signup_cases (name pass : string) (file : Auth.UsersFile) :
  let users := Auth.users_of file in
  (file = Auth.NoDirectory /\
   Auth.signup hash name pass file = Auth.FileNotFoundError) \/
  (file <> Auth.NoDirectory /\ Auth.name_taken name users = true /\
   Auth.signup hash name pass file
   = Auth.Returned ((false, "Username already exists."%string), Auth.File users)) \/
  (file <> Auth.NoDirectory /\ Auth.name_taken name users = false /\
   Auth.signup hash name pass file
   = Auth.Returned ((true, "User created."%string),
                    Auth.File (users ++ [Auth.mkUser name (hash pass)]))).
Proof.
  unfold Auth.signup. destruct file as [| |users]; cbn [Auth._load_users Auth.users_of].
  - left. auto.
  - right. right. split; [discriminate|]. auto.
  - right. destruct (Auth.name_taken name users); [left|right];
      (split; [discriminate|auto]).
Qed.

Lemma name_taken_iff (name : string) (users : list Auth.User) :
  Auth.name_taken name users = true <-> In name (map Auth.username users).
Proof.
  unfold Auth.name_taken. rewrite existsb_exists, in_map_iff. split.
  - intros [u [Hu He]]. apply String.eqb_eq in He. exists u. auto.
  - intros [u [He Hu]]. exists u. split; [exact Hu|]. apply String.eqb_eq. exact He.
Qed.

(** X23: after a successful [signup], [login] with the same name and
    password succeeds and opens the session for that user. *)
Theorem signup_then_login :
  forall name pass file msg file' s,
    Auth.signup hash name pass file = Auth.Returned ((true, msg), file') ->
    Auth.login hash name pass file' s
    = Auth.Returned (true, file', Auth.mkSession (Auth.Value true) (Auth.Value name)).
Proof.
  intros name pass file msg file' s H.
  destruct (signup_cases name pass file) as [[_ E]|[[_ [_ E]]|[_ [_ E]]]];
    rewrite E in H; try discriminate.
  injection H as _ <-.
  unfold Auth.login. cbn [Auth._load_users].
  rewrite existsb_app. cbn [existsb Auth.username Auth.password].
  rewrite !String.eqb_refl. cbn [andb orb]. rewrite orb_true_r. reflexivity.
Qed.

(** X24: [signup] raises [FileNotFoundError] exactly when the directory of
    the users file is missing, and then writes nothing.  Otherwise it
    returns: it refuses a name exactly when the file holds it, and then
    leaves the users as they are; else it adds the user at the end.  The
    names stay distinct: a file without a repeated name has none after any
    [signup]. *)
Theorem signup_keeps_names_distinct :
  forall name pass file,
    (file = Auth.NoDirectory <->
     Auth.signup hash name pass file = Auth.FileNotFoundError) /\
    (file <> Auth.NoDirectory ->
     exists answer msg file',
       Auth.signup hash name pass file = Auth.Returned ((answer, msg), file') /\
       let users := Auth.users_of file in
       let users' := Auth.users_of file' in
       (answer = false <-> In name (map Auth.username users)) /\
       (answer = false -> users' = users) /\
       (answer = true -> users' = users ++ [Auth.mkUser name (hash pass)]) /\
       (NoDup (map Auth.username users) -> NoDup (map Auth.username users'))).
Proof.
  intros name pass file.
  destruct (signup_cases name pass file) as [[Hf E]|[[Hf [Ht E]]|[Hf [Ht E]]]];
    cbv zeta in *.
  - split; [tauto|]. contradiction.
  - split; [split; [contradiction|rewrite E; discriminate]|]. intros _.
    eexists _, _, _. split; [exact E|]. cbn [Auth.users_of].
    apply name_taken_iff in Ht. split; [tauto|]. split; [reflexivity|].
    split; [discriminate|auto].
  - split; [split; [contradiction|rewrite E; discriminate]|]. intros _.
    eexists _, _, _. split; [exact E|]. cbn [Auth.users_of].
    assert (Hn : ~ In name (map Auth.username (Auth.users_of file))).
    { rewrite <- name_taken_iff. congruence. }
    split; [split; [discriminate|contradiction]|].
    split; [discriminate|]. split; [reflexivity|].
    intro Hnd. rewrite map_app. cbn [map Auth.username].
    apply NoDup_app.
    + exact Hnd.
    + constructor; [intros []|constructor].
    + intros x Hx [<-|[]]. contradiction.
Qed.

(** X25: after a successful [signup], [login] with a password of another
    hash fails for the new name and leaves the session as it was; for every
    other name [login] answers as before the [signup]. *)
Theorem signup_guards_login :
  forall name pass file msg file' s,
    Auth.signup hash name pass file = Auth.Returned ((true, msg), file') ->
    (forall pass',
        hash pass' <> hash pass ->
        Auth.login hash name pass' file' s = Auth.Returned (false, file', s)) /\
    (forall name' pass',
        name' <> name ->
        Auth.answer (Auth.login hash name' pass' file' s)
        = Auth.answer (Auth.login hash name' pass' file s)).
Proof.
  intros name pass file msg file' s H.
  destruct (signup_cases name pass file) as [[_ E]|[[_ [_ E]]|[Hf [Ht E]]]];
    rewrite E in H; try discriminate.
  injection H as _ <-.
  set (users := Auth.users_of file) in *.
  split.
  - intros pass' Hp. unfold Auth.login. cbn [Auth._load_users].
    rewrite existsb_app. cbn [existsb Auth.username Auth.password].
    assert (Hold : existsb (fun u => (Auth.username u =? name)%string
                                     && (Auth.password u =? hash pass')%string)
                           users = false).
    { unfold Auth.name_taken in Ht. revert Ht. clear.
      induction users as [|u us IH]; [reflexivity|]. cbn [existsb].
      rewrite orb_false_iff. intros [-> Hus]. cbn [andb orb]. exact (IH Hus). }
    rewrite Hold.
    assert (Hnew : (hash pass =? hash pass')%string = false).
    { apply String.eqb_neq. congruence. }
    rewrite Hnew, andb_false_r. reflexivity.
  - intros name' pass' Hn. unfold Auth.login, users.
    assert (Hne : (name =? name')%string = false).
    { apply String.eqb_neq. congruence. }
    destruct file as [| |us]; [contradiction| |];
      cbn [Auth._load_users Auth.users_of].
    + cbn [app existsb Auth.username Auth.password].
      rewrite Hne. reflexivity.
    + rewrite existsb_app. cbn [existsb Auth.username Auth.password].
      rewrite Hne. cbn [andb orb]. rewrite orb_false_r.
      destruct (existsb _ us); reflexivity.
Qed.

End AuthFacts.

(* ================================================================== *)
(** * The log of freeze requests *)
(* ================================================================== *)

Lemma log_all_existing (calls : list (list (string * string) * string))
      (lines : list Logger.Line) :
  exists added,
    Logger.log_all calls (Some lines) = Some (lines ++ added) /\
    List.length added = List.length calls /\
    Forall (fun l => List.length l = List.length Logger.header) added /\
    map (hd ""%string) added = map snd calls.
Proof.
  revert lines. induction calls as [|[record now] calls IH]; intro lines.
  - exists []. rewrite app_nil_r. repeat split. constructor.
  - cbn [Logger.log_all Logger.log_freeze_request].
    destruct (IH (lines ++
                  [[now; Logger.get record "index" ""; Logger.get record "date" "";
                    Logger.get record "description" ""; Logger.get record "amount" "";
                    Logger.get record "sms_sent" "False";
                    Logger.get record "sms_info" ""]]))
      as [added [E [Hlen [Hall Hfst]]]].
    eexists (_ :: added). rewrite E, <- app_assoc. cbn [app].
    split; [reflexivity|]. split; [cbn [List.length]; rewrite Hlen; reflexivity|].
    split; [constructor; [reflexivity|exact Hall]|].
    cbn [map hd snd]. rewrite Hfst. reflexivity.
Qed.

(** X26: the log file starts with the header, written once, by the first
    call on a file that does not exist; every call adds one line at the
    end, with as many fields as the header and the time of the call as its
    first field; a call on a file that exists adds no header. *)
Theorem log_grows_by_one_line :
  forall calls,
    (forall lines,
        exists added,
          Logger.log_all calls (Some lines) = Some (lines ++ added) /\
          List.length added = List.length calls /\
          Forall (fun l => List.length l = List.length Logger.header) added /\
          map (hd ""%string) added = map snd calls) /\
    (calls <> [] ->
     exists added,
       Logger.log_all calls None = Some (Logger.header :: added) /\
       List.length added = List.length calls /\
       Forall (fun l => List.length l = List.length Logger.header) added /\
       map (hd ""%string) added = map snd calls).
Proof.
  intro calls. split; [intro lines; apply log_all_existing|].
  destruct calls as [|[record now] calls]; [congruence|]. intros _.
  cbn [Logger.log_all Logger.log_freeze_request].
  destruct (log_all_existing calls
              [Logger.header;
               [now; Logger.get record "index" ""; Logger.get record "date" "";
                Logger.get record "description" ""; Logger.get record "amount" "";
                Logger.get record "sms_sent" "False"; Logger.get record "sms_info" ""]])
    as [added [E [Hlen [Hall Hfst]]]].
  eexists (_ :: added). rewrite E. cbn [app].
  split; [reflexivity|]. split; [cbn [List.length]; rewrite Hlen; reflexivity|].
  split; [constructor; [reflexivity|exact Hall]|].
  cbn [map hd snd]. rewrite Hfst. reflexivity.
Qed.

Lemma signup_then_login_witness :
  Auth.login MoreExamples3.toy_hash "ravi" "pw"
             (Auth.File [Auth.mkUser "asha" (MoreExamples3.toy_hash "s3cret");
                         Auth.mkUser "ravi" (MoreExamples3.toy_hash "pw")])
             (Auth.mkSession Auth.Absent Auth.Absent)
  = Auth.Returned
      (true,
       Auth.File [Auth.mkUser "asha" (MoreExamples3.toy_hash "s3cret");
                  Auth.mkUser "ravi" (MoreExamples3.toy_hash "pw")],
       Auth.mkSession (Auth.Value true) (Auth.Value "ravi"%string)).
Proof.
  apply (signup_then_login MoreExamples3.toy_hash "ravi" "pw"
           MoreExamples3.one_user "User created.").
  reflexivity.
Defined.

Lemma signup_keeps_names_distinct_witness :
  exists answer msg file',
    Auth.signup MoreExamples3.toy_hash "ravi" "pw" MoreExamples3.one_user
    = Auth.Returned ((answer, msg), file') /\
    let users := Auth.users_of MoreExamples3.one_user in
    let users' := Auth.users_of file' in
    (answer = false <-> In "ravi"%string (map Auth.username users)) /\
    (answer = false -> users' = users) /\
    (answer = true ->
     users' = users ++ [Auth.mkUser "ravi" (MoreExamples3.toy_hash "pw")]) /\
    (NoDup (map Auth.username users) -> NoDup (map Auth.username users')).
Proof.
  destruct (signup_keeps_names_distinct MoreExamples3.toy_hash "ravi" "pw"
              MoreExamples3.one_user) as [_ H].
  apply H. discriminate.
Defined.

Lemma signup_guards_login_witness :
  Auth.login MoreExamples3.toy_hash "ravi" "guess"
             (Auth.File [Auth.mkUser "asha" (MoreExamples3.toy_hash "s3cret");
                         Auth.mkUser "ravi" (MoreExamples3.toy_hash "pw")])
             (Auth.mkSession Auth.Absent Auth.Absent)
  = Auth.Returned
      (false,
       Auth.File [Auth.mkUser "asha" (MoreExamples3.toy_hash "s3cret");
                  Auth.mkUser "ravi" (MoreExamples3.toy_hash "pw")],
       Auth.mkSession Auth.Absent Auth.Absent).
Proof.
  destruct (signup_guards_login MoreExamples3.toy_hash "ravi" "pw"
              MoreExamples3.one_user "User created."
              (Auth.File [Auth.mkUser "asha" (MoreExamples3.toy_hash "s3cret");
                          Auth.mkUser "ravi" (MoreExamples3.toy_hash "pw")])
              (Auth.mkSession Auth.Absent Auth.Absent)) as [H _].
  - reflexivity.
  - apply H. vm_compute. discriminate.
Defined.

Lemma log_grows_by_one_line_witness :
  exists added,
    Logger.log_all MoreExamples3.two_calls None = Some (Logger.header :: added) /\
    List.length added = List.length MoreExamples3.two_calls /\
    Forall (fun l => List.length l = List.length Logger.header) added /\
    map (hd ""%string) added = map snd MoreExamples3.two_calls.
Proof.
  destruct (log_grows_by_one_line MoreExamples3.two_calls) as [_ H].
  apply H. discriminate.
Defined.
